(** * StreamChatWars: team membership and action pipeline

    A shallow embedding of the core of the StreamChatWars chat-to-input
    router (package [streamchatwars]) together with the properties of its
    specification.  Every module below mirrors one source file:

    - [Enums]          : [_shared/enums.py]         (Quadstate)
    - [HelpersNative]  : [_shared/helpers_native.py] (clamp)
    - [Re]             : the fragment of Python's backtracking [re] engine
                         that the patterns of the package need
    - [Constants]      : [_shared/constants.py]      (patterns, INPUT_TYPE)
    - [Userlist]       : [userdata/userlist.py]
    - [BaseMultikey]   : [actionsets/subclasses/base_multikey.py]
    - [Teams]          : [teams/team.py], [teams/subclasses/*.py],
                         [teams/functions.py], [_shared/global_data.py]
    - [Macros]         : the macro table and [validate] of
                         [base_multikey.py], the verb table of
                         [actionsets/subclasses/gamepad.py]
    - [Registry]       : [GlobalData.Teams] of [_shared/global_data.py]
    - [Snapshot]       : snapshots of [teams/team.py] and
                         [teams/functions.py]
    - [Construction]   : [Team.__init__]

    Conventions.  Python [int] is [Z]; [str] is [string] (characters are
    8-bit, so text outside ASCII is not covered); [set[str]] is
    [gset string]; [dict[str, V]] is [gmap string V]; a call that may raise
    returns a [pyresult]; methods that mutate [self] or the globals return
    the new state next to their result. *)

From Stdlib Require Import ZArith Lia Bool Ascii String List DecimalString.
From stdpp Require Import base option list gmap sets strings.

Local Open Scope string_scope.
Local Open Scope list_scope.
Local Open Scope Z_scope.

#[local] Set Warnings "-clear-no-such-hyp".

(** ** Python results: a value, or a raised exception *)

Inductive exn : Type :=
| IndexError
| KeyError
| TypeError
| AttributeError
| ValueError
| NotImplementedError.

Inductive pyresult (A : Type) : Type :=
| Return (a : A)
| Raise (e : exn).
Arguments Return {A} a.
Arguments Raise {A} e.

(* ================================================================== *)
(** ** [_shared/enums.py] *)
(* ================================================================== *)
Module Enums.

Definition _FALSE : Z := 0.
Definition _TRUE : Z := 1.
Definition _MAYBE : Z := 2.

(** [class Quadstate(IntFlag)]: the four members and their integer values. *)
Inductive Quadstate : Type :=
| AbsolutelyTrue
| MaybeTrue
| AbsolutelyFalse
| MaybeFalse.

Definition value (q : Quadstate) : Z :=
  match q with
  | AbsolutelyTrue => _TRUE
  | MaybeTrue => Z.lor _TRUE _MAYBE
  | AbsolutelyFalse => _FALSE
  | MaybeFalse => Z.lor _FALSE _MAYBE
  end.

(** Python truthiness of an [int]. *)
Definition py_bool_of_int (n : Z) : bool := negb (n =? 0).

(** [Quadstate.__bool__]: [bool(self.value & _TRUE)]. *)
Definition __bool__ (q : Quadstate) : bool :=
  py_bool_of_int (Z.land (value q) _TRUE).

(** [Quadstate.is_certain]: [not self.value & _MAYBE]. *)
Definition is_certain (q : Quadstate) : bool :=
  negb (py_bool_of_int (Z.land (value q) _MAYBE)).

End Enums.

(* ================================================================== *)
(** ** [_shared/helpers_native.py] *)
(* ================================================================== *)
Module HelpersNative.

(** [clamp(minimum, value, maximum)]: the bounds are swapped when they
    come in the wrong order, then [max(minimum, min(value, maximum))]. *)
Definition clamp (minimum value maximum : Z) : Z :=
  let '(minimum, maximum) :=
    if minimum >? maximum then (maximum, minimum) else (minimum, maximum) in
  Z.max minimum (Z.min value maximum).

End HelpersNative.

(* ================================================================== *)
(** ** Python string operations used by the package *)
(* ================================================================== *)
Module PyStr.

Definition code (c : ascii) : N := N_of_ascii c.

Definition in_range (lo hi : N) (c : ascii) : bool :=
  ((lo <=? code c) && (code c <=? hi))%N.

(** [str.isspace] on the ASCII range: TAB..CR, FS..US and the blank. *)
Definition is_space (c : ascii) : bool :=
  in_range 9 13 c || in_range 28 32 c.

Definition is_digit (c : ascii) : bool := in_range 48 57 c.
Definition is_upper (c : ascii) : bool := in_range 65 90 c.
Definition is_lower (c : ascii) : bool := in_range 97 122 c.

Definition lower_char (c : ascii) : ascii :=
  if is_upper c then ascii_of_N (code c + 32) else c.

(** [s.lower()] *)
Fixpoint lower (s : string) : string :=
  match s with
  | EmptyString => EmptyString
  | String c s' => String (lower_char c) (lower s')
  end.

(** [s.startswith(p)] *)
Definition startswith (s p : string) : bool := String.prefix p s.

(** [s[n:]] for [0 <= n] *)
Fixpoint drop (n : nat) (s : string) : string :=
  match n, s with
  | S n', String _ s' => drop n' s'
  | _, _ => s
  end.

(** [needle in hay] *)
Fixpoint contains (needle hay : string) : bool :=
  String.prefix needle hay ||
  match hay with
  | EmptyString => false
  | String _ hay' => contains needle hay'
  end.

(** [s.split(sep)] for a one-character separator: never an empty list. *)
Fixpoint split (sep : ascii) (s : string) : list string :=
  match s with
  | EmptyString => [EmptyString]
  | String c s' =>
      if Ascii.eqb c sep then EmptyString :: split sep s'
      else match split sep s' with
           | [] => [String c EmptyString]
           | w :: ws => String c w :: ws
           end
  end.

(** Value of a string of decimal digits, read left to right. *)
Fixpoint digits_value (acc : Z) (s : string) : Z :=
  match s with
  | EmptyString => acc
  | String c s' => digits_value (10 * acc + (Z.of_N (code c) - 48)) s'
  end.

(** The digit part of an [int] literal: digits, with single underscores
    allowed between two digits. *)
Fixpoint digits_ok (after_digit : bool) (s : string) : bool :=
  match s with
  | EmptyString => after_digit
  | String c s' =>
      if is_digit c then digits_ok true s'
      else if Ascii.eqb c "_" then after_digit && digits_ok false s'
      else false
  end.

Fixpoint remove_underscores (s : string) : string :=
  match s with
  | EmptyString => EmptyString
  | String c s' =>
      if Ascii.eqb c "_" then remove_underscores s'
      else String c (remove_underscores s')
  end.

Fixpoint lstrip (s : string) : string :=
  match s with
  | String c s' => if is_space c then lstrip s' else s
  | EmptyString => s
  end.

Fixpoint rstrip (s : string) : string :=
  match s with
  | EmptyString => EmptyString
  | String c s' =>
      match rstrip s' with
      | EmptyString => if is_space c then EmptyString else String c EmptyString
      | r => String c r
      end
  end.

(** [int(s)] in base ten: surrounding blanks, an optional sign, digits.
    Anything else raises [ValueError]. *)
Definition int (s : string) : pyresult Z :=
  let body := rstrip (lstrip s) in
  let '(negative, ds) :=
    match body with
    | String c r =>
        if Ascii.eqb c "-" then (true, r)
        else if Ascii.eqb c "+" then (false, r)
        else (false, body)
    | EmptyString => (false, body)
    end in
  if digits_ok false ds
  then let v := digits_value 0 (remove_underscores ds) in
       Return (if negative then - v else v)
  else Raise ValueError.

(** [l[i]] on a sequence, negative indices counting from the end. *)
Definition index {A : Type} (l : list A) (i : Z) : pyresult A :=
  let n := Z.of_nat (length l) in
  let j := if i <? 0 then i + n else i in
  if (0 <=? j) && (j <? n)
  then match nth_error l (Z.to_nat j) with
       | Some a => Return a
       | None => Raise IndexError
       end
  else Raise IndexError.

End PyStr.

(* ================================================================== *)
(** ** The backtracking regular expressions of Python's [re]

    Only the constructs that the patterns of the package use.  Matching
    is by continuation: alternatives are tried in priority order, greedy
    repetition tries the longest run first, and a capture made on a path
    that is given up is forgotten with it. *)
(* ================================================================== *)
Module Re.

Inductive regex : Type :=
| Class (p : ascii -> bool)         (* one character of a class *)
| Literal (l : string)              (* a fixed text *)
| Cat (r1 r2 : regex)               (* r1 r2 *)
| Or (r1 r2 : regex)                (* r1|r2 *)
| Maybe (r : regex)                 (* r? , greedy *)
| Many (p : ascii -> bool)          (* [p]* , greedy *)
| Many1 (p : ascii -> bool)         (* [p]+ , greedy *)
| Capture (n : nat) (r : regex)     (* ( r ), group number n *)
| Bos                               (* ^ *)
| Eos.                              (* $ *)

Definition captures : Type := list (nat * string).

(** [m.group(n)], with [''] for a group that took no part in the match
    (what [findall] shows). *)
Fixpoint group (caps : captures) (n : nat) : string :=
  match caps with
  | [] => EmptyString
  | (k, txt) :: rest => if Nat.eqb k n then txt else group rest n
  end.

(** [$] without MULTILINE: at the end, or before a final newline. *)
Definition at_end (s : string) : bool :=
  match s with
  | EmptyString => true
  | String c EmptyString => Ascii.eqb c "010"
  | _ => false
  end.

Fixpoint strip_prefix (l s : string) : option string :=
  match l, s with
  | EmptyString, _ => Some s
  | String a l', String b s' => if Ascii.eqb a b then strip_prefix l' s' else None
  | String _ _, EmptyString => None
  end.

Section Exec.
Context {R : Type}.

(** Greedy run of class [p] from [s] (at index [pos]), then [k]. *)
Fixpoint many (p : ascii -> bool) (s : string) (pos : nat)
    (k : string -> nat -> option R) : option R :=
  match s with
  | String c s' =>
      if p c then
        match many p s' (S pos) k with
        | Some r => Some r
        | None => k s pos
        end
      else k s pos
  | EmptyString => k s pos
  end.

(** [exec r s pos caps k]: match [r] against the text [s] that starts at
    index [pos] of the subject, then continue with [k]. *)
Fixpoint exec (r : regex) (s : string) (pos : nat) (caps : captures)
    (k : string -> nat -> captures -> option R) : option R :=
  match r with
  | Class p =>
      match s with
      | String c s' => if p c then k s' (S pos) caps else None
      | EmptyString => None
      end
  | Literal l =>
      match strip_prefix l s with
      | Some s' => k s' (pos + String.length l)%nat caps
      | None => None
      end
  | Cat r1 r2 =>
      exec r1 s pos caps (fun s1 pos1 caps1 => exec r2 s1 pos1 caps1 k)
  | Or r1 r2 =>
      match exec r1 s pos caps k with
      | Some x => Some x
      | None => exec r2 s pos caps k
      end
  | Maybe r1 =>
      match exec r1 s pos caps k with
      | Some x => Some x
      | None => k s pos caps
      end
  | Many p => many p s pos (fun s' pos' => k s' pos' caps)
  | Many1 p =>
      match s with
      | String c s' =>
          if p c then many p s' (S pos) (fun s'' pos'' => k s'' pos'' caps)
          else None
      | EmptyString => None
      end
  | Capture n r1 =>
      exec r1 s pos caps
        (fun s' pos' caps' =>
           k s' pos' ((n, String.substring 0 (pos' - pos) s) :: caps'))
  | Bos => if Nat.eqb pos 0 then k s pos caps else None
  | Eos => if at_end s then k s pos caps else None
  end.
End Exec.

(** One match attempt at index [pos]: the captures and the end index. *)
Definition match_at (r : regex) (s : string) (pos : nat)
  : option (captures * nat) :=
  exec r s pos [] (fun _ pos' caps => Some (caps, pos')).

(** [pattern.match(s)] *)
Definition match_ (r : regex) (s : string) : option captures :=
  fst <$> match_at r s 0.

(** [pattern.fullmatch(s)] *)
Definition fullmatch (r : regex) (s : string) : option captures :=
  exec r s 0%nat []
    (fun s' _ caps => match s' with EmptyString => Some caps | _ => None end).

(** [pattern.findall(s)]: scan left to right; after a match that ends at
    [e] the next attempt is at [e] ([skip] counts the characters still to
    pass).  The patterns of the package never match the empty string. *)
Fixpoint findall_from (r : regex) (s : string) (pos skip : nat)
  : list captures :=
  match s with
  | EmptyString =>
      match skip, match_at r s pos with
      | O, Some (caps, _) => [caps]
      | _, _ => []
      end
  | String _ s' =>
      match skip with
      | S skip' => findall_from r s' (S pos) skip'
      | O =>
          match match_at r s pos with
          | Some (caps, e) => caps :: findall_from r s' (S pos) (e - pos - 1)
          | None => findall_from r s' (S pos) 0
          end
      end
  end.

Definition findall (r : regex) (s : string) : list captures :=
  findall_from r s 0 0.

End Re.

(* ================================================================== *)
(** ** [_shared/constants.py] *)
(* ================================================================== *)
Module Constants.
Import Re.

(** [class INPUT_TYPE(IntEnum)] *)
Definition PRESS_KEY : Z := 1.
Definition HOLD_KEY : Z := -1.
Definition RELEASE_KEY : Z := 0.

Definition not_space (c : ascii) : bool := negb (PyStr.is_space c).

(** [[a-zA-Z0-9_]] *)
Definition is_word (c : ascii) : bool :=
  PyStr.is_lower c || PyStr.is_upper c || PyStr.is_digit c || Ascii.eqb c "_".

(** [[+,;:]] *)
Definition is_separator_char (c : ascii) : bool :=
  Ascii.eqb c "+" || Ascii.eqb c "," || Ascii.eqb c ";" || Ascii.eqb c ":".

(** [CHANNEL_NAME_PATTERN = r"#?[a-zA-Z0-9_]+"] *)
Definition CHANNEL_NAME_PATTERN : regex :=
  Cat (Maybe (Literal "#")) (Many1 is_word).

(** [DELAY_SEPARATOR_PATTERN = r"[+,;:]|->"] *)
Definition DELAY_SEPARATOR_PATTERN : regex :=
  Or (Class is_separator_char) (Literal "->").

(** [VERB_DELAY_DURATION_REGEX]:
    [( \S+ )(?: \s+ (?: ( \d+ )? \s* (?: [+,;:] | -> ) \s* )? ( \d+ )? (?: $ | \s ) )?]
    (written here with blanks between the parts)
    with the verb in group 1, the delay in group 2 and the duration in
    group 3 (the source counts them 0, 1, 2 in the [findall] tuples). *)
Definition VERB_DELAY_DURATION_REGEX : regex :=
  Cat (Capture 1 (Many1 not_space))
      (Maybe
         (Cat (Many1 PyStr.is_space)
         (Cat (Maybe
                 (Cat (Maybe (Capture 2 (Many1 PyStr.is_digit)))
                 (Cat (Many PyStr.is_space)
                 (Cat DELAY_SEPARATOR_PATTERN
                      (Many PyStr.is_space)))))
         (Cat (Maybe (Capture 3 (Many1 PyStr.is_digit)))
              (Or Eos (Class PyStr.is_space)))))).

(** [PREDICTION_NUMBER_REGEX = r"predictions/[a-z]+-([0-9]+)"] *)
Definition PREDICTION_NUMBER_REGEX : regex :=
  Cat (Literal "predictions/")
  (Cat (Many1 PyStr.is_lower)
  (Cat (Literal "-")
       (Capture 1 (Many1 PyStr.is_digit)))).

End Constants.

(** [pyresult] is a monad: a raised exception skips the rest. *)
#[global] Instance pyresult_ret : MRet pyresult := fun _ a => Return a.
#[global] Instance pyresult_bind : MBind pyresult := fun _ _ f m =>
  match m with
  | Return a => f a
  | Raise e => Raise e
  end.

(* ================================================================== *)
(** ** [_interfaces/_chatmsg.py] *)
(* ================================================================== *)
Module Chatmsg.

(** The fields of a chat message that the core reads.  [timestamp] (a
    float) and [parent] (the back-reference to the sender) are left out. *)
Record ChatMessage : Type := {
  msg_id : string;
  msg_type : string;
  user : string;
  channel : string;
  message : string;
  tags : gmap string string;
}.

(** [msg.tags.get(key, default)] *)
Definition tags_get (msg : ChatMessage) (key default : string) : string :=
  match tags msg !! key with
  | Some v => v
  | None => default
  end.

(** [msg.tags[key]] *)
Definition tags_item (msg : ChatMessage) (key : string) : pyresult string :=
  match tags msg !! key with
  | Some v => Return v
  | None => Raise KeyError
  end.

End Chatmsg.

(* ================================================================== *)
(** ** [userdata/userlist.py] *)
(* ================================================================== *)
Module Userlist.
Import Chatmsg.

(** [class SpecialGroupsContainer]: one channel set per special group. *)
Record SpecialGroupsContainer : Type := {
  broadcaster : gset string;
  mods : gset string;
  vips : gset string;
  subs : gset string;
  tier3subs : gset string;
  tier2subs : gset string;
  tier1subs : gset string;
  partners : gset string;
  founders : gset string;
  staff : gset string;
  prime : gset string;
  turbo : gset string;
  users : gset string;
}.

Definition empty_groups : SpecialGroupsContainer :=
  {| broadcaster := ∅; mods := ∅; vips := ∅; subs := ∅; tier3subs := ∅;
     tier2subs := ∅; tier1subs := ∅; partners := ∅; founders := ∅;
     staff := ∅; prime := ∅; turbo := ∅; users := ∅ |}.

(** The keys of [self.mapping], in insertion order. *)
Definition mapping_keys : list string :=
  [ "$broadcaster"; "$mods"; "$vips"; "$subs"; "$tier3subs"; "$tier2subs";
    "$tier1subs"; "$partners"; "$founders"; "$staff"; "$prime"; "$turbo";
    "$users" ].

(** [self.mapping[name]]: the dictionary holds the very set objects of the
    attributes, so reading it reads the attribute ... *)
Definition mapping_get (g : SpecialGroupsContainer) (name : string)
  : pyresult (gset string) :=
  if String.eqb name "$broadcaster" then Return (broadcaster g)
  else if String.eqb name "$mods" then Return (mods g)
  else if String.eqb name "$vips" then Return (vips g)
  else if String.eqb name "$subs" then Return (subs g)
  else if String.eqb name "$tier3subs" then Return (tier3subs g)
  else if String.eqb name "$tier2subs" then Return (tier2subs g)
  else if String.eqb name "$tier1subs" then Return (tier1subs g)
  else if String.eqb name "$partners" then Return (partners g)
  else if String.eqb name "$founders" then Return (founders g)
  else if String.eqb name "$staff" then Return (staff g)
  else if String.eqb name "$prime" then Return (prime g)
  else if String.eqb name "$turbo" then Return (turbo g)
  else if String.eqb name "$users" then Return (users g)
  else Raise KeyError.

(** ... and a mutation through it mutates the attribute. *)
Definition mapping_update (g : SpecialGroupsContainer) (name : string)
    (f : gset string -> gset string) : pyresult SpecialGroupsContainer :=
  let 'Build_SpecialGroupsContainer a b c d e3 e2 e1 p fo st pr tu us := g in
  if String.eqb name "$broadcaster" then
    Return (Build_SpecialGroupsContainer (f a) b c d e3 e2 e1 p fo st pr tu us)
  else if String.eqb name "$mods" then
    Return (Build_SpecialGroupsContainer a (f b) c d e3 e2 e1 p fo st pr tu us)
  else if String.eqb name "$vips" then
    Return (Build_SpecialGroupsContainer a b (f c) d e3 e2 e1 p fo st pr tu us)
  else if String.eqb name "$subs" then
    Return (Build_SpecialGroupsContainer a b c (f d) e3 e2 e1 p fo st pr tu us)
  else if String.eqb name "$tier3subs" then
    Return (Build_SpecialGroupsContainer a b c d (f e3) e2 e1 p fo st pr tu us)
  else if String.eqb name "$tier2subs" then
    Return (Build_SpecialGroupsContainer a b c d e3 (f e2) e1 p fo st pr tu us)
  else if String.eqb name "$tier1subs" then
    Return (Build_SpecialGroupsContainer a b c d e3 e2 (f e1) p fo st pr tu us)
  else if String.eqb name "$partners" then
    Return (Build_SpecialGroupsContainer a b c d e3 e2 e1 (f p) fo st pr tu us)
  else if String.eqb name "$founders" then
    Return (Build_SpecialGroupsContainer a b c d e3 e2 e1 p (f fo) st pr tu us)
  else if String.eqb name "$staff" then
    Return (Build_SpecialGroupsContainer a b c d e3 e2 e1 p fo (f st) pr tu us)
  else if String.eqb name "$prime" then
    Return (Build_SpecialGroupsContainer a b c d e3 e2 e1 p fo st (f pr) tu us)
  else if String.eqb name "$turbo" then
    Return (Build_SpecialGroupsContainer a b c d e3 e2 e1 p fo st pr (f tu) us)
  else if String.eqb name "$users" then
    Return (Build_SpecialGroupsContainer a b c d e3 e2 e1 p fo st pr tu (f us))
  else Raise KeyError.

(** [self.REGEX]: [^(group1|group2|...)(?:\[(CHANNEL_NAME_PATTERN)\])?$],
    the alternatives being the escaped keys of [mapping]. *)
Definition group_pattern : Re.regex :=
  foldr (fun name r => Re.Or (Re.Literal name) r)
        (Re.Literal "$users")
        (take 12 mapping_keys).

Definition REGEX : Re.regex :=
  Re.Cat Re.Bos
  (Re.Cat (Re.Capture 1 group_pattern)
  (Re.Cat (Re.Maybe (Re.Cat (Re.Literal "[")
                    (Re.Cat (Re.Capture 2 Constants.CHANNEL_NAME_PATTERN)
                            (Re.Literal "]"))))
          Re.Eos)).

(** [class UserList] *)
Record UserList : Type := {
  cache_users : bool;
  known_users : gset string;
  included_users : gset string;
  fixed_users : gset string;
  special_groups : SpecialGroupsContainer;
}.

(** [UserList(cache_users)] and [clear]: the initialised state. *)
Definition __init__ (cache_users : bool) : UserList :=
  {| cache_users := cache_users; known_users := ∅; included_users := ∅;
     fixed_users := ∅; special_groups := empty_groups |}.

Definition clear (self : UserList) : UserList := __init__ (cache_users self).

Definition set_known (self : UserList) (k : gset string) : UserList :=
  {| cache_users := cache_users self; known_users := k;
     included_users := included_users self; fixed_users := fixed_users self;
     special_groups := special_groups self |}.

Definition set_included (self : UserList) (i : gset string) : UserList :=
  {| cache_users := cache_users self; known_users := known_users self;
     included_users := i; fixed_users := fixed_users self;
     special_groups := special_groups self |}.

Definition set_fixed (self : UserList) (f : gset string) : UserList :=
  {| cache_users := cache_users self; known_users := known_users self;
     included_users := included_users self; fixed_users := f;
     special_groups := special_groups self |}.

Definition set_groups (self : UserList) (g : SpecialGroupsContainer)
  : UserList :=
  {| cache_users := cache_users self; known_users := known_users self;
     included_users := included_users self; fixed_users := fixed_users self;
     special_groups := g |}.

(** [chan if chan.startswith('#') else f'#{chan}'] *)
Definition with_hash (chan : string) : string :=
  if PyStr.startswith chan "#" then chan else "#" +:+ chan.

(** The group branch shared by [add_to_list] and [remove_from_list]: apply
    [op chan] to the group's set for the named channel, or for every
    channel of [team_channel_set] when none is named. *)
Definition change_group (op : string -> gset string -> gset string)
    (g : SpecialGroupsContainer) (group chan : string)
    (team_channel_set : gset string) : pyresult SpecialGroupsContainer :=
  if negb (String.eqb chan "")
  then mapping_update g group (op (with_hash chan))
  else foldl (fun acc c => g' ← acc; mapping_update g' group (op c))
             (Return g) (elements team_channel_set).

(** [add_to_list(entry, team_channel_set)] *)
Definition add_to_list (self : UserList) (entry : string)
    (team_channel_set : gset string) : pyresult unit * UserList :=
  let lower_case_entry := PyStr.lower entry in
  match Re.findall REGEX lower_case_entry with
  | regex_result :: _ =>
      let group := Re.group regex_result 1 in
      let chan := Re.group regex_result 2 in
      match change_group (fun c s => {[c]} ∪ s)
              (special_groups self) group chan team_channel_set with
      | Return g => (Return tt, set_known (set_groups self g) ∅)
      | Raise e => (Raise e, self)
      end
  | [] =>
      (Return tt,
       set_known
         (set_included
            (set_fixed self ({[lower_case_entry]} ∪ fixed_users self))
            ({[lower_case_entry]} ∪ included_users self))
         ({[lower_case_entry]} ∪ known_users self))
  end.

(** [remove_from_list(entry, team_channel_set)] *)
Definition remove_from_list (self : UserList) (entry : string)
    (team_channel_set : gset string) : pyresult unit * UserList :=
  let lower_case_entry := PyStr.lower entry in
  match Re.findall REGEX lower_case_entry with
  | regex_result :: _ =>
      let group := Re.group regex_result 1 in
      let chan := Re.group regex_result 2 in
      match change_group (fun c s => s ∖ {[c]})
              (special_groups self) group chan team_channel_set with
      | Return g =>
          (Return tt, set_included (set_known (set_groups self g) ∅) ∅)
      | Raise e => (Raise e, self)
      end
  | [] =>
      (Return tt,
       set_known
         (set_included
            (set_fixed self (fixed_users self ∖ {[lower_case_entry]}))
            (included_users self ∖ {[lower_case_entry]}))
         (known_users self ∖ {[lower_case_entry]}))
  end.

(** *** The subgroup checks *)

Definition nonempty (s : gset string) : bool := negb (bool_decide (s = ∅)).
Definition mem (x : string) (s : gset string) : bool := bool_decide (x ∈ s).

(** The common shape: the group has channels, the message's channel is one
    of them, and then the test on the tags. *)
Definition group_check {A : Type} (s : gset string) (msg : ChatMessage)
    (test : A) (otherwise : A) : A :=
  if nonempty s then
    if mem (channel msg) s then test else otherwise
  else otherwise.

Definition has_badge (name : string) (msg : ChatMessage) : bool :=
  PyStr.contains name (tags_get msg "badges" "").

Definition flag_set (name : string) (msg : ChatMessage) : bool :=
  negb (String.eqb (tags_get msg name "0") "0").

Definition is_broadcaster (self : UserList) (msg : ChatMessage) : bool :=
  group_check (broadcaster (special_groups self)) msg
    (has_badge "broadcaster" msg) false.

Definition is_mod (self : UserList) (msg : ChatMessage) : bool :=
  group_check (mods (special_groups self)) msg (flag_set "mod" msg) false.

Definition is_vip (self : UserList) (msg : ChatMessage) : bool :=
  group_check (vips (special_groups self)) msg (has_badge "vip" msg) false.

Definition is_subscribed (self : UserList) (msg : ChatMessage) : bool :=
  group_check (subs (special_groups self)) msg
    (flag_set "subscriber" msg) false.

(** The loop of the three tier checks: the first [subscriber/<code>] badge
    decides, by [int(int(code) / 1000) == tier].  The quotient is written
    with [Z.quot] (truncation towards zero, as [int()] of the float
    quotient does); a code too large for a float is not covered. *)
Fixpoint tier_scan (tier : Z) (badges : list string) : pyresult bool :=
  match badges with
  | [] => Return false
  | badge :: rest =>
      let badge_split := PyStr.split "/" badge in
      first ← PyStr.index badge_split 0;
      if String.eqb first "subscriber" then
        code ← PyStr.index badge_split 1;
        n ← PyStr.int code;
        Return (Z.quot n 1000 =? tier)
      else tier_scan tier rest
  end.

Definition tier_check (s : gset string) (tier : Z) (msg : ChatMessage)
  : pyresult bool :=
  group_check s msg
    (if flag_set "subscriber" msg
     then tier_scan tier (PyStr.split "," (tags_get msg "badges" ""))
     else Return false)
    (Return false).

Definition is_tier3sub (self : UserList) (msg : ChatMessage) : pyresult bool :=
  tier_check (tier3subs (special_groups self)) 3 msg.

Definition is_tier2sub (self : UserList) (msg : ChatMessage) : pyresult bool :=
  tier_check (tier2subs (special_groups self)) 2 msg.

Definition is_tier1sub (self : UserList) (msg : ChatMessage) : pyresult bool :=
  tier_check (tier1subs (special_groups self)) 0 msg.

Definition is_partner (self : UserList) (msg : ChatMessage) : bool :=
  group_check (partners (special_groups self)) msg
    (has_badge "partner" msg) false.

Definition is_founder (self : UserList) (msg : ChatMessage) : bool :=
  group_check (founders (special_groups self)) msg
    (has_badge "founder" msg) false.

Definition is_staff (self : UserList) (msg : ChatMessage) : bool :=
  group_check (staff (special_groups self)) msg
    (has_badge "staff" msg || has_badge "admin" msg) false.

Definition is_prime (self : UserList) (msg : ChatMessage) : bool :=
  group_check (prime (special_groups self)) msg
    (has_badge "premium" msg) false.

Definition is_turbo (self : UserList) (msg : ChatMessage) : bool :=
  group_check (turbo (special_groups self)) msg
    (has_badge "turbo" msg) false.

Definition is_user (self : UserList) (msg : ChatMessage) : bool :=
  if nonempty (users (special_groups self))
  then mem (channel msg) (users (special_groups self))
  else false.

(** [self.subgroup_checks], in order. *)
Definition subgroup_checks (self : UserList)
  : list (ChatMessage -> pyresult bool) :=
  [ fun msg => Return (is_broadcaster self msg);
    fun msg => Return (is_mod self msg);
    fun msg => Return (is_vip self msg);
    fun msg => Return (is_subscribed self msg);
    is_tier3sub self;
    is_tier2sub self;
    is_tier1sub self;
    fun msg => Return (is_partner self msg);
    fun msg => Return (is_founder self msg);
    fun msg => Return (is_staff self msg);
    fun msg => Return (is_prime self msg);
    fun msg => Return (is_turbo self msg);
    fun msg => Return (is_user self msg) ].

(** [any(check(msg) for check in checks)]: stops at the first [True]; an
    exception in a check that is reached propagates. *)
Fixpoint any_check (checks : list (ChatMessage -> pyresult bool))
    (msg : ChatMessage) : pyresult bool :=
  match checks with
  | [] => Return false
  | check :: rest =>
      b ← check msg;
      if b : bool then Return true else any_check rest msg
  end.

Definition is_in_any_subgroup (self : UserList) (msg : ChatMessage)
  : pyresult bool :=
  any_check (subgroup_checks self) msg.

Definition remember (self : UserList) (u : string) (included : bool)
  : UserList :=
  set_known
    (if included then set_included self ({[u]} ∪ included_users self)
     else self)
    ({[u]} ∪ known_users self).

(** [message_in_list(msg)] *)
Definition message_in_list (self : UserList) (msg : ChatMessage)
  : pyresult bool * UserList :=
  if cache_users self && mem (user msg) (known_users self)
  then (Return (mem (user msg) (included_users self)), self)
  else if mem (user msg) (fixed_users self)
  then (Return true, remember self (user msg) true)
  else match is_in_any_subgroup self msg with
       | Raise e => (Raise e, self)
       | Return true => (Return true, remember self (user msg) true)
       | Return false => (Return false, remember self (user msg) false)
       end.

(** [user_in_list(user)]: [None] when the status is unknown. *)
Definition user_in_list (self : UserList) (u : string)
  : option bool * UserList :=
  if cache_users self && mem u (known_users self)
  then (Some (mem u (included_users self)), self)
  else if mem u (fixed_users self)
  then (Some true, remember self u true)
  else (None, self).

(** [UserListDict]: the snapshot form.  A missing key reads as empty. *)
Record UserListDict : Type := {
  dict_users : list string;
  dict_groups : list (string * list string);
}.

(** [export_dict()] *)
Definition export_dict (self : UserList) : UserListDict :=
  let g := special_groups self in
  {| dict_users := elements (fixed_users self);
     dict_groups :=
       [ ("$broadcaster", elements (broadcaster g));
         ("$mods", elements (mods g));
         ("$vips", elements (vips g));
         ("$subs", elements (subs g));
         ("$tier3subs", elements (tier3subs g));
         ("$tier2subs", elements (tier2subs g));
         ("$tier1subs", elements (tier1subs g));
         ("$partners", elements (partners g));
         ("$founders", elements (founders g));
         ("$staff", elements (staff g));
         ("$prime", elements (prime g));
         ("$turbo", elements (turbo g));
         ("$users", elements (users g)) ] |}.

(** The group loop of [import_dict]: an unknown group name raises
    [KeyError] at its turn, the groups before it stay imported. *)
Fixpoint import_groups (g : SpecialGroupsContainer)
    (groups : list (string * list string))
  : pyresult unit * SpecialGroupsContainer :=
  match groups with
  | [] => (Return tt, g)
  | (group_name, channel_list) :: rest =>
      match mapping_update g group_name
              (fun s => foldl (fun acc chan => {[chan]} ∪ acc) s channel_list)
      with
      | Return g' => import_groups g' rest
      | Raise e => (Raise e, g)
      end
  end.

(** [import_dict(ul_dict)] *)
Definition import_dict (self : UserList) (ul_dict : UserListDict)
  : pyresult unit * UserList :=
  let self1 :=
    set_fixed self
      (foldl (fun acc u => {[u]} ∪ acc) (fixed_users self)
             (dict_users ul_dict)) in
  match import_groups (special_groups self1) (dict_groups ul_dict) with
  | (Return _, g) => (Return tt, set_known (set_groups self1 g) ∅)
  | (Raise e, g) => (Raise e, set_groups self1 g)
  end.

End Userlist.

(* ================================================================== *)
(** ** [actionsets/actionset.py] and
       [actionsets/subclasses/base_multikey.py] *)
(* ================================================================== *)
Module BaseMultikey.
Import Chatmsg.

(** [VerbParamDict]: one timed sub-action of a verb (times in ms). *)
Module VerbParam.
Record VerbParamDict : Type := {
  key : string;
  delay : Z;
  duration : Z;
  min_time : Z;
  max_time : Z;
  input_type : Z;
}.
End VerbParam.
Abbreviation VerbParamDict := VerbParam.VerbParamDict.

(** [FuncArgsDict]: the keyword arguments of one key press. *)
Module FuncArgs.
Record FuncArgsDict : Type := {
  key : string;
  delay : Z;
  duration : Z;
}.
End FuncArgs.
Abbreviation FuncArgsDict := FuncArgs.FuncArgsDict.

(** [create_verb_params] with its defaults written out by the caller. *)
Definition create_verb_params (key : string)
    (duration delay min_time max_time input_type : Z) : VerbParamDict :=
  {| VerbParam.key := key; VerbParam.delay := delay;
     VerbParam.duration := duration; VerbParam.min_time := min_time;
     VerbParam.max_time := max_time; VerbParam.input_type := input_type |}.

(** The callable objects that translation produces and the input server
    executes: [partial(handler.press_multiple_Keys, player_index,
    args_list)], [partial(typewrite, text)], [partial(print, text)] and
    [partial(sleep, seconds)] (the duration kept in milliseconds). *)
Inductive InputHandler : Type :=
| BasicKeyboardHandler
| DelayedKeyboardHandler
| BasicGamepadHandler
| DelayedGamepadHandler.

Inductive partial : Type :=
| press_multiple_Keys (handler : InputHandler) (player_index : Z)
                      (args_list : list FuncArgsDict)
| typewrite (text : string)
| print (text : string)
| sleep (milliseconds : Z).

(** [class MultiKey_BaseActionset(Actionset)].  The method
    [translate_verb_parameters_to_key] is left to the subclasses, so it is
    a field; the two implementations of the package follow below. *)
Record MultiKey_BaseActionset : Type := {
  input_handler : InputHandler;
  action_prefix : string;
  player_index : Z;
  verb_dict : gmap string (list VerbParamDict);
  macro_dict : gmap string (list VerbParamDict);
  translate_verb_parameters_to_key :
    VerbParamDict -> pyresult (option string);
}.

(** [Keyboard_Actionset.translate_verb_parameters_to_key]:
    [key_dict[key][player_index]], [None] on a [KeyError]. *)
Definition Keyboard_translate_verb_parameters_to_key
    (key_dict : gmap string (list string)) (player_index : Z)
    (verb_parameters : VerbParamDict) : pyresult (option string) :=
  match key_dict !! VerbParam.key verb_parameters with
  | None => Return None
  | Some key_tuple => k ← PyStr.index key_tuple player_index; Return (Some k)
  end.

(** [Gamepad_Actionset.translate_verb_parameters_to_key]:
    [key_dict.get(key)]. *)
Definition Gamepad_translate_verb_parameters_to_key
    (key_dict : gmap string string)
    (verb_parameters : VerbParamDict) : pyresult (option string) :=
  Return (key_dict !! VerbParam.key verb_parameters).

(** [Actionset.message_is_command] *)
Definition message_is_command (self : MultiKey_BaseActionset)
    (msg : ChatMessage) : bool :=
  PyStr.startswith (message msg) (action_prefix self).

(** The exceptions that the [except] clause of the translation loop
    catches. *)
Definition caught (e : exn) : bool :=
  match e with
  | IndexError | TypeError | AttributeError | KeyError => true
  | ValueError | NotImplementedError => false
  end.

(** [int(text) if text else 0] *)
Definition int_or_zero (text : string) : pyresult Z :=
  if String.eqb text "" then Return 0 else PyStr.int text.

(** The body of [for verb_param in verb_param_list] for one entry, once
    the key is known. *)
Definition function_args_of (key : string) (param_delay param_duration
    inherent_duration : Z) (verb_param : VerbParamDict) : FuncArgsDict :=
  let min_time := VerbParam.min_time verb_param in
  let max_time := VerbParam.max_time verb_param in
  let inherent_delay := VerbParam.delay verb_param in
  let delay := HelpersNative.clamp 0 (param_delay + inherent_delay) max_time in
  let duration :=
    if VerbParam.input_type verb_param =? Constants.PRESS_KEY then
      if negb (param_duration =? 0) then
        let duration_offset :=
          VerbParam.duration verb_param - inherent_duration in
        HelpersNative.clamp min_time (param_duration + duration_offset)
                            (max_time - delay)
      else
        let default_duration := VerbParam.duration verb_param in
        HelpersNative.clamp min_time default_duration (max_time - delay)
    else VerbParam.input_type verb_param in
  {| FuncArgs.key := key; FuncArgs.delay := delay;
     FuncArgs.duration := duration |}.

(** [for verb_param in verb_param_list]: the entries appended to
    [args_list], and the exception that ended the loop early, if any (a
    missing key raises [TypeError]). *)
Fixpoint translate_verb_param_list (self : MultiKey_BaseActionset)
    (param_delay param_duration inherent_duration : Z)
    (verb_param_list : list VerbParamDict)
  : list FuncArgsDict * option exn :=
  match verb_param_list with
  | [] => ([], None)
  | verb_param :: rest =>
      match translate_verb_parameters_to_key self verb_param with
      | Raise e => ([], Some e)
      | Return None => ([], Some TypeError)
      | Return (Some key) =>
          let function_args :=
            function_args_of key param_delay param_duration
                             inherent_duration verb_param in
          let '(more, stop) :=
            translate_verb_param_list self param_delay param_duration
                                      inherent_duration rest in
          (function_args :: more, stop)
      end
  end.

(** [self.verb_dict.get(verb, self.macro_dict.get(verb, None))] *)
Definition lookup_verb (self : MultiKey_BaseActionset) (verb : string)
  : option (list VerbParamDict) :=
  match verb_dict self !! verb with
  | Some l => Some l
  | None => macro_dict self !! verb
  end.

(** The [try] block for one verb with its parsed parameters. *)
Definition translate_verb (self : MultiKey_BaseActionset) (verb : string)
    (param_delay param_duration : Z) : list FuncArgsDict * option exn :=
  match lookup_verb self verb with
  | None => ([], None)
  | Some verb_param_list =>
      match verb_param_list with
      | [] => ([], Some IndexError)
      | first :: _ =>
          translate_verb_param_list self param_delay param_duration
            (VerbParam.duration first) verb_param_list
      end
  end.

(** [for regex_result in VERB_DELAY_DURATION_REGEX.findall(...)]: the
    loop over the matches, [args_list] being the list built so far. *)
Fixpoint translate_regex_results (self : MultiKey_BaseActionset)
    (results : list Re.captures) (args_list : list FuncArgsDict)
  : pyresult (list FuncArgsDict) :=
  match results with
  | [] => Return args_list
  | regex_result :: rest =>
      let verb := Re.group regex_result 1 in
      param_delay ← int_or_zero (Re.group regex_result 2);
      param_duration ← int_or_zero (Re.group regex_result 3);
      let '(new, stop) := translate_verb self verb param_delay param_duration in
      match stop with
      | None => translate_regex_results self rest (args_list ++ new)
      | Some e =>
          if caught e
          then translate_regex_results self rest (args_list ++ new)
          else Raise e
      end
  end.

(** [translate_message_contents_to_args_list(message)] *)
Definition translate_message_contents_to_args_list
    (self : MultiKey_BaseActionset) (message : string)
  : pyresult (list FuncArgsDict) :=
  translate_regex_results self
    (Re.findall Constants.VERB_DELAY_DURATION_REGEX (PyStr.lower message)) [].

(** [build_partial(message)] *)
Definition build_partial (self : MultiKey_BaseActionset) (message : string)
  : pyresult (option partial) :=
  args_list ← translate_message_contents_to_args_list self message;
  if (length args_list =? 0)%nat then Return None
  else Return (Some (press_multiple_Keys (input_handler self)
                                        (player_index self) args_list)).

(** [translate_user_message_to_action(msg)] *)
Definition translate_user_message_to_action (self : MultiKey_BaseActionset)
    (msg : ChatMessage) : pyresult (option partial) :=
  if message_is_command self msg then build_partial self (message msg)
  else Return None.

End BaseMultikey.

(* ================================================================== *)
(** ** [teams/team.py], [teams/subclasses/*.py], [teams/functions.py]
       and the registries of [_shared/global_data.py] *)
(* ================================================================== *)
Module Teams.
Import Chatmsg Enums.
Export BaseMultikey(partial, press_multiple_Keys, typewrite, print, sleep).

(** *** The actionset a team owns ([AbstractActionset]) *)

Inductive Actionset : Type :=
| MultiKey (a : BaseMultikey.MultiKey_BaseActionset)
| Typewrite_Actionset (action_prefix : string)
| Default_Actionset (action_prefix : string)
| None_Actionset (action_prefix : string).

Definition action_prefix (a : Actionset) : string :=
  match a with
  | MultiKey m => BaseMultikey.action_prefix m
  | Typewrite_Actionset p | Default_Actionset p | None_Actionset p => p
  end.

(** [Actionset.message_is_command]: no subclass overrides it. *)
Definition message_is_command (a : Actionset) (msg : ChatMessage) : bool :=
  PyStr.startswith (message msg) (action_prefix a).

(** [translate_user_message_to_action], per actionset class. *)
Definition translate_user_message_to_action (a : Actionset)
    (msg : ChatMessage) : pyresult (option partial) :=
  match a with
  | MultiKey m => BaseMultikey.translate_user_message_to_action m msg
  | Typewrite_Actionset p =>
      if message_is_command a msg
      then Return (Some (typewrite
             (PyStr.lower (PyStr.drop (String.length p) (message msg)))))
      else Return None
  | Default_Actionset p =>
      if message_is_command a msg
      then Return (Some (print
             ("ACTION " +:+ PyStr.drop (String.length p) (message msg))))
      else Return None
  | None_Actionset _ => Return None
  end.

(** [EMPTY_QUEUE_SLEEP_DURATION = 0.01] seconds. *)
Definition EMPTY_QUEUE_SLEEP_DURATION : Z := 10.

(** The delayed variant of a handler, which the keyboard and gamepad
    actionsets put in place of the basic one for random actions. *)
Definition delayed_variant (h : BaseMultikey.InputHandler)
  : BaseMultikey.InputHandler :=
  match h with
  | BaseMultikey.BasicKeyboardHandler | BaseMultikey.DelayedKeyboardHandler =>
      BaseMultikey.DelayedKeyboardHandler
  | BaseMultikey.BasicGamepadHandler | BaseMultikey.DelayedGamepadHandler =>
      BaseMultikey.DelayedGamepadHandler
  end.

(** [random_action()]: the base class sleeps 0.1 s; a keyboard or gamepad
    actionset builds the command drawn by [random.choices]
    ([random_command], the outcome of the draw), raises [ValueError] when
    it translates to nothing, and hands the result to the delayed handler. *)
Definition random_action (a : Actionset) (random_command : string)
  : pyresult partial :=
  match a with
  | MultiKey m =>
      f ← BaseMultikey.build_partial m random_command;
      match f with
      | Some (press_multiple_Keys h player_index args_list) =>
          Return (press_multiple_Keys (delayed_variant h) player_index
                                      args_list)
      | Some partial_function => Return partial_function
      | None => Raise ValueError
      end
  | _ => Return (sleep 100)
  end.

(** *** Teams *)

(** The team classes of [teams/subclasses]. *)
Inductive TeamClass : Type :=
| Default_Team
| None_Team
| Whitelist_Team
| Balancing_Team
| NameRegex_Team (regex : Re.regex)
| PredictionBlue_Team
| PredictionPink_Team
| PredictionNone_Team
| PredictionNumber_Team (number : Z)
| RandomOnly_Team.

Definition is_Balancing_Team (c : TeamClass) : bool :=
  match c with Balancing_Team => true | _ => false end.

Definition is_RandomOnly_Team (c : TeamClass) : bool :=
  match c with RandomOnly_Team => true | _ => false end.

(** [AbstractMessageSender], as far as [clear_team_members] reads it. *)
Record MessageSender : Type := { channel_set : gset string }.

(** [class Team].  [classes] is the chain of subclasses in method
    resolution order: empty for the base class, one class for a plain
    team, several for a class made by [create_combined_team_class].
    [queue_length] is the [maxlen] of both deques; the locks and threads
    have no field. *)
Record Team : Type := {
  classes : list TeamClass;
  name : string;
  channels : gset string;
  actionset : Actionset;
  hidden : bool;
  queue_length : nat;
  use_random_inputs : bool;
  joinable : bool;
  leavable : bool;
  exclusive : bool;
  spam_protection : bool;
  user_whitelist : Userlist.UserList;
  user_blacklist : Userlist.UserList;
  members : gset string;
  keep_running : bool;
  bot : option MessageSender;
  message_queue : list ChatMessage;
  action_queue : list (ChatMessage * partial);
}.

Definition set_members (self : Team) (m : gset string) : Team :=
  {| classes := classes self; name := name self; channels := channels self;
     actionset := actionset self; hidden := hidden self;
     queue_length := queue_length self;
     use_random_inputs := use_random_inputs self;
     joinable := joinable self; leavable := leavable self;
     exclusive := exclusive self; spam_protection := spam_protection self;
     user_whitelist := user_whitelist self;
     user_blacklist := user_blacklist self;
     members := m; keep_running := keep_running self; bot := bot self;
     message_queue := message_queue self;
     action_queue := action_queue self |}.

Definition set_user_whitelist (self : Team) (l : Userlist.UserList) : Team :=
  {| classes := classes self; name := name self; channels := channels self;
     actionset := actionset self; hidden := hidden self;
     queue_length := queue_length self;
     use_random_inputs := use_random_inputs self;
     joinable := joinable self; leavable := leavable self;
     exclusive := exclusive self; spam_protection := spam_protection self;
     user_whitelist := l;
     user_blacklist := user_blacklist self;
     members := members self; keep_running := keep_running self;
     bot := bot self; message_queue := message_queue self;
     action_queue := action_queue self |}.

Definition set_user_blacklist (self : Team) (l : Userlist.UserList) : Team :=
  {| classes := classes self; name := name self; channels := channels self;
     actionset := actionset self; hidden := hidden self;
     queue_length := queue_length self;
     use_random_inputs := use_random_inputs self;
     joinable := joinable self; leavable := leavable self;
     exclusive := exclusive self; spam_protection := spam_protection self;
     user_whitelist := user_whitelist self;
     user_blacklist := l;
     members := members self; keep_running := keep_running self;
     bot := bot self; message_queue := message_queue self;
     action_queue := action_queue self |}.

Definition set_keep_running (self : Team) (b : bool) : Team :=
  {| classes := classes self; name := name self; channels := channels self;
     actionset := actionset self; hidden := hidden self;
     queue_length := queue_length self;
     use_random_inputs := use_random_inputs self;
     joinable := joinable self; leavable := leavable self;
     exclusive := exclusive self; spam_protection := spam_protection self;
     user_whitelist := user_whitelist self;
     user_blacklist := user_blacklist self;
     members := members self; keep_running := b; bot := bot self;
     message_queue := message_queue self;
     action_queue := action_queue self |}.

Definition set_message_queue (self : Team) (q : list ChatMessage) : Team :=
  {| classes := classes self; name := name self; channels := channels self;
     actionset := actionset self; hidden := hidden self;
     queue_length := queue_length self;
     use_random_inputs := use_random_inputs self;
     joinable := joinable self; leavable := leavable self;
     exclusive := exclusive self; spam_protection := spam_protection self;
     user_whitelist := user_whitelist self;
     user_blacklist := user_blacklist self;
     members := members self; keep_running := keep_running self;
     bot := bot self; message_queue := q;
     action_queue := action_queue self |}.

Definition set_action_queue (self : Team)
    (q : list (ChatMessage * partial)) : Team :=
  {| classes := classes self; name := name self; channels := channels self;
     actionset := actionset self; hidden := hidden self;
     queue_length := queue_length self;
     use_random_inputs := use_random_inputs self;
     joinable := joinable self; leavable := leavable self;
     exclusive := exclusive self; spam_protection := spam_protection self;
     user_whitelist := user_whitelist self;
     user_blacklist := user_blacklist self;
     members := members self; keep_running := keep_running self;
     bot := bot self; message_queue := message_queue self;
     action_queue := q |}.

(** [deque(maxlen=n).append(x)]: append on the right, then drop the
    leftmost item if the deque has grown beyond [maxlen]. *)
Definition deque_append {A : Type} (maxlen : nat) (q : list A) (x : A)
  : list A :=
  let q' := q ++ [x] in
  if (maxlen <? length q')%nat then tail q' else q'.

(** [deque.pop()]: the rightmost item and the rest; [None] stands for the
    [IndexError] of an empty deque. *)
Definition deque_pop {A : Type} (q : list A) : option (A * list A) :=
  match reverse q with
  | [] => None
  | x :: rest => Some (x, reverse rest)
  end.

(** *** [class GlobalData]

    [Teams] is [GlobalData.Teams._all_teams_dict] in insertion order (the
    order of registration; names are unique).  A reference to a team
    object is its index in [Teams]: teams are registered once at start-up
    and never removed, and [is] on team objects is equality of indices.
    [Users] is [GlobalData.Users._all_users_dict]. *)
Record GlobalData : Type := {
  Teams : list Team;
  Users : gmap string nat;
  action_prefixes : gset string;
  state_accept_input : bool;
  state_random_action : bool;
}.

Definition set_Teams (g : GlobalData) (ts : list Team) : GlobalData :=
  {| Teams := ts; Users := Users g; action_prefixes := action_prefixes g;
     state_accept_input := state_accept_input g;
     state_random_action := state_random_action g |}.

Definition set_Users (g : GlobalData) (us : gmap string nat) : GlobalData :=
  {| Teams := Teams g; Users := us; action_prefixes := action_prefixes g;
     state_accept_input := state_accept_input g;
     state_random_action := state_random_action g |}.

(** Store the new state of the team object [i]. *)
Definition update_team (g : GlobalData) (i : nat) (t : Team) : GlobalData :=
  set_Teams g (<[i := t]> (Teams g)).

(** [GlobalData.Users.get_team(user)] *)
Definition Users_get_team (g : GlobalData) (u : string) : option nat :=
  Users g !! u.

(** [GlobalData.Users.add(user, team)] *)
Definition Users_add (g : GlobalData) (u : string) (team : nat)
  : GlobalData :=
  set_Users g (<[u := team]> (Users g)).

(** [GlobalData.Users.discard(user)] *)
Definition Users_discard (g : GlobalData) (u : string) : GlobalData :=
  set_Users g (delete u (Users g)).

(** [GlobalData.Prefix.Action.message_is_action(msg)] *)
Definition message_is_action (g : GlobalData) (msg : ChatMessage) : bool :=
  existsb (fun prefix => PyStr.startswith (message msg) prefix)
          (elements (action_prefixes g)).

(** Computations on the global state that may raise: the state reached
    comes with the result, also when the result is an exception. *)
Definition M (A : Type) : Type := GlobalData -> pyresult A * GlobalData.

#[global] Instance M_ret : MRet M := fun _ a g => (Return a, g).
#[global] Instance M_bind : MBind M := fun _ _ f m g =>
  match m g with
  | (Return a, g') => f a g'
  | (Raise e, g') => (Raise e, g')
  end.

Definition get : M GlobalData := fun g => (Return g, g).
Definition modify (f : GlobalData -> GlobalData) : M unit :=
  fun g => (Return tt, f g).
Definition lift {A : Type} (r : pyresult A) : M A := fun g => (r, g).

(** The team object behind a reference.  No method is ever called through
    a reference to a team that does not exist; the model answers such a
    call with [IndexError] and leaves the state alone. *)
Definition team_at (i : nat) : M Team := fun g =>
  match Teams g !! i with
  | Some t => (Return t, g)
  | None => (Raise IndexError, g)
  end.

(** [msg in self.user_blacklist] and [msg in self.user_whitelist] for the
    team [i]: [UserList.message_in_list], which updates the list's cache. *)
Definition in_user_blacklist (i : nat) (msg : ChatMessage) : M bool :=
  self ← team_at i;
  let '(r, l) := Userlist.message_in_list (user_blacklist self) msg in
  modify (fun g => update_team g i (set_user_blacklist self l));;
  lift r.

Definition in_user_whitelist (i : nat) (msg : ChatMessage) : M bool :=
  self ← team_at i;
  let '(r, l) := Userlist.message_in_list (user_whitelist self) msg in
  modify (fun g => update_team g i (set_user_whitelist self l));;
  lift r.

(** [self.members.discard(user); GlobalData.Users.discard(user)] *)
Definition evict (i : nat) (u : string) : M unit :=
  self ← team_at i;
  modify (fun g =>
    Users_discard (update_team g i (set_members self (members self ∖ {[u]}))) u).

(** [if msg.user in self.members:] evict, the "kick out any illegitimate
    members" step of every exclusion rule that has it. *)
Definition kick_out_if_member (i : nat) (msg : ChatMessage) : M unit :=
  self ← team_at i;
  if Userlist.mem (user msg) (members self) then evict i (user msg)
  else mret tt.

(** [Team.add_message(msg)] *)
Definition add_message (i : nat) (msg : ChatMessage) : M unit :=
  self ← team_at i;
  (* with self.message_queue_lock: *)
  if spam_protection self &&
     existsb (fun existing_message =>
                String.eqb (user msg) (user existing_message) &&
                String.eqb (message msg) (message existing_message))
             (message_queue self)
  then mret tt (* return: the message is not added *)
  else
    let self1 :=
      set_message_queue self
        (deque_append (queue_length self) (message_queue self) msg) in
    modify (fun g => update_team g i self1);;
    if exclusive self && negb (Userlist.mem (user msg) (members self))
    then
      modify (fun g =>
        Users_add
          (update_team g i (set_members self1 ({[user msg]} ∪ members self1)))
          (user msg) i)
    else mret tt.

(** [Team._belongs_to_team(msg)], the base of the chain. *)
Definition Team__belongs_to_team (i : nat) (msg : ChatMessage)
  : M Quadstate :=
  self ← team_at i;
  if Userlist.mem (user msg) (members self)
  then mret AbsolutelyTrue
  else
    whitelisted ← in_user_whitelist i msg;
    if whitelisted : bool then mret AbsolutelyTrue else mret MaybeFalse.

(** [str(self.number)] *)
Definition str_of_int (n : Z) : string :=
  DecimalString.NilZero.string_of_int (Z.to_int n).

(** The inclusion rule that a class adds after its parent gave an
    uncertain answer; [None] for a class that does not override
    [_belongs_to_team]. *)
Definition own_belongs_rule (c : TeamClass) (i : nat) (msg : ChatMessage)
  : option (M Quadstate) :=
  match c with
  | Default_Team => Some (mret MaybeTrue)
  | None_Team => Some (mret AbsolutelyFalse)
  | Balancing_Team => Some (
      self ← team_at i;
      g ← get;
      if existsb (fun team =>
                    existsb is_Balancing_Team (classes team) &&
                    negb (hidden team) &&
                    (size (members team) <? size (members self))%nat)
                 (Teams g)
      then mret AbsolutelyFalse
      else mret MaybeTrue)
  | NameRegex_Team regex => Some (
      match Re.fullmatch regex (user msg) with
      | Some _ => mret MaybeTrue
      | None => mret AbsolutelyFalse
      end)
  | PredictionBlue_Team => Some (
      badges ← lift (tags_item msg "badges");
      if PyStr.contains "predictions/blue" badges then mret MaybeTrue
      else mret AbsolutelyFalse)
  | PredictionPink_Team => Some (
      badges ← lift (tags_item msg "badges");
      if PyStr.contains "predictions/pink" badges then mret MaybeTrue
      else mret AbsolutelyFalse)
  | PredictionNone_Team => Some (
      badges ← lift (tags_item msg "badges");
      if negb (PyStr.contains "predictions/" badges) then mret MaybeTrue
      else mret AbsolutelyFalse)
  | PredictionNumber_Team number => Some (
      badges ← lift (tags_item msg "badges");
      if PyStr.contains "predictions/" badges then
        match Re.match_ Constants.PREDICTION_NUMBER_REGEX badges with
        | Some mo =>
            if String.eqb (Re.group mo 1) (str_of_int number)
            then mret MaybeTrue else mret AbsolutelyFalse
        | None => mret AbsolutelyFalse
        end
      else mret AbsolutelyFalse)
  | Whitelist_Team | RandomOnly_Team => None
  end.

(** [_belongs_to_team] along the chain of classes: each class first asks
    [super()] and returns a certain answer unchanged. *)
Fixpoint _belongs_to_team_chain (cs : list TeamClass) (i : nat)
    (msg : ChatMessage) : M Quadstate :=
  match cs with
  | [] => Team__belongs_to_team i msg
  | c :: rest =>
      match own_belongs_rule c i msg with
      | None => _belongs_to_team_chain rest i msg
      | Some rule =>
          super_result ← _belongs_to_team_chain rest i msg;
          if is_certain super_result then mret super_result else rule
      end
  end.

Definition _belongs_to_team (i : nat) (msg : ChatMessage) : M Quadstate :=
  self ← team_at i;
  _belongs_to_team_chain (classes self) i msg.

(** [Team.belongs_to_team(msg)] *)
Definition belongs_to_team (i : nat) (msg : ChatMessage) : M bool :=
  q ← _belongs_to_team i msg;
  mret (__bool__ q).

(** [Team.blocked_from_team(msg)], the base of the chain. *)
Definition Team_blocked_from_team (i : nat) (msg : ChatMessage) : M bool :=
  self ← team_at i;
  blacklisted ← in_user_blacklist i msg;
  g ← get;
  if (blacklisted : bool)
     || (exclusive self &&
         match Users_get_team g (user msg) with
         | Some other_team => negb (other_team =? i)%nat
         | None => false
         end)
  then kick_out_if_member i msg;; mret true
  else mret false.

(** The exclusion rule that a class adds after its parent did not block;
    [None] for a class that does not override [blocked_from_team]. *)
Definition own_blocked_rule (c : TeamClass) (i : nat) (msg : ChatMessage)
  : option (M bool) :=
  match c with
  | Whitelist_Team => Some (
      self ← team_at i;
      if Userlist.mem (user msg) (members self) then mret false
      else
        whitelisted ← in_user_whitelist i msg;
        mret (negb whitelisted))
  | PredictionBlue_Team => Some (
      badges ← lift (tags_item msg "badges");
      if PyStr.contains "predictions/pink" badges
      then kick_out_if_member i msg;; mret true
      else mret false)
  | PredictionPink_Team => Some (
      badges ← lift (tags_item msg "badges");
      if PyStr.contains "predictions/blue" badges
      then kick_out_if_member i msg;; mret true
      else mret false)
  | PredictionNone_Team => Some (
      badges ← lift (tags_item msg "badges");
      if PyStr.contains "predictions/blue" badges
         || PyStr.contains "predictions/pink" badges
      then kick_out_if_member i msg;; mret true
      else mret false)
  | PredictionNumber_Team number => Some (
      badges ← lift (tags_item msg "badges");
      if PyStr.contains "predictions/" badges then
        match Re.match_ Constants.PREDICTION_NUMBER_REGEX badges with
        | Some mo =>
            if negb (String.eqb (Re.group mo 1) (str_of_int number))
            then kick_out_if_member i msg;; mret true
            else mret false
        | None => mret false
        end
      else mret false)
  | Default_Team | None_Team | Balancing_Team | NameRegex_Team _
  | RandomOnly_Team => None
  end.

(** [blocked_from_team] along the chain of classes: each class first asks
    [super()] and stops when the parent blocks. *)
Fixpoint blocked_from_team_chain (cs : list TeamClass) (i : nat)
    (msg : ChatMessage) : M bool :=
  match cs with
  | [] => Team_blocked_from_team i msg
  | c :: rest =>
      match own_blocked_rule c i msg with
      | None => blocked_from_team_chain rest i msg
      | Some rule =>
          blocked ← blocked_from_team_chain rest i msg;
          if blocked : bool then mret true else rule
      end
  end.

(** [team.blocked_from_team(msg)] *)
Definition blocked_from_team (i : nat) (msg : ChatMessage) : M bool :=
  self ← team_at i;
  blocked_from_team_chain (classes self) i msg.

(** [Team.join_team(user)] *)
Definition join_team (i : nat) (u : string) : M bool :=
  self ← team_at i;
  if joinable self && exclusive self then
    modify (fun g =>
      Users_add (update_team g i (set_members self ({[u]} ∪ members self)))
                u i);;
    mret true
  else mret false.

(** [Team.leave_team(user)]: [members.remove] raises [KeyError] for a user
    who is no member, which the method turns into [False]. *)
Definition leave_team (i : nat) (u : string) : M bool :=
  self ← team_at i;
  if leavable self then
    if Userlist.mem u (members self) then
      modify (fun g =>
        Users_discard
          (update_team g i (set_members self (members self ∖ {[u]}))) u);;
      mret true
    else mret false
  else mret false.

(** [chat/commands.py], the execution step of [cmd_addBlacklist]:
    [team.user_blacklist.add_to_list(user_or_group)]. *)
Definition cmd_addBlacklist (team : nat) (user_or_group : string) : M unit :=
  self ← team_at team;
  let '(r, l) := Userlist.add_to_list (user_blacklist self) user_or_group ∅ in
  modify (fun g => update_team g team (set_user_blacklist self l));;
  lift r.

(** *** [teams/functions.py] *)

(** [clear_team_members()]: empties every members set; the registry
    [GlobalData.Users] is not touched.  The announcement on the bot's
    channels is chat output and leaves no trace in the state; a first team
    without bot reference raises [ValueError] after the sets are cleared. *)
Definition clear_team_members : M bool :=
  g ← get;
  let had_non_empty_teams :=
    existsb (fun team => (0 <? size (members team))%nat) (Teams g) in
  modify (fun g =>
    set_Teams g
      (map (fun team =>
              if (0 <? size (members team))%nat then set_members team ∅
              else team)
           (Teams g)));;
  if had_non_empty_teams then
    team ← team_at 0;
    match bot team with
    | None => lift (Raise ValueError)
    | Some _ => mret true
    end
  else mret false.

(** [__add_message_to_team(msg, team)].  The entry in the session log
    ([log_action_message]) is not part of the state. *)
Definition __add_message_to_team (msg : ChatMessage) (team : nat) : M bool :=
  self ← team_at team;
  if Userlist.mem (channel msg) (channels self)
     && message_is_command (actionset self) msg
  then
    blocked ← blocked_from_team team msg;
    if blocked : bool then mret false
    else
      belongs ← belongs_to_team team msg;
      if belongs : bool then add_message team msg;; mret true
      else mret false
  else mret false.

(** [for team in GlobalData.Teams.get_all_teams(): ...], the fallback
    loop of the router. *)
Fixpoint look_for_a_fitting_team (msg : ChatMessage) (teams : list nat)
  : M unit :=
  match teams with
  | [] => mret tt
  | team :: rest =>
      added ← __add_message_to_team msg team;
      if added : bool then mret tt else look_for_a_fitting_team msg rest
  end.

(** [GlobalData.Teams.get_all_teams()], as references. *)
Definition get_all_teams (g : GlobalData) : list nat :=
  seq 0 (length (Teams g)).

(** [add_message_to_assigned_team(msg)] *)
Definition add_message_to_assigned_team (msg : ChatMessage) : M unit :=
  g ← get;
  if state_accept_input g && message_is_action g msg then
    match Users_get_team g (user msg) with
    | Some team =>
        added ← __add_message_to_team msg team;
        if added : bool then mret tt
        else look_for_a_fitting_team msg (get_all_teams g)
    | None => look_for_a_fitting_team msg (get_all_teams g)
    end
  else mret tt.

(** *** The two worker steps of a team

    Each step returns, next to the new state of the team, the sequence of
    lock operations and outside calls it performs, in program order. *)

Inductive Lock : Type :=
| message_queue_lock
| action_queue_lock.

Inductive Event : Type :=
| Acquire (l : Lock)               (* entering [with l:] *)
| Release (l : Lock)               (* leaving it, also by return or raise *)
| Translate (msg : ChatMessage)    (* actionset.translate_user_message_to_action(msg) *)
| Execute (func : partial)         (* actionset.input_server.execute(func) *)
| Log (msg : ChatMessage)          (* thread_print and log_executed_message *)
| Sleep (milliseconds : Z).        (* sleep(EMPTY_QUEUE_SLEEP_DURATION) *)

(** [Team._translate_queued_message()].  An [IndexError] inside the [try]
    ends in the [except] branch, any other exception leaves the method. *)
Definition _translate_queued_message (self : Team)
  : pyresult unit * Team * list Event :=
  match deque_pop (message_queue self) with
  | None =>
      (Return tt, self,
       [Acquire message_queue_lock; Release message_queue_lock;
        Sleep EMPTY_QUEUE_SLEEP_DURATION])
  | Some (msg, rest) =>
      let self1 := set_message_queue self rest in
      match translate_user_message_to_action (actionset self) msg with
      | Raise IndexError =>
          (Return tt, self1,
           [Acquire message_queue_lock; Translate msg;
            Release message_queue_lock; Sleep EMPTY_QUEUE_SLEEP_DURATION])
      | Raise e =>
          (Raise e, self1,
           [Acquire message_queue_lock; Translate msg;
            Release message_queue_lock])
      | Return None =>
          (Return tt, self1,
           [Acquire message_queue_lock; Translate msg;
            Release message_queue_lock])
      | Return (Some func) =>
          let self2 :=
            set_action_queue self1
              (deque_append (queue_length self) (action_queue self1)
                            (msg, func)) in
          let self3 := set_message_queue self2 [] in
          (Return tt, self3,
           [Acquire message_queue_lock; Translate msg;
            Acquire action_queue_lock; Release action_queue_lock;
            Release message_queue_lock])
      end
  end.

(** [Team.empty_queue_action()], and its override in [RandomOnly_Team]. *)
Definition empty_queue_action (g : GlobalData) (self : Team)
    (random_command : string) : pyresult partial :=
  if existsb is_RandomOnly_Team (classes self) then
    if state_accept_input g || state_random_action g
    then random_action (actionset self) random_command
    else Return (sleep EMPTY_QUEUE_SLEEP_DURATION)
  else
    if use_random_inputs self && state_random_action g
    then random_action (actionset self) random_command
    else Return (sleep EMPTY_QUEUE_SLEEP_DURATION).

(** [Team._execute_queued_action()].  [random_command] is the draw of a
    random action, should one be asked for; [refused] tells whether the
    input server raises [ConnectionRefusedError]. *)
Definition _execute_queued_action (g : GlobalData) (self : Team)
    (random_command : string) (refused : bool)
  : pyresult unit * Team * list Event :=
  let '(func, self1, trace) :=
    match deque_pop (action_queue self) with
    | Some ((msg, func), _) =>
        (Return func, set_action_queue self [],
         [Acquire action_queue_lock; Log msg; Release action_queue_lock])
    | None =>
        (empty_queue_action g self random_command, self,
         [Acquire action_queue_lock; Release action_queue_lock])
    end in
  match func with
  | Raise e => (Raise e, self1, trace)
  | Return func =>
      (Return tt,
       if refused : bool then set_keep_running self1 false else self1,
       trace ++ [Execute func])
  end.



End Teams.

(* ================================================================== *)
(** ** [actionsets/subclasses/base_multikey.py], continued: the macro
       table and validation; [actionsets/subclasses/gamepad.py]: the verb
       table of a gamepad *)
(* ================================================================== *)
Module Macros.
Import BaseMultikey.

Definition set_macro_table (self : MultiKey_BaseActionset)
    (m : gmap string (list VerbParamDict)) : MultiKey_BaseActionset :=
  {| input_handler := input_handler self;
     action_prefix := action_prefix self;
     player_index := player_index self;
     verb_dict := verb_dict self;
     macro_dict := m;
     translate_verb_parameters_to_key :=
       translate_verb_parameters_to_key self |}.

(** [get_macro_dict()]: the macros whose name does not start with the
    action prefix. *)
Definition get_macro_dict (self : MultiKey_BaseActionset)
  : gmap string (list VerbParamDict) :=
  filter (fun kv => PyStr.startswith kv.1 (action_prefix self) = false)
         (macro_dict self).

(** [set_macro_dict(new_macros)]: a copy of [new_macros], updated with
    every entry once more under its prefixed name.  The prefixed entries
    are computed before the update, and [update] lets them win over an
    entry of the same name. *)
Definition set_macro_dict (self : MultiKey_BaseActionset)
    (new_macros : gmap string (list VerbParamDict)) : MultiKey_BaseActionset :=
  set_macro_table self
    (kmap (fun key => action_prefix self +:+ key) new_macros ∪ new_macros).

(** The outcome of [validate()]: [True], or [ActionsetValidationError]. *)
Inductive validation : Type :=
| ReturnTrue
| ActionsetValidationError.

(** The three tests that [validate] makes on one entry of a verb. *)
Definition verb_param_valid {V : Type} (key_dict : gmap string V)
    (verb_param : VerbParamDict) : bool :=
  bool_decide (is_Some (key_dict !! VerbParam.key verb_param))
  && negb (VerbParam.min_time verb_param >? VerbParam.max_time verb_param)
  && negb (VerbParam.delay verb_param + VerbParam.duration verb_param
           >? VerbParam.max_time verb_param).

(** [MultiKey_BaseActionset.validate()], [key_dict] being the class
    attribute of the subclass.  The method raises at the first entry that
    fails a test; which entry that is shows in the message only. *)
Definition validate {V : Type} (key_dict : gmap string V)
    (self : MultiKey_BaseActionset) : validation :=
  if forallb (fun entry => forallb (verb_param_valid key_dict) entry.2)
             (map_to_list (verb_dict self))
  then ReturnTrue
  else ActionsetValidationError.

(** [Gamepad_Actionset.__init__], the verb table: one key press of 150 ms
    for every key of [key_dict] ([keys], in the order of the dictionary),
    then every entry once more under its prefixed name, in that order.
    The key read in the loop is always present. *)
Definition Gamepad_verb_dict (action_prefix : string) (keys : list string)
  : gmap string (list VerbParamDict) :=
  let verb_dict : gmap string (list VerbParamDict) :=
    list_to_map
      (map (fun k => (k, [create_verb_params k 150 0 1 1000
                                             Constants.PRESS_KEY]))
           keys) in
  foldl (fun verb_dict key =>
           match verb_dict !! key with
           | Some verb_param_list =>
               <[action_prefix +:+ key := verb_param_list]> verb_dict
           | None => verb_dict
           end)
        verb_dict keys.

End Macros.

(* ================================================================== *)
(** ** [_shared/global_data.py], continued: the registry of teams *)
(* ================================================================== *)
Module Registry.
Import Teams.

(** [GlobalData.Teams.get_all_lowercase_names()]: the keys of
    [_all_teams_dict], in insertion order. *)
Definition get_all_lowercase_names (g : GlobalData) : list string :=
  map (fun team => PyStr.lower (name team)) (Teams g).

(** [GlobalData.Teams.add(team)].  [DuplicateTeamNameError] is a subclass
    of [KeyError]. *)
Definition add (team : Team) : M unit := fun g =>
  if existsb (String.eqb (PyStr.lower (name team)))
             (get_all_lowercase_names g)
  then (Raise KeyError, g)
  else (Return tt, set_Teams g (Teams g ++ [team])).

(** [GlobalData.Teams.get_by_name(team_name)], as a reference. *)
Definition get_by_name (g : GlobalData) (team_name : string) : option nat :=
  fst <$> list_find
            (fun team => PyStr.lower (name team) = PyStr.lower team_name)
            (Teams g).

End Registry.

(* ================================================================== *)
(** ** [teams/team.py] and [teams/functions.py], continued: snapshots *)
(* ================================================================== *)
Module Snapshot.
Import Teams.

(** [TeamSnapshotDict].  A missing key reads as empty. *)
Record TeamSnapshotDict : Type := {
  snapshot_members : list string;
  snapshot_whitelist : Userlist.UserListDict;
  snapshot_blacklist : Userlist.UserListDict;
  snapshot_macros : gmap string (list BaseMultikey.VerbParamDict);
}.

(** [actionset.get_macro_dict()]: empty for the classes without macros. *)
Definition get_macro_dict (a : Actionset)
  : gmap string (list BaseMultikey.VerbParamDict) :=
  match a with
  | MultiKey m => Macros.get_macro_dict m
  | Typewrite_Actionset _ | Default_Actionset _ | None_Actionset _ => ∅
  end.

(** [actionset.set_macro_dict(new_macros)]: nothing for the classes
    without macros. *)
Definition set_macro_dict (a : Actionset)
    (new_macros : gmap string (list BaseMultikey.VerbParamDict))
  : Actionset :=
  match a with
  | MultiKey m => MultiKey (Macros.set_macro_dict m new_macros)
  | Typewrite_Actionset _ | Default_Actionset _ | None_Actionset _ => a
  end.

Definition set_actionset (self : Team) (a : Actionset) : Team :=
  {| classes := classes self; name := name self; channels := channels self;
     actionset := a; hidden := hidden self;
     queue_length := queue_length self;
     use_random_inputs := use_random_inputs self;
     joinable := joinable self; leavable := leavable self;
     exclusive := exclusive self; spam_protection := spam_protection self;
     user_whitelist := user_whitelist self;
     user_blacklist := user_blacklist self;
     members := members self; keep_running := keep_running self;
     bot := bot self; message_queue := message_queue self;
     action_queue := action_queue self |}.

(** [Team.create_snapshot()] *)
Definition create_snapshot (self : Team) : TeamSnapshotDict :=
  {| snapshot_members := elements (members self);
     snapshot_whitelist := Userlist.export_dict (user_whitelist self);
     snapshot_blacklist := Userlist.export_dict (user_blacklist self);
     snapshot_macros := get_macro_dict (actionset self) |}.

(** [Team.restore_snapshot(team_snapshot)]: an exception of an import
    leaves the method with what was restored until then. *)
Definition restore_snapshot (self : Team) (team_snapshot : TeamSnapshotDict)
  : pyresult unit * Team :=
  let self1 :=
    set_members self (list_to_set (snapshot_members team_snapshot)) in
  match Userlist.import_dict (user_whitelist self1)
                             (snapshot_whitelist team_snapshot) with
  | (Raise e, whitelist) => (Raise e, set_user_whitelist self1 whitelist)
  | (Return _, whitelist) =>
      let self2 := set_user_whitelist self1 whitelist in
      match Userlist.import_dict (user_blacklist self2)
                                 (snapshot_blacklist team_snapshot) with
      | (Raise e, blacklist) => (Raise e, set_user_blacklist self2 blacklist)
      | (Return _, blacklist) =>
          let self3 := set_user_blacklist self2 blacklist in
          (Return tt,
           set_actionset self3
             (set_macro_dict (actionset self3)
                             (snapshot_macros team_snapshot)))
      end
  end.

(** The ["teams"] entry that [save_snapshot] writes: the snapshot of
    every team under its lower-case name. *)
Definition snapshot_teams (g : GlobalData)
  : list (string * TeamSnapshotDict) :=
  map (fun team => (PyStr.lower (name team), create_snapshot team))
      (Teams g).

(** The loop of [load_snapshot] over the ["teams"] entry of the file: a
    name that no team has is skipped. *)
Fixpoint restore_teams (teams : list (string * TeamSnapshotDict)) : M unit :=
  match teams with
  | [] => mret tt
  | (team_name, team_snapshot) :: rest =>
      g ← get;
      match Registry.get_by_name g team_name with
      | None => restore_teams rest
      | Some team =>
          self ← team_at team;
          let '(r, self') := restore_snapshot self team_snapshot in
          modify (fun g => update_team g team self');;
          lift r;;
          restore_teams rest
      end
  end.

End Snapshot.

(* ================================================================== *)
(** ** [teams/team.py], continued: the constructor *)
(* ================================================================== *)
Module Construction.
Import Teams.

(** The keyword arguments of [Team.__init__].  A [None] for the channels
    is the empty set, for one of the two lists the empty list, and for
    the actionset (or anything that is no [Actionset]) [None]. *)
Record kwargs : Type := {
  arg_name : string;
  arg_channels : gset string;
  arg_actionset : option Actionset;
  arg_hidden : bool;
  arg_queue_length : Z;
  arg_use_random_inputs : bool;
  arg_joinable : bool;
  arg_leavable : bool;
  arg_exclusive : bool;
  arg_user_whitelist : list string;
  arg_user_blacklist : list string;
  arg_spam_protection : bool;
}.

(** [for entry in entries: user_list.add_to_list(entry, self.channels)] *)
Fixpoint add_entries (user_list : Userlist.UserList) (entries : list string)
    (team_channel_set : gset string) : pyresult unit * Userlist.UserList :=
  match entries with
  | [] => (Return tt, user_list)
  | entry :: rest =>
      match Userlist.add_to_list user_list entry team_channel_set with
      | (Return _, user_list') => add_entries user_list' rest team_channel_set
      | (Raise e, user_list') => (Raise e, user_list')
      end
  end.

(** [Team.__init__(name, channels=..., ...)] for an object whose chain of
    classes is [cs].  [deque(maxlen=n)] raises [ValueError] for a negative
    [n]. *)
Definition __init__ (cs : list TeamClass) (args : kwargs) : pyresult Team :=
  if String.eqb (arg_name args) "" then Raise ValueError
  else if bool_decide (arg_channels args = ∅) then Raise ValueError
  else match arg_actionset args with
  | None => Raise ValueError
  | Some actionset =>
      match add_entries (Userlist.__init__ true) (arg_user_whitelist args)
                        (arg_channels args) with
      | (Raise e, _) => Raise e
      | (Return _, user_whitelist) =>
          match add_entries (Userlist.__init__ true)
                            (arg_user_blacklist args) (arg_channels args) with
          | (Raise e, _) => Raise e
          | (Return _, user_blacklist) =>
              if arg_queue_length args <? 0 then Raise ValueError
              else
                Return
                  {| classes := cs;
                     name := arg_name args;
                     channels := arg_channels args;
                     actionset := actionset;
                     hidden := arg_hidden args;
                     queue_length := Z.to_nat (arg_queue_length args);
                     use_random_inputs := arg_use_random_inputs args;
                     joinable := arg_joinable args;
                     leavable := arg_leavable args;
                     exclusive := arg_exclusive args;
                     spam_protection := arg_spam_protection args;
                     user_whitelist := user_whitelist;
                     user_blacklist := user_blacklist;
                     members := ∅;
                     keep_running := true;
                     bot := None;
                     message_queue := [];
                     action_queue := [] |}
          end
      end
  end.

End Construction.

(* ################################################################## *)
(** * Properties *)
(* ################################################################## *)

(* ================================================================== *)
(** ** Quadstate *)
(* ================================================================== *)
Module EnumsFacts.
Import Enums.

(** C9.  For the four Quadstate values: [bool(AbsolutelyTrue)] and
    [bool(MaybeTrue)] are [True], [bool(AbsolutelyFalse)] and
    [bool(MaybeFalse)] are [False], and [is_certain()] is true exactly for
    [AbsolutelyTrue] and [AbsolutelyFalse]. *)
Theorem quadstate_bool_and_certainty :
  __bool__ AbsolutelyTrue = true /\
  __bool__ MaybeTrue = true /\
  __bool__ AbsolutelyFalse = false /\
  __bool__ MaybeFalse = false /\
  forall q : Quadstate,
    is_certain q = true <-> q = AbsolutelyTrue \/ q = AbsolutelyFalse.
Proof.
  repeat split; try reflexivity.
  - destruct q; cbn; intros H; try discriminate H; auto.
  - intros [-> | ->]; reflexivity.
Qed.

(** The boolean bit does not depend on the certainty bit. *)
Lemma bool_ignores_certainty (q : Quadstate) :
  __bool__ q = Z.odd (value q).
Proof. destruct q; reflexivity. Qed.

End EnumsFacts.

(* ================================================================== *)
(** ** clamp *)
(* ================================================================== *)
Module HelpersNativeFacts.
Import HelpersNative.

Lemma clamp_ordered (lo v hi : Z) :
  lo <= hi -> clamp lo v hi = Z.max lo (Z.min v hi).
Proof.
  intros H. unfold clamp.
  destruct (lo >? hi) eqn:E; [lia | reflexivity].
Qed.

Lemma clamp_swapped (lo v hi : Z) :
  hi < lo -> clamp lo v hi = Z.max hi (Z.min v lo).
Proof.
  intros H. unfold clamp.
  destruct (lo >? hi) eqn:E; [reflexivity | lia].
Qed.

(** The result always lies between the smaller and the larger bound. *)
Lemma clamp_between (lo v hi : Z) :
  Z.min lo hi <= clamp lo v hi <= Z.max lo hi.
Proof.
  destruct (Z_le_gt_dec lo hi).
  - rewrite clamp_ordered by assumption. lia.
  - rewrite clamp_swapped by lia. lia.
Qed.

Lemma clamp_in_range (lo v hi : Z) :
  lo <= hi -> lo <= clamp lo v hi <= hi.
Proof. intros H. pose proof (clamp_between lo v hi). lia. Qed.

Lemma clamp_id (lo v hi : Z) :
  lo <= v <= hi -> clamp lo v hi = v.
Proof. intros H. rewrite clamp_ordered by lia. lia. Qed.

Lemma clamp_above (lo v hi : Z) :
  lo <= hi -> hi <= v -> clamp lo v hi = hi.
Proof. intros H1 H2. rewrite clamp_ordered by lia. lia. Qed.

End HelpersNativeFacts.

(* ================================================================== *)
(** ** The regular expression engine: what a match can capture *)
(* ================================================================== *)
Module ReFacts.
Import Re.






Lemma length_app (a b : string) :
  String.length (a +:+ b) = (String.length a + String.length b)%nat.
Proof. induction a as [|c a IH]; simpl; [reflexivity | now rewrite IH]. Qed.

Lemma app_assoc (a b c : string) : (a +:+ b) +:+ c = a +:+ (b +:+ c).
Proof.
  induction a as [|x a IH]; [reflexivity|].
  change (String x ((a +:+ b) +:+ c) = String x (a +:+ (b +:+ c))).
  now f_equal.
Qed.



Section Spec.
Context {R : Type}.


End Spec.





End ReFacts.

(* ================================================================== *)
(** ** Translation of action commands *)
(* ================================================================== *)
Module BaseMultikeyFacts.
Import Chatmsg HelpersNative BaseMultikey ReFacts HelpersNativeFacts.

(** *** [int()] on what the pattern captured *)













(** *** Unknown verbs *)






(** *** Clamping *)

(** What the translation guarantees for the sub-action [args] produced
    from the table entry [verb_param]. *)
Definition clamped_for (verb_param : VerbParamDict) (args : FuncArgsDict)
  : Prop :=
  let min_time := VerbParam.min_time verb_param in
  let max_time := VerbParam.max_time verb_param in
  let delay := FuncArgs.delay args in
  let duration := FuncArgs.duration args in
  (0 <= max_time -> 0 <= delay <= max_time) /\
  (VerbParam.input_type verb_param = Constants.PRESS_KEY ->
     Z.min min_time (max_time - delay) <= duration
       <= Z.max min_time (max_time - delay)) /\
  (VerbParam.input_type verb_param = Constants.PRESS_KEY ->
     min_time <= max_time - delay ->
     min_time <= duration /\ delay + duration <= max_time) /\
  (VerbParam.input_type verb_param <> Constants.PRESS_KEY ->
     duration = VerbParam.input_type verb_param).

(** [verb_param] is an entry of a verb of [verb_dict] or [macro_dict]. *)
Definition from_tables (self : MultiKey_BaseActionset)
    (verb_param : VerbParamDict) : Prop :=
  exists verb l, lookup_verb self verb = Some l /\ In verb_param l.

Definition translated_from (self : MultiKey_BaseActionset)
    (args : FuncArgsDict) : Prop :=
  exists verb_param,
    from_tables self verb_param /\
    translate_verb_parameters_to_key self verb_param =
      Return (Some (FuncArgs.key args)) /\
    clamped_for verb_param args.

Lemma function_args_clamped key pd pdur inh verb_param :
  clamped_for verb_param (function_args_of key pd pdur inh verb_param).
Proof.
  unfold clamped_for, function_args_of. cbn [FuncArgs.delay FuncArgs.duration].
  set (mx := VerbParam.max_time verb_param).
  set (mn := VerbParam.min_time verb_param).
  set (dl := clamp 0 (pd + VerbParam.delay verb_param) mx).
  repeat split.
  - pose proof (clamp_in_range 0 (pd + VerbParam.delay verb_param) mx). lia.
  - pose proof (clamp_in_range 0 (pd + VerbParam.delay verb_param) mx). lia.
  - rewrite H, Z.eqb_refl.
    destruct (negb (pdur =? 0)); apply clamp_between.
  - rewrite H, Z.eqb_refl.
    destruct (negb (pdur =? 0)); apply clamp_between.
  - rewrite H, Z.eqb_refl.
    destruct (negb (pdur =? 0));
      match goal with |- context [clamp ?a ?b ?c] =>
        pose proof (clamp_in_range a b c) end; lia.
  - rewrite H, Z.eqb_refl.
    destruct (negb (pdur =? 0));
      match goal with |- context [clamp ?a ?b ?c] =>
        pose proof (clamp_in_range a b c) end; lia.
  - intros Hne. destruct (Z.eqb_spec (VerbParam.input_type verb_param)
                                      Constants.PRESS_KEY); congruence.
Qed.

Lemma translate_verb_param_list_clamped self pd pdur inh l :
  (forall verb_param, In verb_param l -> from_tables self verb_param) ->
  Forall (translated_from self)
         (fst (translate_verb_param_list self pd pdur inh l)).
Proof.
  induction l as [|verb_param rest IH]; intros Hl; simpl; [constructor|].
  destruct (translate_verb_parameters_to_key self verb_param)
    as [[key|]|e] eqn:Hk; simpl; try constructor.
  - destruct (translate_verb_param_list self pd pdur inh rest)
      as [more stop] eqn:Hr.
    simpl. constructor.
    + exists verb_param. split; [apply Hl; now left|].
      split; [exact Hk | apply function_args_clamped].
    + apply IH. intros vp Hin. apply Hl. now right.
Qed.

Lemma translate_verb_clamped self verb pd pdur :
  Forall (translated_from self) (fst (translate_verb self verb pd pdur)).
Proof.
  unfold translate_verb.
  destruct (lookup_verb self verb) as [l|] eqn:Hl; [|constructor].
  destruct l as [|first rest] eqn:El; [constructor|]. rewrite <- El.
  apply translate_verb_param_list_clamped.
  intros vp Hin. exists verb, l. split; congruence.
Qed.

Lemma translate_regex_results_clamped self results :
  forall acc out,
    Forall (translated_from self) acc ->
    translate_regex_results self results acc = Return out ->
    Forall (translated_from self) out.
Proof.
  induction results as [|caps rest IH]; intros acc out Hacc H; simpl in H.
  - injection H as <-. exact Hacc.
  - destruct (int_or_zero (Re.group caps 2)) as [d|]; [|discriminate].
    simpl in H.
    destruct (int_or_zero (Re.group caps 3)) as [u|]; [|discriminate].
    simpl in H.
    pose proof (translate_verb_clamped self (Re.group caps 1) d u) as Hnew.
    destruct (translate_verb self (Re.group caps 1) d u) as [new stop].
    simpl in Hnew.
    assert (Forall (translated_from self) (acc ++ new)) as Hacc'
      by (apply Forall_app; split; assumption).
    destruct stop as [e|]; [destruct (caught e); [|discriminate]|];
      eapply IH; eassumption.
Qed.

(** The verb of the specification's example: one key press with
    [min_time=50], [max_time=500], default duration 100, default delay 0. *)
Definition example_verb_param (key : string) : VerbParamDict :=
  create_verb_params key 100 0 50 500 Constants.PRESS_KEY.

(** A keyboard actionset that knows this verb as [+left]. *)
Definition example_actionset : MultiKey_BaseActionset :=
  {| input_handler := BasicKeyboardHandler;
     action_prefix := "+";
     player_index := 0;
     verb_dict := {[ "+left" := [example_verb_param "left"] ]};
     macro_dict := ∅;
     translate_verb_parameters_to_key :=
       Keyboard_translate_verb_parameters_to_key
         {[ "left" := ["a"; "j"] ]} 0 |}.

(** C6, as amended.  Every sub-action that
    [translate_message_contents_to_args_list] returns comes from an entry
    of the verb tables, with its delay clamped into [[0, max_time]] (for
    a [max_time] that is not negative) and,
    for a key press, its duration clamped between [min_time] and
    [max_time - delay] (so within [[min_time, max_time]] and with
    [delay + duration <= max_time] whenever [min_time <= max_time - delay]);
    for hold and release the duration is the input type's value.  For the
    example verb without delay, a requested duration of 9999 gives 500 and
    an absent (zero) one gives the default 100. *)
Theorem translation_clamps_delay_and_duration
    (self : MultiKey_BaseActionset) (message : string) :
  (forall args_list,
     translate_message_contents_to_args_list self message = Return args_list ->
     Forall (translated_from self) args_list)
  /\ (forall key pressed,
        FuncArgs.duration
          (function_args_of pressed 0 9999 100 (example_verb_param key)) = 500
        /\ FuncArgs.duration
             (function_args_of pressed 0 0 100 (example_verb_param key)) = 100
        /\ FuncArgs.delay
             (function_args_of pressed 0 9999 100 (example_verb_param key)) = 0).
Proof.
  split.
  - intros args_list H. unfold translate_message_contents_to_args_list in H.
    eapply translate_regex_results_clamped; [|exact H]. constructor.
  - intros key pressed. repeat split.
Qed.

(** The example of the specification, run through the whole translation. *)
Example example_9999 :
  translate_message_contents_to_args_list example_actionset "+left 9999" =
  Return [ {| FuncArgs.key := "a"; FuncArgs.delay := 0;
              FuncArgs.duration := 500 |} ].
Proof. vm_compute. reflexivity. Qed.

Example example_absent :
  translate_message_contents_to_args_list example_actionset "+left" =
  Return [ {| FuncArgs.key := "a"; FuncArgs.delay := 0;
              FuncArgs.duration := 100 |} ].
Proof. vm_compute. reflexivity. Qed.

Lemma translation_clamps_witness :
  Forall (translated_from example_actionset)
         [ {| FuncArgs.key := "a"; FuncArgs.delay := 0;
              FuncArgs.duration := 500 |} ].
Proof.
  apply (proj1 (translation_clamps_delay_and_duration
                  example_actionset "+left 9999")).
  vm_compute. reflexivity.
Defined.

(** C6 as stated fails on both counts.  The delay is clamped from 0, not
    from [min_time]: in the specification's own example the delay 0 lies
    below [min_time = 50].  And the duration is clamped against what the
    delay leaves of [max_time], with the bounds swapped when that is less
    than [min_time]: [+left 480+30] presses for 30 ms, below [min_time]. *)
Lemma delay_not_within_min_time_counterexample :
  let verb_param := example_verb_param "left" in
  let first := {| FuncArgs.key := "a"; FuncArgs.delay := 0;
                  FuncArgs.duration := 500 |} in
  let second := {| FuncArgs.key := "a"; FuncArgs.delay := 480;
                   FuncArgs.duration := 30 |} in
  translate_message_contents_to_args_list example_actionset "+left 9999" =
    Return [first]
  /\ ~ (VerbParam.min_time verb_param <= FuncArgs.delay first
        <= VerbParam.max_time verb_param)
  /\ translate_message_contents_to_args_list example_actionset "+left 480+30" =
       Return [second]
  /\ ~ (VerbParam.min_time verb_param <= FuncArgs.duration second
        <= VerbParam.max_time verb_param).
Proof.
  split; [vm_compute; reflexivity|].
  split; [cbn; lia|].
  split; [vm_compute; reflexivity|].
  cbn. lia.
Qed.

(** How the verb pattern cuts a message into (verb, delay, duration),
    as Python's [re] does. *)
Definition verb_matches (message : string) : list (string * string * string) :=
  map (fun caps => (Re.group caps 1, Re.group caps 2, Re.group caps 3))
      (Re.findall Constants.VERB_DELAY_DURATION_REGEX (PyStr.lower message)).

Example verb_matches_delay_and_duration :
  verb_matches "+LEFT 100->200 +right ;5 up" =
  [ ("+left", "100", "200"); ("+right", "", "5"); ("up", "", "") ].
Proof. vm_compute. reflexivity. Qed.

Example verb_matches_two_numbers :
  verb_matches "+left 100 200" = [ ("+left", "", "100"); ("200", "", "") ].
Proof. vm_compute. reflexivity. Qed.

Example verb_matches_backtracking :
  verb_matches "+left 100 ; 200x" =
  [ ("+left", "100", ""); ("200x", "", "") ].
Proof. vm_compute. reflexivity. Qed.

(** A message of four verbs, two of them unknown: the known ones are
    translated all the same. *)
Example unknown_verbs_example :
  translate_message_contents_to_args_list example_actionset
    "+nope +left 10;20 jump +left" =
  Return [ {| FuncArgs.key := "a"; FuncArgs.delay := 10;
              FuncArgs.duration := 50 |};
           {| FuncArgs.key := "a"; FuncArgs.delay := 0;
              FuncArgs.duration := 100 |} ].
Proof. vm_compute. reflexivity. Qed.

Example only_unknown_verbs_example :
  translate_user_message_to_action example_actionset
    {| msg_id := "1"; msg_type := "pubmsg"; user := "bob";
       channel := "#chan"; message := "+nope 5"; tags := ∅ |}
  = Return None.
Proof. vm_compute. reflexivity. Qed.

End BaseMultikeyFacts.

(* ================================================================== *)
(** ** UserList: export and import *)
(* ================================================================== *)
Module UserlistFacts.
Import Chatmsg Userlist.

Lemma add_all (l : list string) (s : gset string) :
  foldl (fun acc x => {[x]} ∪ acc) s l = list_to_set l ∪ s.
Proof.
  revert s. induction l as [|x l IH]; intros s; simpl.
  - set_solver.
  - rewrite IH. set_solver.
Qed.

Lemma add_all_elements (s : gset string) :
  foldl (fun acc x => {[x]} ∪ acc) ∅ (elements s) = s.
Proof. rewrite add_all, list_to_set_elements_L. set_solver. Qed.

(** Importing an export into a fresh list never raises and rebuilds the
    fixed users and the channel set of every group, with an empty cache. *)
Lemma import_export (L : UserList) (c : bool) :
  import_dict (__init__ c) (export_dict L) =
  (Return tt,
   {| cache_users := c; known_users := ∅; included_users := ∅;
      fixed_users := fixed_users L; special_groups := special_groups L |}).
Proof.
  unfold import_dict, export_dict. cbn -[elements foldl].
  rewrite !add_all_elements.
  destruct L as [cu kn inc fx [a b c0 d e3 e2 e1 p fo st pr tu us]].
  reflexivity.
Qed.

(** The verdict of a list whose cache has no answer for the user depends
    on the fixed users and the groups only. *)
Lemma uncached_verdict (L1 L2 : UserList) (msg : ChatMessage) :
  fixed_users L1 = fixed_users L2 ->
  special_groups L1 = special_groups L2 ->
  cache_users L1 && mem (user msg) (known_users L1) = false ->
  cache_users L2 && mem (user msg) (known_users L2) = false ->
  fst (message_in_list L1 msg) = fst (message_in_list L2 msg).
Proof.
  intros Hf Hg H1 H2. unfold message_in_list. rewrite H1, H2, Hf.
  destruct (mem (user msg) (fixed_users L2)); [reflexivity|].
  assert (is_in_any_subgroup L1 msg = is_in_any_subgroup L2 msg) as ->.
  { unfold is_in_any_subgroup, subgroup_checks, is_broadcaster, is_mod,
      is_vip, is_subscribed, is_tier3sub, is_tier2sub, is_tier1sub,
      is_partner, is_founder, is_staff, is_prime, is_turbo, is_user.
    now rewrite Hg. }
  destruct (is_in_any_subgroup L2 msg) as [[]|]; reflexivity.
Qed.

(** C8, as amended.  Importing [L.export_dict()] into a freshly made
    UserList succeeds and gives a list with the fixed users and the group
    channels of [L] and an empty cache; its [message_in_list] verdict equals
    the verdict of [L] for every probe message for which [L] does not
    answer from its cache (caching off, or the user not yet known). *)
Theorem export_import_roundtrip
    (L : UserList) (fresh_cache : bool) (msg : ChatMessage) :
  cache_users L && mem (user msg) (known_users L) = false ->
  exists L',
    import_dict (__init__ fresh_cache) (export_dict L) = (Return tt, L') /\
    fixed_users L' = fixed_users L /\
    special_groups L' = special_groups L /\
    known_users L' = ∅ /\
    fst (message_in_list L' msg) = fst (message_in_list L msg).
Proof.
  intros Hc. eexists. split; [apply import_export|].
  cbn [fixed_users special_groups known_users]. repeat split.
  apply uncached_verdict; cbn [fixed_users special_groups known_users
                                cache_users]; auto.
  apply andb_false_r.
Qed.

(** A list as a team makes it: the moderators of [#chan] are in. *)
Definition mods_of_chan : UserList :=
  snd (add_to_list (__init__ true) "$mods[#chan]" ∅).

Definition bob_as_mod : ChatMessage :=
  {| msg_id := "1"; msg_type := "pubmsg"; user := "bob"; channel := "#chan";
     message := "+left"; tags := {[ "mod" := "1" ]} |}.

(** The same user later, no longer a moderator. *)
Definition bob_later : ChatMessage :=
  {| msg_id := "2"; msg_type := "pubmsg"; user := "bob"; channel := "#chan";
     message := "+left"; tags := {[ "mod" := "0" ]} |}.

Lemma export_import_roundtrip_witness :
  exists L',
    import_dict (__init__ true) (export_dict mods_of_chan) = (Return tt, L') /\
    fixed_users L' = fixed_users mods_of_chan /\
    special_groups L' = special_groups mods_of_chan /\
    known_users L' = ∅ /\
    fst (message_in_list L' bob_as_mod) =
    fst (message_in_list mods_of_chan bob_as_mod).
Proof.
  apply (export_import_roundtrip mods_of_chan true bob_as_mod).
  vm_compute. reflexivity.
Defined.

(** C8 as stated fails on a list that has answered before: once [bob] was
    seen as a moderator the list keeps saying yes from its cache, while
    the list rebuilt from the export looks at the tags again. *)
Lemma stale_cache_counterexample :
  let L := snd (message_in_list mods_of_chan bob_as_mod) in
  let rebuilt := snd (import_dict (__init__ true) (export_dict L)) in
  fst (message_in_list L bob_later) = Return true /\
  fst (message_in_list rebuilt bob_later) = Return false.
Proof. vm_compute. split; reflexivity. Qed.

End UserlistFacts.

(* ================================================================== *)
(** ** Teams: the queues and the two worker steps *)
(* ================================================================== *)
Module QueueFacts.
Import Chatmsg Teams.

(** Running a computation that starts by reading the team [i]. *)
Lemma run_team_at {A : Type} (g : GlobalData) (i : nat) (self : Team)
    (f : Team -> M A) :
  Teams g !! i = Some self -> (team_at i ≫= f) g = f self g.
Proof. intros H. unfold mbind, M_bind, team_at. now rewrite H. Qed.

Lemma lookup_update_team g i t self :
  Teams g !! i = Some self -> Teams (update_team g i t) !! i = Some t.
Proof.
  intros H. unfold update_team. cbn.
  apply list_lookup_insert_eq. eapply lookup_lt_Some; eauto.
Qed.

Lemma deque_pop_snoc {A : Type} (q : list A) (x : A) :
  deque_pop (q ++ [x]) = Some (x, q).
Proof.
  unfold deque_pop. rewrite reverse_snoc. now rewrite reverse_involutive.
Qed.

Lemma deque_pop_nil {A : Type} : deque_pop (@nil A) = None.
Proof. reflexivity. Qed.

(** A bounded deque stays within its bound. *)
Lemma deque_append_length {A : Type} (maxlen : nat) (q : list A) (x : A) :
  (length q <= maxlen)%nat -> (length (deque_append maxlen q x) <= maxlen)%nat.
Proof.
  intros H. unfold deque_append.
  destruct (Nat.ltb_spec maxlen (length (q ++ [x]))) as [Hlt|Hge]; [|exact Hge].
  rewrite length_app in Hlt. simpl in Hlt.
  destruct q as [|y q]; simpl in *; [lia|].
  rewrite length_app. simpl. lia.
Qed.

Lemma deque_append_room {A : Type} (maxlen : nat) (q : list A) (x : A) :
  (length q < maxlen)%nat -> deque_append maxlen q x = q ++ [x].
Proof.
  intros H. unfold deque_append.
  destruct (Nat.ltb_spec maxlen (length (q ++ [x]))) as [Hlt|Hge];
    [|reflexivity].
  rewrite length_app in Hlt. simpl in Hlt. lia.
Qed.

Lemma deque_append_full {A : Type} (maxlen : nat) (q : list A) (x : A) :
  length q = maxlen -> deque_append maxlen q x = tail (q ++ [x]).
Proof.
  intros H. unfold deque_append.
  destruct (Nat.ltb_spec maxlen (length (q ++ [x]))) as [Hlt|Hge];
    [reflexivity|].
  rewrite length_app in Hge. simpl in Hge. lia.
Qed.

(** With room for at least one item, the appended item is the newest. *)
Lemma deque_append_last {A : Type} (maxlen : nat) (q : list A) (x : A) :
  (0 < maxlen)%nat -> (length q <= maxlen)%nat ->
  last (deque_append maxlen q x) = Some x.
Proof.
  intros Hpos Hlen. unfold deque_append.
  destruct (Nat.ltb_spec maxlen (length (q ++ [x]))) as [Hlt|Hge].
  - destruct q as [|y q]; simpl in *; [lia|]. apply last_snoc.
  - apply last_snoc.
Qed.

(** *** Message admission *)

Definition duplicate_queued (self : Team) (msg : ChatMessage) : Prop :=
  exists existing_message,
    In existing_message (message_queue self) /\
    user existing_message = user msg /\
    message existing_message = message msg.

Lemma duplicate_queued_spec self msg :
  existsb (fun existing_message =>
             String.eqb (user msg) (user existing_message) &&
             String.eqb (message msg) (message existing_message))
          (message_queue self) = true
  <-> duplicate_queued self msg.
Proof.
  rewrite existsb_exists. unfold duplicate_queued.
  split; intros (e & Hin & H); exists e; (split; [exact Hin|]).
  - apply andb_prop in H as [H1 H2].
    apply String.eqb_eq in H1, H2. auto.
  - destruct H as [H1 H2]. rewrite H1, H2, !String.eqb_refl. reflexivity.
Qed.

(** C3.  With [spam_protection] on: when a queued message has the user
    and the text of [msg], [add_message] changes nothing and raises
    nothing; otherwise [msg] is appended, and the oldest item is dropped
    when the queue already held [queue_length] items. *)
Theorem add_message_spam_protection
    (g : GlobalData) (i : nat) (self : Team) (msg : ChatMessage) :
  Teams g !! i = Some self ->
  spam_protection self = true ->
  fst (add_message i msg g) = Return tt /\
  (duplicate_queued self msg -> snd (add_message i msg g) = g) /\
  (~ duplicate_queued self msg ->
   exists self',
     Teams (snd (add_message i msg g)) !! i = Some self' /\
     ((length (message_queue self) < queue_length self)%nat ->
      message_queue self' = message_queue self ++ [msg]) /\
     (length (message_queue self) = queue_length self ->
      message_queue self' = tail (message_queue self ++ [msg]))).
Proof.
  intros Hi Hspam. unfold add_message.
  rewrite (run_team_at _ _ _ _ Hi), Hspam. cbn [andb].
  pose proof (duplicate_queued_spec self msg) as Hdup.
  destruct (existsb _ (message_queue self)) eqn:E.
  - split; [reflexivity|]. split; [reflexivity|].
    intros Hn. exfalso. apply Hn, Hdup. reflexivity.
  - unfold mbind, M_bind, modify.
    destruct (exclusive self && negb (Userlist.mem (user msg) (members self)));
      cbn.
    + split; [reflexivity|]. split.
      { intros Hd. apply Hdup in Hd. discriminate. }
      intros _. eexists. split.
      { apply list_lookup_insert_eq.
        rewrite length_insert. eapply lookup_lt_Some; eauto. }
      cbn. split; intros Hlen.
      * now apply deque_append_room.
      * now apply deque_append_full.
    + split; [reflexivity|]. split.
      { intros Hd. apply Hdup in Hd. discriminate. }
      intros _. eexists. split.
      { apply list_lookup_insert_eq. eapply lookup_lt_Some; eauto. }
      cbn. split; intros Hlen.
      * now apply deque_append_room.
      * now apply deque_append_full.
Qed.

(** *** The translate step *)

(** C2.  When the translate step pops a message that translates into an
    action, it appends the one pair of that message and action to the
    action queue and leaves the message queue empty; when the popped
    message translates into nothing, the action queue is unchanged and
    the other pending messages stay queued. *)
Theorem translate_step_keeps_one_survivor
    (self : Team) (msg : ChatMessage) (rest : list ChatMessage) :
  message_queue self = rest ++ [msg] ->
  (forall func,
     translate_user_message_to_action (actionset self) msg
       = Return (Some func) ->
     exists self' trace,
       _translate_queued_message self = (Return tt, self', trace) /\
       action_queue self' =
         deque_append (queue_length self) (action_queue self) (msg, func) /\
       message_queue self' = [] /\
       ((0 < queue_length self)%nat ->
        (length (action_queue self) <= queue_length self)%nat ->
        last (action_queue self') = Some (msg, func)))
  /\ (translate_user_message_to_action (actionset self) msg = Return None ->
      exists self' trace,
        _translate_queued_message self = (Return tt, self', trace) /\
        action_queue self' = action_queue self /\
        message_queue self' = rest).
Proof.
  intros Hq. unfold _translate_queued_message.
  rewrite Hq, deque_pop_snoc. split.
  - intros func ->. do 2 eexists. split; [reflexivity|]. cbn.
    repeat split. intros Hpos Hlen. now apply deque_append_last.
  - intros ->. do 2 eexists. split; [reflexivity|]. cbn. auto.
Qed.

(** A team with one pending message, for the examples. *)
Definition plus_left (u : string) : ChatMessage :=
  {| msg_id := "1"; msg_type := "pubmsg"; user := u; channel := "#chan";
     message := "+left"; tags := ∅ |}.

Definition example_team (cs : list TeamClass) (team_name : string)
    (queue : list ChatMessage) : Team :=
  {| classes := cs; name := team_name; channels := {[ "#chan" ]};
     actionset := MultiKey BaseMultikeyFacts.example_actionset;
     hidden := false; queue_length := 10; use_random_inputs := false;
     joinable := true; leavable := true; exclusive := true;
     spam_protection := true;
     user_whitelist := Userlist.__init__ true;
     user_blacklist := Userlist.__init__ true;
     members := ∅; keep_running := true;
     bot := Some {| channel_set := {[ "#chan" ]} |};
     message_queue := queue; action_queue := [] |}.

Lemma translate_step_witness :
  exists self' trace,
    _translate_queued_message
      (example_team [Default_Team] "Red" [plus_left "ann"; plus_left "bob"])
      = (Return tt, self', trace) /\
    action_queue self' =
      deque_append 10 []
        (plus_left "bob",
         press_multiple_Keys BaseMultikey.BasicKeyboardHandler 0
           [ {| BaseMultikey.FuncArgs.key := "a";
                BaseMultikey.FuncArgs.delay := 0;
                BaseMultikey.FuncArgs.duration := 100 |} ]) /\
    message_queue self' = [] /\
    ((0 < 10)%nat -> (0 <= 10)%nat ->
     last (action_queue self') =
       Some (plus_left "bob",
             press_multiple_Keys BaseMultikey.BasicKeyboardHandler 0
               [ {| BaseMultikey.FuncArgs.key := "a";
                    BaseMultikey.FuncArgs.delay := 0;
                    BaseMultikey.FuncArgs.duration := 100 |} ])).
Proof.
  apply (proj1 (translate_step_keeps_one_survivor
                  (example_team [Default_Team] "Red"
                                [plus_left "ann"; plus_left "bob"])
                  (plus_left "bob") [plus_left "ann"] eq_refl)).
  vm_compute. reflexivity.
Defined.

(** Two exclusive teams on [#chan], nobody on them yet, input accepted. *)
Definition example_globals : GlobalData :=
  {| Teams := [ example_team [Default_Team] "Red" [];
                example_team [Default_Team] "Blue" [] ];
     Users := ∅;
     action_prefixes := {[ "+" ]};
     state_accept_input := true;
     state_random_action := false |}.

Lemma add_message_spam_protection_witness :
  let g := snd (add_message 0 (plus_left "bob") example_globals) in
  let self := example_team [Default_Team] "Red" [plus_left "bob"] in
  fst (add_message 0 (plus_left "bob") g) = Return tt /\
  (duplicate_queued
     (set_members self {[ "bob" ]}) (plus_left "bob") ->
   snd (add_message 0 (plus_left "bob") g) = g) /\
  (~ duplicate_queued (set_members self {[ "bob" ]}) (plus_left "bob") ->
   exists self',
     Teams (snd (add_message 0 (plus_left "bob") g)) !! 0%nat = Some self' /\
     ((1 < 10)%nat ->
      message_queue self' = [plus_left "bob"] ++ [plus_left "bob"]) /\
     (1%nat = 10%nat ->
      message_queue self' = tail ([plus_left "bob"] ++ [plus_left "bob"]))).
Proof.
  apply (add_message_spam_protection
           (snd (add_message 0 (plus_left "bob") example_globals)) 0
           (set_members (example_team [Default_Team] "Red" [plus_left "bob"])
                        {[ "bob" ]})
           (plus_left "bob")).
  - vm_compute. reflexivity.
  - reflexivity.
Defined.

(** *** Locks *)




(** *** The channel gate *)

(** C10.  A message whose channel is not one of the team's channels is
    refused by [__add_message_to_team] before any other check: the answer
    is [False] and nothing changes (no queue, no membership, no cache),
    whoever the user is. *)
Theorem channel_gate
    (g : GlobalData) (team : nat) (self : Team) (msg : ChatMessage) :
  Teams g !! team = Some self ->
  channel msg ∉ channels self ->
  __add_message_to_team msg team g = (Return false, g).
Proof.
  intros Ht Hc. unfold __add_message_to_team.
  rewrite (run_team_at _ _ _ _ Ht).
  unfold Userlist.mem. rewrite bool_decide_eq_false_2 by exact Hc.
  reflexivity.
Qed.

(** [bob] is a member of Red and writes on a channel Red does not listen
    on. *)
Definition bob_elsewhere : ChatMessage :=
  {| msg_id := "3"; msg_type := "pubmsg"; user := "bob";
     channel := "#other"; message := "+left"; tags := ∅ |}.

Lemma channel_gate_witness :
  let g := snd (add_message 0 (plus_left "bob") example_globals) in
  __add_message_to_team bob_elsewhere 0 g = (Return false, g).
Proof.
  apply (channel_gate
           (snd (add_message 0 (plus_left "bob") example_globals)) 0
           (set_members (example_team [Default_Team] "Red" [plus_left "bob"])
                        {[ "bob" ]})
           bob_elsewhere).
  - vm_compute. reflexivity.
  - vm_compute. intros H. discriminate H.
Defined.

End QueueFacts.

(* ================================================================== *)
(** ** Teams: membership, the registry and the router *)
(* ================================================================== *)
Module RouterFacts.
Import Chatmsg Teams QueueFacts.

(** *** The membership invariant *)

(** Every member of a team is registered to that team, and every entry
    of the registry names an exclusive team that has the user as member. *)
Definition registry_consistent (g : GlobalData) : Prop :=
  (forall i t u, Teams g !! i = Some t -> u ∈ members t ->
                 Users g !! u = Some i) /\
  (forall u i, Users g !! u = Some i ->
               exists t, Teams g !! i = Some t /\ u ∈ members t /\
                         exclusive t = true).

(** The registry does not give [u] to a team other than [i]: the
    condition that [blocked_from_team] checks for an exclusive team. *)
Definition not_elsewhere (g : GlobalData) (i : nat) (u : string) : Prop :=
  forall j, Users g !! u = Some j -> j = i.

(** A team with its members and its two user lists blanked: what no
    membership check can change. *)
Definition erase (t : Team) : Team :=
  set_members
    (set_user_whitelist
       (set_user_blacklist t (Userlist.__init__ true))
       (Userlist.__init__ true))
    ∅.

Lemma erase_exclusive t t' : erase t = erase t' -> exclusive t = exclusive t'.
Proof. intros H. exact (f_equal exclusive H). Qed.

Lemma erase_queues t t' :
  erase t = erase t' ->
  message_queue t = message_queue t' /\ action_queue t = action_queue t'.
Proof.
  intros H. split;
    [exact (f_equal message_queue H) | exact (f_equal action_queue H)].
Qed.

(** What a membership check may do to one team: evict [u]. *)
Definition team_shrinks (u : string) (t t' : Team) : Prop :=
  erase t = erase t' /\
  members t' ⊆ members t /\
  members t ∖ {[u]} ⊆ members t'.

(** What the membership checks on a message of [u] may do to the state:
    update the caches of user lists and evict [u], from a team and from
    the registry together. *)
Record shrinks (u : string) (g g' : GlobalData) : Prop := {
  shr_length : length (Teams g') = length (Teams g);
  shr_team : forall i t', Teams g' !! i = Some t' ->
               exists t, Teams g !! i = Some t /\ team_shrinks u t t';
  shr_users : forall v j, Users g' !! v = Some j -> Users g !! v = Some j;
  shr_others : forall v, v <> u -> Users g' !! v = Users g !! v;
  shr_prefixes : action_prefixes g' = action_prefixes g;
  shr_accept : state_accept_input g' = state_accept_input g;
  shr_random : state_random_action g' = state_random_action g;
  shr_consistent : registry_consistent g -> registry_consistent g';
}.

Lemma team_shrinks_refl u t : team_shrinks u t t.
Proof. unfold team_shrinks. set_solver. Qed.

Lemma team_shrinks_trans u t1 t2 t3 :
  team_shrinks u t1 t2 -> team_shrinks u t2 t3 -> team_shrinks u t1 t3.
Proof.
  unfold team_shrinks. intros (E1 & A1 & B1) (E2 & A2 & B2).
  split; [congruence|]. set_solver.
Qed.

#[global] Instance shrinks_refl u : Reflexive (shrinks u).
Proof.
  intros g. split; auto.
  intros i t' H. exists t'. split; [exact H | apply team_shrinks_refl].
Qed.

#[global] Instance shrinks_trans u : Transitive (shrinks u).
Proof.
  intros g1 g2 g3 H12 H23. split.
  - rewrite (shr_length _ _ _ H23). apply (shr_length _ _ _ H12).
  - intros i t3 H3.
    destruct (shr_team _ _ _ H23 i t3 H3) as (t2 & H2 & S23).
    destruct (shr_team _ _ _ H12 i t2 H2) as (t1 & H1 & S12).
    exists t1. split; [exact H1 | eapply team_shrinks_trans; eauto].
  - intros v j H. apply (shr_users _ _ _ H12), (shr_users _ _ _ H23), H.
  - intros v Hv. rewrite (shr_others _ _ _ H23 v Hv).
    apply (shr_others _ _ _ H12 v Hv).
  - rewrite (shr_prefixes _ _ _ H23). apply (shr_prefixes _ _ _ H12).
  - rewrite (shr_accept _ _ _ H23). apply (shr_accept _ _ _ H12).
  - rewrite (shr_random _ _ _ H23). apply (shr_random _ _ _ H12).
  - intros H. apply (shr_consistent _ _ _ H23), (shr_consistent _ _ _ H12), H.
Qed.

Lemma shrinks_not_elsewhere u g g' i :
  shrinks u g g' -> not_elsewhere g i u -> not_elsewhere g' i u.
Proof. intros S H j Hj. apply H, (shr_users _ _ _ S), Hj. Qed.

Lemma shrinks_lookup u g g' i t :
  shrinks u g g' -> Teams g !! i = Some t ->
  exists t', Teams g' !! i = Some t' /\ team_shrinks u t t'.
Proof.
  intros S H.
  destruct (Teams g' !! i) as [t'|] eqn:E.
  - destruct (shr_team _ _ _ S i t' E) as (t0 & H0 & St).
    exists t'. split; [reflexivity|]. congruence.
  - apply lookup_ge_None in E. apply lookup_lt_Some in H.
    rewrite (shr_length _ _ _ S) in E. lia.
Qed.

(** Replacing team [i] by a team with the same members keeps the
    registry consistent. *)
Lemma consistent_update g i self t' :
  Teams g !! i = Some self ->
  members t' = members self -> exclusive t' = exclusive self ->
  registry_consistent g -> registry_consistent (update_team g i t').
Proof.
  intros Hi Hm He [H1 H2]. split.
  - intros j t u Hj Hu. cbn in *.
    destruct (decide (i = j)) as [->|Hne].
    + rewrite list_lookup_insert_eq in Hj by (eapply lookup_lt_Some; eauto).
      inversion Hj; subst t. rewrite Hm in Hu. eauto.
    + rewrite list_lookup_insert_ne in Hj by exact Hne. eauto.
  - intros u j Hu. cbn in *.
    destruct (H2 u j Hu) as (t & Hj & Hin & Hex).
    destruct (decide (i = j)) as [->|Hne].
    + exists t'. rewrite list_lookup_insert_eq
        by (eapply lookup_lt_Some; eauto).
      assert (t = self) as -> by congruence.
      rewrite Hm, He. auto.
    + exists t. rewrite list_lookup_insert_ne by exact Hne. auto.
Qed.

(** Updating a user list of team [i], or nothing at all. *)
Lemma shrinks_update u g i self t' :
  Teams g !! i = Some self ->
  erase t' = erase self -> members t' = members self ->
  shrinks u g (update_team g i t').
Proof.
  intros Hi He Hm. split; cbn; auto.
  - apply length_insert.
  - intros j t Hj. destruct (decide (i = j)) as [->|Hne].
    + rewrite list_lookup_insert_eq in Hj by (eapply lookup_lt_Some; eauto).
      inversion Hj; subst t. exists self. split; [exact Hi|].
      unfold team_shrinks. rewrite He, Hm. set_solver.
    + rewrite list_lookup_insert_ne in Hj by exact Hne.
      exists t. split; [exact Hj | apply team_shrinks_refl].
  - apply (consistent_update g i self t'); auto. now apply erase_exclusive.
Qed.

(** Removing a member from team [i] and from the registry. *)
Lemma consistent_evict g i self u :
  Teams g !! i = Some self -> u ∈ members self ->
  registry_consistent g ->
  registry_consistent
    (Users_discard
       (update_team g i (set_members self (members self ∖ {[u]}))) u).
Proof.
  intros Hi Hu [H1 H2]. split.
  - intros j t v Hj Hv. cbn in *.
    destruct (decide (i = j)) as [->|Hne].
    + rewrite list_lookup_insert_eq in Hj by (eapply lookup_lt_Some; eauto).
      inversion Hj; subst t. cbn in Hv.
      apply elem_of_difference in Hv as [Hv Hvu].
      rewrite lookup_delete_ne by set_solver. eauto.
    + rewrite list_lookup_insert_ne in Hj by exact Hne.
      assert (v <> u) as Hvu.
      { intros ->. pose proof (H1 _ _ _ Hi Hu). pose proof (H1 _ _ _ Hj Hv).
        congruence. }
      rewrite lookup_delete_ne by congruence. eauto.
  - intros v j Hv. cbn in *.
    destruct (decide (u = v)) as [->|Hvu].
    + rewrite lookup_delete_eq in Hv. discriminate.
    + rewrite lookup_delete_ne in Hv by exact Hvu.
      destruct (H2 v j Hv) as (t & Hj & Hin & Hex).
      destruct (decide (i = j)) as [->|Hne].
      * assert (t = self) as -> by congruence.
        eexists. rewrite list_lookup_insert_eq
          by (eapply lookup_lt_Some; eauto).
        split; [reflexivity|]. cbn. split; [set_solver | exact Hex].
      * exists t. rewrite list_lookup_insert_ne by exact Hne. auto.
Qed.

Lemma shrinks_evict g i self u :
  Teams g !! i = Some self -> u ∈ members self ->
  shrinks u g
    (Users_discard
       (update_team g i (set_members self (members self ∖ {[u]}))) u).
Proof.
  intros Hi Hu. split; cbn; auto.
  - apply length_insert.
  - intros j t Hj. destruct (decide (i = j)) as [->|Hne].
    + rewrite list_lookup_insert_eq in Hj by (eapply lookup_lt_Some; eauto).
      inversion Hj; subst t. exists self. split; [exact Hi|].
      unfold team_shrinks. cbn. split; [reflexivity | set_solver].
    + rewrite list_lookup_insert_ne in Hj by exact Hne.
      exists t. split; [exact Hj | apply team_shrinks_refl].
  - intros v j Hv. destruct (decide (u = v)) as [->|Hne].
    + rewrite lookup_delete_eq in Hv. discriminate.
    + now rewrite lookup_delete_ne in Hv.
  - intros v Hv. now rewrite lookup_delete_ne.
  - now apply consistent_evict.
Qed.

(** *** Computations whose every run is within a relation *)

Definition sat {A : Type} (R : relation GlobalData) (m : M A) : Prop :=
  forall g, R g (snd (m g)).

Section Sat.
Context (R : relation GlobalData) `{!Reflexive R} `{!Transitive R}.

Lemma sat_ret {A : Type} (a : A) : sat R (mret a).
Proof. intros g. reflexivity. Qed.

Lemma sat_lift {A : Type} (r : pyresult A) : sat R (lift r).
Proof. intros g. reflexivity. Qed.

Lemma sat_get : sat R get.
Proof. intros g. reflexivity. Qed.

Lemma sat_team_at (i : nat) : sat R (team_at i).
Proof. intros g. unfold team_at. destruct (Teams g !! i); reflexivity. Qed.

Lemma sat_bind {A B : Type} (m : M A) (f : A -> M B) :
  sat R m -> (forall a, sat R (f a)) -> sat R (m ≫= f).
Proof.
  intros Hm Hf g. unfold mbind, M_bind. specialize (Hm g).
  destruct (m g) as [[a|e] g1]; cbn in *; [|exact Hm].
  transitivity g1; [exact Hm | apply Hf].
Qed.
End Sat.

(** One step of a proof that a computation is within [shrinks u]. *)
Ltac sat_step :=
  first
    [ apply sat_ret; typeclasses eauto
    | apply sat_lift; typeclasses eauto
    | apply sat_get; typeclasses eauto
    | apply sat_team_at; typeclasses eauto
    | assumption
    | apply sat_bind; [typeclasses eauto | | intros ?]
    | match goal with
      | |- sat _ (if ?b then _ else _) => destruct b
      | |- sat _ (match ?x with _ => _ end) => destruct x
      end ].

(** Running the steps of a computation by hand. *)
Lemma run_bind {A B : Type} (m : M A) (f : A -> M B) (g : GlobalData) :
  (m ≫= f) g =
  match m g with
  | (Return a, g') => f a g'
  | (Raise e, g') => (Raise e, g')
  end.
Proof. reflexivity. Qed.

Lemma run_ret {A : Type} (a : A) (g : GlobalData) :
  (mret a : M A) g = (Return a, g).
Proof. reflexivity. Qed.

Lemma run_team_at_none {A : Type} (g : GlobalData) (i : nat)
    (f : Team -> M A) :
  Teams g !! i = None -> (team_at i ≫= f) g = (Raise IndexError, g).
Proof. intros H. unfold mbind, M_bind, team_at. now rewrite H. Qed.

(** *** The membership checks only shrink *)

Lemma sat_in_user_blacklist u i msg :
  sat (shrinks u) (in_user_blacklist i msg).
Proof.
  intros g. unfold in_user_blacklist.
  destruct (Teams g !! i) as [self|] eqn:Hi.
  - rewrite (run_team_at _ _ _ _ Hi).
    destruct (Userlist.message_in_list (user_blacklist self) msg) as [r l].
    cbn. now apply (shrinks_update u g i self).
  - rewrite (run_team_at_none _ _ _ Hi). reflexivity.
Qed.

Lemma sat_in_user_whitelist u i msg :
  sat (shrinks u) (in_user_whitelist i msg).
Proof.
  intros g. unfold in_user_whitelist.
  destruct (Teams g !! i) as [self|] eqn:Hi.
  - rewrite (run_team_at _ _ _ _ Hi).
    destruct (Userlist.message_in_list (user_whitelist self) msg) as [r l].
    cbn. now apply (shrinks_update u g i self).
  - rewrite (run_team_at_none _ _ _ Hi). reflexivity.
Qed.

Lemma sat_kick_out_if_member i msg :
  sat (shrinks (user msg)) (kick_out_if_member i msg).
Proof.
  intros g. unfold kick_out_if_member.
  destruct (Teams g !! i) as [self|] eqn:Hi.
  - rewrite (run_team_at _ _ _ _ Hi). unfold Userlist.mem.
    destruct (bool_decide_reflect (user msg ∈ members self)) as [Hin|Hout].
    + unfold evict. rewrite (run_team_at _ _ _ _ Hi). cbn.
      now apply shrinks_evict.
    + reflexivity.
  - rewrite (run_team_at_none _ _ _ Hi). reflexivity.
Qed.

Lemma sat_Team__belongs_to_team i msg :
  sat (shrinks (user msg)) (Team__belongs_to_team i msg).
Proof.
  pose proof (sat_in_user_whitelist (user msg) i msg).
  unfold Team__belongs_to_team. repeat sat_step.
Qed.

Lemma sat_Team_blocked_from_team i msg :
  sat (shrinks (user msg)) (Team_blocked_from_team i msg).
Proof.
  pose proof (sat_in_user_blacklist (user msg) i msg).
  pose proof (sat_kick_out_if_member i msg).
  unfold Team_blocked_from_team. repeat sat_step.
Qed.

Lemma sat_own_belongs_rule c i msg rule :
  own_belongs_rule c i msg = Some rule -> sat (shrinks (user msg)) rule.
Proof.
  intros H. destruct c; cbn in H; inversion H; subst rule; clear H;
    repeat sat_step.
Qed.

Lemma sat_own_blocked_rule c i msg rule :
  own_blocked_rule c i msg = Some rule -> sat (shrinks (user msg)) rule.
Proof.
  pose proof (sat_in_user_whitelist (user msg) i msg).
  pose proof (sat_kick_out_if_member i msg).
  intros H1. destruct c; cbn in H1; inversion H1; subst rule; clear H1;
    repeat sat_step.
Qed.

Lemma sat__belongs_to_team_chain cs i msg :
  sat (shrinks (user msg)) (_belongs_to_team_chain cs i msg).
Proof.
  induction cs as [|c cs IH]; cbn.
  - apply sat_Team__belongs_to_team.
  - destruct (own_belongs_rule c i msg) as [rule|] eqn:Hr; [|exact IH].
    pose proof (sat_own_belongs_rule _ _ _ _ Hr). repeat sat_step.
Qed.

Lemma sat_belongs_to_team i msg :
  sat (shrinks (user msg)) (belongs_to_team i msg).
Proof.
  unfold belongs_to_team, _belongs_to_team.
  pose proof (fun cs => sat__belongs_to_team_chain cs i msg).
  repeat sat_step. apply H.
Qed.

Lemma sat_blocked_from_team_chain cs i msg :
  sat (shrinks (user msg)) (blocked_from_team_chain cs i msg).
Proof.
  induction cs as [|c cs IH]; cbn.
  - apply sat_Team_blocked_from_team.
  - destruct (own_blocked_rule c i msg) as [rule|] eqn:Hr; [|exact IH].
    pose proof (sat_own_blocked_rule _ _ _ _ Hr). repeat sat_step.
Qed.

Lemma sat_blocked_from_team i msg :
  sat (shrinks (user msg)) (blocked_from_team i msg).
Proof.
  unfold blocked_from_team.
  pose proof (fun cs => sat_blocked_from_team_chain cs i msg).
  repeat sat_step. apply H.
Qed.

(** *** What "not blocked" tells *)

Lemma kick_out_then_true i msg g g' :
  (kick_out_if_member i msg ≫= λ _, mret true) g <> (Return false, g').
Proof.
  rewrite run_bind.
  destruct (kick_out_if_member i msg g) as [[[]|e] g2];
    unfold mret, M_ret; congruence.
Qed.

(** The base check lets a message pass for an exclusive team only when
    the registry has the user on no other team. *)
Lemma Team_blocked_from_team_false g i msg self g' :
  Teams g !! i = Some self -> exclusive self = true ->
  Team_blocked_from_team i msg g = (Return false, g') ->
  not_elsewhere g' i (user msg).
Proof.
  intros Hi Hex H. unfold Team_blocked_from_team in H.
  rewrite (run_team_at _ _ _ _ Hi), run_bind in H.
  pose proof (sat_in_user_blacklist (user msg) i msg g) as Hs.
  destruct (in_user_blacklist i msg g) as [[b|e] g1]; [|discriminate].
  cbn in Hs. rewrite run_bind in H. cbn [get] in H. rewrite Hex in H.
  destruct b; cbn [orb andb] in H.
  { exfalso. eapply kick_out_then_true, H. }
  unfold Users_get_team in H.
  destruct (Users g1 !! user msg) as [other|] eqn:Hu.
  - destruct (Nat.eqb_spec other i) as [->|Hne]; cbn in H.
    + inversion H; subst g'. intros j Hj. congruence.
    + exfalso. eapply kick_out_then_true, H.
  - inversion H; subst g'. intros j Hj. congruence.
Qed.

(** A chain that does not block went through a base check that did not
    block, and only shrank the state after it. *)
Lemma blocked_from_team_chain_false cs i msg :
  forall g g',
    blocked_from_team_chain cs i msg g = (Return false, g') ->
    exists g1, Team_blocked_from_team i msg g = (Return false, g1) /\
               shrinks (user msg) g1 g'.
Proof.
  induction cs as [|c cs IH]; intros g g' H; cbn in H.
  - exists g'. split; [exact H | reflexivity].
  - destruct (own_blocked_rule c i msg) as [rule|] eqn:Hr; [|now apply IH].
    rewrite run_bind in H.
    destruct (blocked_from_team_chain cs i msg g) as [[b|e] g2] eqn:Hc;
      [|discriminate].
    destruct b; [discriminate|].
    destruct (IH _ _ Hc) as (g1 & Hb & Hs).
    exists g1. split; [exact Hb|].
    transitivity g2; [exact Hs|].
    pose proof (sat_own_blocked_rule _ _ _ _ Hr g2) as Hrule.
    now rewrite H in Hrule.
Qed.

Lemma blocked_from_team_false g i msg self g' :
  Teams g !! i = Some self -> exclusive self = true ->
  blocked_from_team i msg g = (Return false, g') ->
  not_elsewhere g' i (user msg).
Proof.
  intros Hi Hex H. unfold blocked_from_team in H.
  rewrite (run_team_at _ _ _ _ Hi) in H.
  destruct (blocked_from_team_chain_false _ _ _ _ _ H) as (g1 & Hb & Hs).
  eapply shrinks_not_elsewhere; [exact Hs|].
  eapply Team_blocked_from_team_false; eauto.
Qed.

(** *** Granting membership *)




Lemma add_message_returns g i self msg :
  Teams g !! i = Some self -> fst (add_message i msg g) = Return tt.
Proof.
  intros Hi. unfold add_message. rewrite (run_team_at _ _ _ _ Hi).
  destruct (spam_protection self && existsb _ (message_queue self));
    [reflexivity|].
  rewrite run_bind. cbn [modify].
  destruct (exclusive self && negb (Userlist.mem (user msg) (members self)));
    reflexivity.
Qed.



(** *** One admission attempt *)

Lemma answer_dec (r : pyresult bool) (b : bool) :
  {r = Return b} + {r <> Return b}.
Proof.
  destruct r as [[]|e], b;
    first [left; reflexivity | right; discriminate].
Defined.

(** An attempt that does not admit only shrinks the state. *)
Lemma add_message_to_team_rejected msg team g r g' :
  __add_message_to_team msg team g = (r, g') -> r <> Return true ->
  shrinks (user msg) g g'.
Proof.
  intros H Hr. unfold __add_message_to_team in H.
  destruct (Teams g !! team) as [self|] eqn:Hi.
  2:{ rewrite (run_team_at_none _ _ _ Hi) in H. inversion H. reflexivity. }
  rewrite (run_team_at _ _ _ _ Hi) in H.
  destruct (Userlist.mem (channel msg) (channels self)
            && message_is_command (actionset self) msg).
  2:{ inversion H. reflexivity. }
  rewrite run_bind in H.
  pose proof (sat_blocked_from_team team msg g) as S1.
  destruct (blocked_from_team team msg g) as [[blocked|e] g1]; cbn in S1.
  2:{ inversion H; subst. exact S1. }
  destruct blocked.
  { inversion H; subst. exact S1. }
  rewrite run_bind in H.
  pose proof (sat_belongs_to_team team msg g1) as S2.
  destruct (belongs_to_team team msg g1) as [[belongs|e] g2]; cbn in S2.
  2:{ inversion H; subst. now transitivity g1. }
  destruct belongs.
  2:{ inversion H; subst. now transitivity g1. }
  exfalso. rewrite run_bind in H.
  assert (shrinks (user msg) g g2) as S by now transitivity g1.
  destruct (shrinks_lookup _ _ _ _ _ S Hi) as (self2 & Hi2 & _).
  pose proof (add_message_returns g2 team self2 msg Hi2) as Hret.
  destruct (add_message team msg g2) as [[[]|e] g3]; cbn in Hret;
    [|discriminate].
  inversion H; subst. now apply Hr.
Qed.

(** An attempt that admits went through the channel gate, the prefix
    check and the two membership checks, and ended in [add_message]. *)
Lemma add_message_to_team_accepted msg team g g' :
  __add_message_to_team msg team g = (Return true, g') ->
  exists self g2,
    Teams g !! team = Some self /\
    channel msg ∈ channels self /\
    message_is_command (actionset self) msg = true /\
    shrinks (user msg) g g2 /\
    (exclusive self = true -> not_elsewhere g2 team (user msg)) /\
    g' = snd (add_message team msg g2).
Proof.
  intros H. unfold __add_message_to_team in H.
  destruct (Teams g !! team) as [self|] eqn:Hi.
  2:{ rewrite (run_team_at_none _ _ _ Hi) in H. discriminate. }
  rewrite (run_team_at _ _ _ _ Hi) in H.
  unfold Userlist.mem in H.
  destruct (bool_decide_reflect (channel msg ∈ channels self)) as [Hch|];
    [|discriminate].
  destruct (message_is_command (actionset self) msg) eqn:Hcmd;
    [|discriminate].
  cbn [andb] in H. rewrite run_bind in H.
  pose proof (sat_blocked_from_team team msg g) as S1.
  destruct (blocked_from_team team msg g) as [[blocked|e] g1] eqn:Hb;
    cbn in S1; [|discriminate].
  destruct blocked; [discriminate|].
  rewrite run_bind in H.
  pose proof (sat_belongs_to_team team msg g1) as S2.
  destruct (belongs_to_team team msg g1) as [[belongs|e] g2]; cbn in S2;
    [|discriminate].
  destruct belongs; [|discriminate].
  rewrite run_bind in H.
  exists self, g2.
  split; [reflexivity|]. split; [exact Hch|]. split; [exact Hcmd|].
  split; [now transitivity g1|]. split.
  - intros Hex. eapply shrinks_not_elsewhere; [exact S2|].
    eapply blocked_from_team_false; eauto.
  - destruct (add_message team msg g2) as [[[]|e] g3]; cbn in *;
      inversion H; reflexivity.
Qed.


(** *** The scan and the router *)

(** The teams of [teams] are tried in order and each one answers no. *)
Inductive rejected_by (msg : ChatMessage)
  : list nat -> GlobalData -> GlobalData -> Prop :=
| rejected_nil g : rejected_by msg [] g g
| rejected_cons team rest g g1 g2 :
    __add_message_to_team msg team g = (Return false, g1) ->
    rejected_by msg rest g1 g2 ->
    rejected_by msg (team :: rest) g g2.

(** The order in which the router tries the teams: the registered team of
    the user first, if there is one, then all teams in registration
    order. *)
Definition attempts (g : GlobalData) (msg : ChatMessage) : list nat :=
  match Users_get_team g (user msg) with
  | Some team => team :: get_all_teams g
  | None => get_all_teams g
  end.

Lemma router_is_scan g msg :
  state_accept_input g && message_is_action g msg = true ->
  add_message_to_assigned_team msg g =
  look_for_a_fitting_team msg (attempts g msg) g.
Proof.
  intros Hgate. unfold add_message_to_assigned_team, attempts.
  rewrite run_bind. cbn [get]. rewrite Hgate.
  destruct (Users_get_team g (user msg)); reflexivity.
Qed.

Lemma rejected_by_shrinks msg teams g g' :
  rejected_by msg teams g g' -> shrinks (user msg) g g'.
Proof.
  induction 1 as [|team rest g g1 g2 H _ IH]; [reflexivity|].
  transitivity g1; [|exact IH].
  eapply add_message_to_team_rejected; [exact H | discriminate].
Qed.

Lemma look_for_all_rejected msg teams g g' :
  rejected_by msg teams g g' ->
  look_for_a_fitting_team msg teams g = (Return tt, g').
Proof.
  induction 1 as [|team rest g g1 g2 H _ IH]; [reflexivity|].
  cbn. rewrite run_bind, H. exact IH.
Qed.

Lemma look_for_first_accept msg pre team post g g1 g2 :
  rejected_by msg pre g g1 ->
  __add_message_to_team msg team g1 = (Return true, g2) ->
  look_for_a_fitting_team msg (pre ++ team :: post) g = (Return tt, g2).
Proof.
  induction 1 as [|t rest g g1 g1' H _ IH]; intros Hacc; cbn.
  - now rewrite run_bind, Hacc.
  - rewrite run_bind, H. now apply IH.
Qed.

(** Every run of the scan is of one of three kinds. *)
Lemma look_for_outcomes msg teams :
  forall g,
    (exists g', rejected_by msg teams g g') \/
    (exists pre team post g1 r g2,
       teams = pre ++ team :: post /\ rejected_by msg pre g g1 /\
       __add_message_to_team msg team g1 = (r, g2) /\ r <> Return false).
Proof.
  induction teams as [|team rest IH]; intros g.
  - left. exists g. constructor.
  - destruct (__add_message_to_team msg team g) as [r g1] eqn:H.
    destruct (answer_dec r false) as [->|Hr].
    + destruct (IH g1) as [(g' & Hrej) | (pre & t & post & g2 & r & g3 &
                                         -> & Hrej & Ht & Hr)].
      * left. exists g'. econstructor; eauto.
      * right. exists (team :: pre), t, post, g2, r, g3.
        repeat split; auto. econstructor; eauto.
    + right. exists [], team, rest, g, r, g1.
      repeat split; auto. constructor.
Qed.



(** *** The router *)

(** What is left of the state when a message of [u] found no team: no
    queue has changed; members sets and the registry can have lost [u]
    (an eviction by [blocked_from_team]) and nothing else. *)
Definition nothing_delivered (u : string) (g g' : GlobalData) : Prop :=
  length (Teams g') = length (Teams g) /\
  (forall i t, Teams g !! i = Some t ->
     exists t', Teams g' !! i = Some t' /\
                message_queue t' = message_queue t /\
                action_queue t' = action_queue t /\
                members t' ⊆ members t /\
                members t ∖ {[u]} ⊆ members t') /\
  (forall v j, Users g' !! v = Some j -> Users g !! v = Some j) /\
  (forall v, v <> u -> Users g' !! v = Users g !! v).

Lemma shrinks_nothing_delivered u g g' :
  shrinks u g g' -> nothing_delivered u g g'.
Proof.
  intros S. split; [apply (shr_length _ _ _ S)|]. split; [|split].
  - intros i t Hi.
    destruct (shrinks_lookup _ _ _ _ _ S Hi) as (t' & Hi' & E & Hsub & Hsup).
    destruct (erase_queues _ _ E) as [Hm Ha].
    exists t'. auto.
  - apply (shr_users _ _ _ S).
  - apply (shr_others _ _ _ S).
Qed.

(** C5, as amended.  [add_message_to_assigned_team] does nothing unless
    the accept-input toggle is on and the text starts with a registered
    action prefix.  Otherwise it tries the team the registry has for the
    user first and then all teams in registration order; the first team
    that answers yes gets the message through [add_message] (after the
    channel gate, the prefix check and the two membership checks), and no
    later team is tried.  If no team accepts, the message reaches no
    queue and nobody becomes a member; the only changes are cache updates
    of user lists and the eviction of the sender by [blocked_from_team]. *)
Theorem router_admission (g : GlobalData) (msg : ChatMessage) :
  (state_accept_input g && message_is_action g msg = false ->
   add_message_to_assigned_team msg g = (Return tt, g))
  /\ (state_accept_input g && message_is_action g msg = true ->
      ((exists g', rejected_by msg (attempts g msg) g g') \/
       (exists pre team post g1 r g2,
          attempts g msg = pre ++ team :: post /\
          rejected_by msg pre g g1 /\
          __add_message_to_team msg team g1 = (r, g2) /\
          r <> Return false))
      /\ (forall pre team post g1 g2,
            attempts g msg = pre ++ team :: post ->
            rejected_by msg pre g g1 ->
            __add_message_to_team msg team g1 = (Return true, g2) ->
            add_message_to_assigned_team msg g = (Return tt, g2) /\
            exists self g1',
              Teams g1 !! team = Some self /\
              channel msg ∈ channels self /\
              message_is_command (actionset self) msg = true /\
              nothing_delivered (user msg) g1 g1' /\
              g2 = snd (add_message team msg g1'))
      /\ (forall g',
            rejected_by msg (attempts g msg) g g' ->
            add_message_to_assigned_team msg g = (Return tt, g') /\
            nothing_delivered (user msg) g g')).
Proof.
  split.
  - intros Hgate. unfold add_message_to_assigned_team.
    rewrite run_bind. cbn [get]. now rewrite Hgate.
  - intros Hgate. rewrite (router_is_scan _ _ Hgate).
    split; [apply look_for_outcomes|]. split.
    + intros pre team post g1 g2 -> Hrej Hacc.
      split; [eapply look_for_first_accept; eauto|].
      destruct (add_message_to_team_accepted _ _ _ _ Hacc)
        as (self & g1' & Hi & Hch & Hcmd & S & _ & ->).
      exists self, g1'. repeat split; auto;
        apply (shrinks_nothing_delivered _ _ _ S).
    + intros g' Hrej. split; [now apply look_for_all_rejected|].
      apply shrinks_nothing_delivered. eapply rejected_by_shrinks; eauto.
Qed.

(** One exclusive team on [#chan], input accepted. *)
Definition solo_globals : GlobalData :=
  {| Teams := [ example_team [Default_Team] "Red" [] ];
     Users := ∅;
     action_prefixes := {[ "+" ]};
     state_accept_input := true;
     state_random_action := false |}.

(** [bob] has played on Red and was then put on Red's blacklist. *)
Definition bob_blacklisted : GlobalData :=
  snd (cmd_addBlacklist 0 "bob"
         (snd (add_message_to_assigned_team (plus_left "bob") solo_globals))).

Definition bob_again : ChatMessage :=
  {| msg_id := "4"; msg_type := "pubmsg"; user := "bob"; channel := "#chan";
     message := "+left 200"; tags := ∅ |}.

Lemma router_admission_witness :
  add_message_to_assigned_team (plus_left "bob") solo_globals =
    (Return tt, snd (__add_message_to_team (plus_left "bob") 0 solo_globals))
  /\ exists self g1',
       Teams solo_globals !! 0%nat = Some self /\
       channel (plus_left "bob") ∈ channels self /\
       message_is_command (actionset self) (plus_left "bob") = true /\
       nothing_delivered "bob" solo_globals g1' /\
       snd (__add_message_to_team (plus_left "bob") 0 solo_globals)
         = snd (add_message 0 (plus_left "bob") g1').
Proof.
  refine (proj1 (proj2 (proj2 (router_admission solo_globals (plus_left "bob"))
                          _))
            [] 0%nat [] solo_globals _ _ _ _).
  - vm_compute. reflexivity.
  - vm_compute. reflexivity.
  - constructor.
  - vm_compute. reflexivity.
Defined.

(** C5 as stated fails where it says "no side effect": no team accepts
    the message of the blacklisted member, yet the router run removes him
    from Red's members and from the registry. *)
Lemma rejected_message_evicts_counterexample :
  let g := bob_blacklisted in
  let g' := snd (add_message_to_assigned_team bob_again g) in
  rejected_by bob_again (attempts g bob_again) g g' /\
  Users g !! "bob" = Some 0%nat /\
  Users g' !! "bob" = None /\
  (members <$> Teams g !! 0%nat) = Some {[ "bob" ]} /\
  (members <$> Teams g' !! 0%nat) = Some ∅ /\
  g' <> g.
Proof.
  cbv zeta.
  assert (Users bob_blacklisted !! "bob" = Some 0%nat) as H1
    by (vm_compute; reflexivity).
  assert (Users (snd (add_message_to_assigned_team bob_again bob_blacklisted))
            !! "bob" = None) as H2 by (vm_compute; reflexivity).
  split; [|split; [exact H1|split; [exact H2|]]].
  - replace (attempts bob_blacklisted bob_again) with [0%nat; 0%nat]
      by (vm_compute; reflexivity).
    eapply rejected_cons; [vm_compute; reflexivity|].
    eapply rejected_cons; [vm_compute; reflexivity|].
    match goal with |- rejected_by _ [] ?a ?b =>
      replace b with a by (vm_compute; reflexivity) end.
    constructor.
  - split; [vm_compute; reflexivity|]. split; [vm_compute; reflexivity|].
    intros E. rewrite E in H2. congruence.
Qed.

(** *** The exclusive-membership invariant *)






(** [clear_team_members] empties the members sets and leaves the registry
    as it is: after it the registry still has [bob] on Red. *)
Example clear_team_members_keeps_registry :
  let g := snd (clear_team_members
                  (snd (add_message_to_assigned_team (plus_left "bob")
                                                      example_globals))) in
  (members <$> Teams g !! 0%nat) = Some ∅ /\
  Users g !! "bob" = Some 0%nat.
Proof. vm_compute. split; reflexivity. Qed.

(** *** Two runs from start to end *)

(** A new user writes [+left] where an exclusive team listens: the user
    becomes a member, the translate step turns the message into one key
    press with the default timing and empties the message queue, and the
    execute step hands that press to the input server. *)
Example new_user_plays :
  let g := snd (add_message_to_assigned_team (plus_left "bob")
                                              example_globals) in
  let press :=
    press_multiple_Keys BaseMultikey.BasicKeyboardHandler 0
      [ {| BaseMultikey.FuncArgs.key := "a";
           BaseMultikey.FuncArgs.delay := 0;
           BaseMultikey.FuncArgs.duration := 100 |} ] in
  exists red red1 red2 trace1 trace2,
    Teams g !! 0%nat = Some red /\
    members red = {[ "bob" ]} /\
    Users g !! "bob" = Some 0%nat /\
    message_queue red = [plus_left "bob"] /\
    _translate_queued_message red = (Return tt, red1, trace1) /\
    message_queue red1 = [] /\
    action_queue red1 = [(plus_left "bob", press)] /\
    _execute_queued_action g red1 "" false = (Return tt, red2, trace2) /\
    action_queue red2 = [] /\
    trace2 = [Acquire action_queue_lock; Log (plus_left "bob");
              Release action_queue_lock; Execute press].
Proof.
  cbv zeta. do 5 eexists.
  split; [vm_compute; reflexivity|].
  split; [vm_compute; reflexivity|].
  split; [vm_compute; reflexivity|].
  split; [vm_compute; reflexivity|].
  split; [vm_compute; reflexivity|].
  split; [vm_compute; reflexivity|].
  split; [vm_compute; reflexivity|].
  split; [vm_compute; reflexivity|].
  split; vm_compute; reflexivity.
Qed.

(** The same user then writes to the second exclusive team: blocked,
    because the registry has him on the first; nothing is queued and
    nobody's membership changes. *)
Example member_of_red_is_blocked_from_blue :
  let g := snd (add_message_to_assigned_team (plus_left "bob")
                                              example_globals) in
  let '(answer, g') := __add_message_to_team bob_again 1 g in
  answer = Return false /\
  Users g' = Users g /\
  (members <$> Teams g') = (members <$> Teams g) /\
  (message_queue <$> Teams g') = (message_queue <$> Teams g) /\
  (action_queue <$> Teams g') = (action_queue <$> Teams g).
Proof. vm_compute. repeat split; reflexivity. Qed.

End RouterFacts.

(* ================================================================== *)
(** ** clamp: the order of the bounds *)
(* ================================================================== *)
Module ClampProps.
Import HelpersNative HelpersNativeFacts.

(** X1.  [clamp] does not care in which order its two bounds are given:
    [clamp a v b = clamp b v a]; the result always lies between the
    smaller and the larger bound, and it is [v] itself exactly when [v]
    lies between them. *)
Theorem clamp_bound_order_irrelevant (a v b : Z) :
  clamp a v b = clamp b v a /\
  Z.min a b <= clamp a v b <= Z.max a b /\
  (clamp a v b = v <-> Z.min a b <= v <= Z.max a b).
Proof.
  split; [|split].
  - unfold clamp.
    destruct (a >? b) eqn:E1, (b >? a) eqn:E2; lia.
  - apply clamp_between.
  - unfold clamp. destruct (a >? b) eqn:E; lia.
Qed.

End ClampProps.

(* ================================================================== *)
(** ** UserList: adding, removing, the cache, the tiers *)
(* ================================================================== *)
Module UserlistProps.
Import Chatmsg Userlist UserlistFacts.

Lemma mem_true (x : string) (s : gset string) : x ∈ s -> mem x s = true.
Proof. intros H. unfold mem. now apply bool_decide_eq_true. Qed.

Lemma mem_false (x : string) (s : gset string) : x ∉ s -> mem x s = false.
Proof. intros H. unfold mem. now apply bool_decide_eq_false. Qed.

(** The subgroup checks read the group sets only. *)
Lemma subgroups_of_groups (L1 L2 : UserList) (msg : ChatMessage) :
  special_groups L1 = special_groups L2 ->
  is_in_any_subgroup L1 msg = is_in_any_subgroup L2 msg.
Proof.
  intros Hg.
  unfold is_in_any_subgroup, subgroup_checks, is_broadcaster, is_mod,
    is_vip, is_subscribed, is_tier3sub, is_tier2sub, is_tier1sub,
    is_partner, is_founder, is_staff, is_prime, is_turbo, is_user.
  now rewrite Hg.
Qed.

(** X2.  An entry that is not a special group token is added as a fixed
    user under its lower-cased name: afterwards every message of that user
    is in the list, and so is the bare user name, with caching on or
    off. *)
Theorem added_user_is_in_list
    (L : UserList) (entry : string) (chans : gset string)
    (msg : ChatMessage) :
  Re.findall REGEX (PyStr.lower entry) = [] ->
  user msg = PyStr.lower entry ->
  exists L',
    add_to_list L entry chans = (Return tt, L') /\
    PyStr.lower entry ∈ fixed_users L' /\
    fst (message_in_list L' msg) = Return true /\
    fst (user_in_list L' (user msg)) = Some true.
Proof.
  intros Hplain Hu. unfold add_to_list. rewrite Hplain.
  eexists. split; [reflexivity|].
  cbn [fixed_users set_known set_included set_fixed].
  split; [set_solver|].
  unfold message_in_list, user_in_list.
  cbn [cache_users known_users included_users fixed_users
       set_known set_included set_fixed].
  rewrite Hu.
  rewrite !mem_true by set_solver.
  destruct (cache_users L); split; reflexivity.
Qed.

Lemma added_user_is_in_list_witness :
  exists L',
    add_to_list mods_of_chan "Bob" ∅ = (Return tt, L') /\
    PyStr.lower "Bob" ∈ fixed_users L' /\
    fst (message_in_list L' bob_later) = Return true /\
    fst (user_in_list L' (user bob_later)) = Some true.
Proof.
  apply (added_user_is_in_list mods_of_chan "Bob" ∅ bob_later);
    vm_compute; reflexivity.
Defined.

(** The cache is coherent when every user it counts as included is also
    marked as known. *)
Definition coherent (L : UserList) : Prop :=
  included_users L ⊆ known_users L.

(** X3.  With caching on and a coherent cache, the first verdict for a
    user sticks: once [message_in_list] has answered for a message, it
    gives the same answer for every later message of the same user,
    whatever its channel and tags, and does not change the list any more;
    the cache stays coherent. *)
Theorem cached_verdict_repeats
    (L L' : UserList) (msg msg' : ChatMessage) (b : bool) :
  cache_users L = true ->
  coherent L ->
  message_in_list L msg = (Return b, L') ->
  user msg' = user msg ->
  (message_in_list L' msg' = (Return b, L')) /\ coherent L'.
Proof.
  unfold coherent. intros Hc Hcoh H Hu. unfold message_in_list in H.
  rewrite Hc in H. cbn [andb] in H.
  destruct (mem (user msg) (known_users L)) eqn:Hk.
  - injection H as <- <-. split; [|assumption]. unfold message_in_list.
    now rewrite Hc, Hu, Hk.
  - assert (user msg ∉ included_users L) as Hni.
    { intros Hin. apply Hcoh in Hin. apply mem_true in Hin. congruence. }
    assert (forall inc,
              message_in_list (remember L (user msg) inc) msg' =
              (Return inc, remember L (user msg) inc) /\
              included_users (remember L (user msg) inc) ⊆
              known_users (remember L (user msg) inc)) as Hagain.
    { intros inc. unfold message_in_list, remember.
      cbn [cache_users known_users included_users set_known].
      rewrite Hu. rewrite (mem_true _ ({[user msg]} ∪ _)) by set_solver.
      destruct inc; cbn [cache_users included_users set_included andb].
      - rewrite Hc, mem_true by set_solver. split; [reflexivity|set_solver].
      - rewrite Hc, mem_false by assumption.
        split; [reflexivity|set_solver]. }
    destruct (mem (user msg) (fixed_users L)).
    + injection H as <- <-. apply Hagain.
    + destruct (is_in_any_subgroup L msg) as [[]|]; try discriminate H;
        injection H as <- <-; apply Hagain.
Qed.

Lemma cached_verdict_repeats_witness :
  message_in_list (snd (message_in_list mods_of_chan bob_as_mod)) bob_later =
    (Return true, snd (message_in_list mods_of_chan bob_as_mod)) /\
  coherent (snd (message_in_list mods_of_chan bob_as_mod)).
Proof.
  apply (cached_verdict_repeats mods_of_chan _ bob_as_mod bob_later true).
  - reflexivity.
  - unfold coherent. vm_compute. set_solver.
  - vm_compute. reflexivity.
  - reflexivity.
Defined.

(** The coherence asked for above is not kept by [add_to_list] of a group
    token, which empties [known_users] and keeps [included_users]: a user
    once admitted as a moderator and then seen without the moderator flag
    is refused at that message and admitted again at the next one. *)
Example verdict_flips_after_group_change :
  let L1 := snd (message_in_list mods_of_chan bob_as_mod) in
  let L2 := snd (add_to_list L1 "$vips[#chan]" ∅) in
  let L3 := snd (message_in_list L2 bob_later) in
  fst (message_in_list L2 bob_later) = Return false /\
  fst (message_in_list L3 bob_later) = Return true.
Proof. vm_compute. split; reflexivity. Qed.

(** X4.  [user_in_list] never contradicts [message_in_list]: when it gives
    a definite answer for a user name, [message_in_list] gives that answer
    for every message of the user, with the same effect on the list. *)
Theorem user_in_list_agrees
    (L L' : UserList) (u : string) (b : bool) (msg : ChatMessage) :
  user_in_list L u = (Some b, L') ->
  user msg = u ->
  message_in_list L msg = (Return b, L').
Proof.
  intros H <-. unfold user_in_list in H. unfold message_in_list.
  destruct (cache_users L && mem (user msg) (known_users L)).
  - now injection H as <- <-.
  - destruct (mem (user msg) (fixed_users L)); [|discriminate H].
    now injection H as <- <-.
Qed.

Lemma user_in_list_agrees_witness :
  message_in_list (snd (add_to_list mods_of_chan "bob" ∅)) bob_later =
  (Return true, snd (add_to_list mods_of_chan "bob" ∅)).
Proof.
  apply (user_in_list_agrees _ _ "bob" true bob_later);
    vm_compute; reflexivity.
Defined.

(** X5.  Removing a user that is not a group token takes the name out of
    the fixed users and out of the cache, so the next message of that user
    is judged by the special groups alone: the user is still in the list
    when a group admits the message, and an exception of a group check
    comes through. *)
Theorem removed_user_is_rechecked
    (L : UserList) (entry : string) (chans : gset string)
    (msg : ChatMessage) :
  Re.findall REGEX (PyStr.lower entry) = [] ->
  user msg = PyStr.lower entry ->
  exists L',
    remove_from_list L entry chans = (Return tt, L') /\
    (PyStr.lower entry ∉ fixed_users L') /\
    special_groups L' = special_groups L /\
    fst (message_in_list L' msg) = is_in_any_subgroup L msg.
Proof.
  intros Hplain Hu. unfold remove_from_list. rewrite Hplain.
  eexists. split; [reflexivity|].
  cbn [fixed_users special_groups set_known set_included set_fixed].
  split; [set_solver|]. split; [reflexivity|].
  unfold message_in_list.
  cbn [cache_users known_users included_users fixed_users
       set_known set_included set_fixed].
  rewrite Hu. rewrite !mem_false by set_solver. rewrite andb_false_r.
  match goal with
  | |- context [is_in_any_subgroup ?L' msg] =>
      rewrite (subgroups_of_groups L' L msg) by reflexivity
  end.
  destruct (is_in_any_subgroup L msg) as [[]|]; reflexivity.
Qed.

Lemma removed_user_is_rechecked_witness :
  exists L',
    remove_from_list (snd (add_to_list mods_of_chan "bob" ∅)) "Bob" ∅ =
      (Return tt, L') /\
    (PyStr.lower "Bob" ∉ fixed_users L') /\
    special_groups L' =
      special_groups (snd (add_to_list mods_of_chan "bob" ∅)) /\
    fst (message_in_list L' bob_as_mod) =
      is_in_any_subgroup (snd (add_to_list mods_of_chan "bob" ∅)) bob_as_mod.
Proof.
  apply (removed_user_is_rechecked _ "Bob" ∅ bob_as_mod);
    vm_compute; reflexivity.
Defined.

(** Pointwise inclusion of the thirteen group sets. *)
Definition groups_le (g g' : SpecialGroupsContainer) : Prop :=
  broadcaster g ⊆ broadcaster g' /\ mods g ⊆ mods g' /\ vips g ⊆ vips g' /\
  subs g ⊆ subs g' /\ tier3subs g ⊆ tier3subs g' /\
  tier2subs g ⊆ tier2subs g' /\ tier1subs g ⊆ tier1subs g' /\
  partners g ⊆ partners g' /\ founders g ⊆ founders g' /\
  staff g ⊆ staff g' /\ prime g ⊆ prime g' /\ turbo g ⊆ turbo g' /\
  users g ⊆ users g'.

Lemma groups_le_refl (g : SpecialGroupsContainer) : groups_le g g.
Proof. unfold groups_le. repeat split; reflexivity. Qed.

Lemma groups_le_trans (g1 g2 g3 : SpecialGroupsContainer) :
  groups_le g1 g2 -> groups_le g2 g3 -> groups_le g1 g3.
Proof. unfold groups_le. intros H1 H2. set_solver. Qed.

Lemma mapping_update_grows (g g' : SpecialGroupsContainer) (name : string)
    (f : gset string -> gset string) :
  (forall s, s ⊆ f s) ->
  mapping_update g name f = Return g' ->
  groups_le g g'.
Proof.
  intros Hf H. destruct g. unfold mapping_update in H.
  repeat (destruct (String.eqb name _);
          [injection H as <-; unfold groups_le; cbn;
           repeat (split; [first [apply Hf | reflexivity]|]);
           first [apply Hf | reflexivity] |]).
  discriminate H.
Qed.

Lemma mapping_update_known (g : SpecialGroupsContainer) (name : string)
    (f : gset string -> gset string) :
  In name mapping_keys -> exists g', mapping_update g name f = Return g'.
Proof.
  intros Hin. destruct g. unfold mapping_update.
  cbn in Hin.
  repeat (destruct Hin as [<- | Hin]; [cbn; eauto|]).
  destruct Hin.
Qed.

Lemma mapping_update_unknown (g : SpecialGroupsContainer) (name : string)
    (f : gset string -> gset string) :
  ~ In name mapping_keys -> mapping_update g name f = Raise KeyError.
Proof.
  intros Hnot. destruct g. unfold mapping_update.
  repeat match goal with
         | |- context [String.eqb name ?k] =>
             destruct (String.eqb_spec name k) as [->|_];
             [exfalso; apply Hnot; cbn; tauto|]
         end.
  reflexivity.
Qed.

Lemma import_groups_grows (groups : list (string * list string))
    (g g' : SpecialGroupsContainer) (r : pyresult unit) :
  import_groups g groups = (r, g') -> groups_le g g'.
Proof.
  revert g. induction groups as [|[name chans] rest IH]; intros g H; cbn in H.
  - injection H as <- <-. apply groups_le_refl.
  - destruct (mapping_update g name _) as [g1|e] eqn:Hup.
    + eapply groups_le_trans; [|apply IH; exact H].
      refine (mapping_update_grows _ _ _ _ _ Hup).
      intros s. cbn beta. rewrite add_all. set_solver.
    + injection H as <- <-. apply groups_le_refl.
Qed.

(** X6.  [import_dict] only ever adds: whatever the dictionary holds and
    whether or not the import raises, every fixed user and every channel
    of every special group that the list had before is still there
    afterwards, and every user named by the dictionary is a fixed user. *)
Theorem import_dict_only_adds (L : UserList) (d : UserListDict) :
  fixed_users L ⊆ fixed_users (snd (import_dict L d)) /\
  (forall u, In u (dict_users d) -> u ∈ fixed_users (snd (import_dict L d))) /\
  groups_le (special_groups L) (special_groups (snd (import_dict L d))) /\
  cache_users (snd (import_dict L d)) = cache_users L.
Proof.
  unfold import_dict.
  cbn [special_groups set_fixed].
  destruct (import_groups (special_groups L) (dict_groups d)) as [r g] eqn:Hg.
  apply import_groups_grows in Hg.
  destruct r; cbn [snd fixed_users special_groups cache_users set_known
                   set_groups set_fixed]; rewrite add_all;
    (split; [set_solver|]);
    (split; [intros u Hu; apply elem_of_union_l, elem_of_list_to_set;
             now apply list_elem_of_In|]);
    (split; [exact Hg | reflexivity]).
Qed.

Lemma import_groups_known (groups : list (string * list string))
    (g : SpecialGroupsContainer) :
  Forall (fun entry => In (fst entry) mapping_keys) groups ->
  exists g', import_groups g groups = (Return tt, g').
Proof.
  intros Hall. revert g.
  induction Hall as [|[name chans] rest Hin _ IH]; intros g; cbn.
  - eauto.
  - destruct (mapping_update_known g name
                (fun s => foldl (fun acc chan => {[chan]} ∪ acc) s chans) Hin)
      as [g1 ->].
    apply IH.
Qed.

Lemma import_groups_app (before rest : list (string * list string))
    (g g1 : SpecialGroupsContainer) :
  import_groups g before = (Return tt, g1) ->
  import_groups g (before ++ rest) = import_groups g1 rest.
Proof.
  revert g. induction before as [|[name chans] before IH]; intros g H;
    cbn in H |- *.
  - now injection H as <-.
  - destruct (mapping_update g name _) as [g2|e]; [|discriminate H].
    now apply IH.
Qed.

(** X7.  A group name that is not one of the thirteen special groups makes
    [import_dict] raise [KeyError] at that entry: the users of the
    dictionary and the groups before the entry are imported by then, the
    entries after it are not looked at, and the cache of known users is
    not emptied. *)
Theorem import_dict_unknown_group
    (L : UserList) (us : list string)
    (before after : list (string * list string))
    (name : string) (chans : list string) :
  Forall (fun entry => In (fst entry) mapping_keys) before ->
  ~ In name mapping_keys ->
  exists L',
    import_dict L {| dict_users := us;
                     dict_groups := before ++ (name, chans) :: after |} =
      (Raise KeyError, L') /\
    fixed_users L' = list_to_set us ∪ fixed_users L /\
    import_groups (special_groups L) before =
      (Return tt, special_groups L') /\
    known_users L' = known_users L /\
    included_users L' = included_users L.
Proof.
  intros Hbefore Hname.
  destruct (import_groups_known before (special_groups L) Hbefore)
    as [g1 Hg1].
  unfold import_dict. cbn [dict_users dict_groups special_groups set_fixed].
  rewrite (import_groups_app _ _ _ _ Hg1). cbn [import_groups].
  rewrite mapping_update_unknown by assumption.
  eexists. split; [reflexivity|].
  cbn [fixed_users special_groups known_users included_users set_groups
       set_fixed].
  rewrite add_all. auto.
Qed.

Lemma import_dict_unknown_group_witness :
  exists L',
    import_dict mods_of_chan
      {| dict_users := ["alice"];
         dict_groups := [("$vips", ["#chan"])] ++
                        ("$everyone", ["#chan"]) :: [("$subs", ["#chan"])] |} =
      (Raise KeyError, L') /\
    fixed_users L' = list_to_set ["alice"] ∪ fixed_users mods_of_chan /\
    import_groups (special_groups mods_of_chan) [("$vips", ["#chan"])] =
      (Return tt, special_groups L') /\
    known_users L' = known_users mods_of_chan /\
    included_users L' = included_users mods_of_chan.
Proof.
  apply (import_dict_unknown_group mods_of_chan ["alice"]
           [("$vips", ["#chan"])] [("$subs", ["#chan"])]
           "$everyone" ["#chan"]).
  - constructor; [cbn; auto 20 | constructor].
  - cbn. intros H. repeat (destruct H as [H|H]; [discriminate H|]).
    exact H.
Defined.

(** The first [subscriber/<code>] badge settles the tier for all three
    tier checks at once. *)
Lemma tier_scan_exclusive (t1 t2 : Z) (badges : list string) :
  tier_scan t1 badges = Return true ->
  tier_scan t2 badges = Return true ->
  t1 = t2.
Proof.
  induction badges as [|badge rest IH]; cbn; [discriminate|].
  destruct (PyStr.index (PyStr.split "/" badge) 0) as [first|e];
    cbn; [|discriminate].
  destruct (String.eqb first "subscriber"); [|exact IH].
  destruct (PyStr.index (PyStr.split "/" badge) 1) as [code|e];
    cbn; [|discriminate].
  destruct (PyStr.int code) as [n|e]; cbn; [|discriminate].
  intros H1 H2. injection H1 as H1. injection H2 as H2. lia.
Qed.

Lemma tier_check_true (s : gset string) (t : Z) (msg : ChatMessage) :
  tier_check s t msg = Return true ->
  channel msg ∈ s /\
  flag_set "subscriber" msg = true /\
  tier_scan t (PyStr.split "," (tags_get msg "badges" "")) = Return true.
Proof.
  unfold tier_check, group_check, mem. intros H.
  destruct (nonempty s); [|discriminate H].
  destruct (bool_decide (channel msg ∈ s)) eqn:Hin; [|discriminate H].
  apply bool_decide_eq_true in Hin.
  destruct (flag_set "subscriber" msg); [|discriminate H].
  auto.
Qed.

(** X8.  The three subscription tiers exclude one another: whatever
    channels the tier groups hold, no message passes two of the checks
    [is_tier3sub], [is_tier2sub] and [is_tier1sub], and a message that
    passes one of them has its subscriber flag set. *)
Theorem tiers_exclude_each_other (L : UserList) (msg : ChatMessage) :
  ~ (is_tier3sub L msg = Return true /\ is_tier2sub L msg = Return true) /\
  ~ (is_tier3sub L msg = Return true /\ is_tier1sub L msg = Return true) /\
  ~ (is_tier2sub L msg = Return true /\ is_tier1sub L msg = Return true) /\
  (is_tier3sub L msg = Return true \/ is_tier2sub L msg = Return true \/
   is_tier1sub L msg = Return true -> flag_set "subscriber" msg = true).
Proof.
  unfold is_tier3sub, is_tier2sub, is_tier1sub.
  split; [|split; [|split]].
  - intros [H1 H2]. apply tier_check_true in H1 as (_ & _ & H1).
    apply tier_check_true in H2 as (_ & _ & H2).
    now pose proof (tier_scan_exclusive _ _ _ H1 H2).
  - intros [H1 H2]. apply tier_check_true in H1 as (_ & _ & H1).
    apply tier_check_true in H2 as (_ & _ & H2).
    now pose proof (tier_scan_exclusive _ _ _ H1 H2).
  - intros [H1 H2]. apply tier_check_true in H1 as (_ & _ & H1).
    apply tier_check_true in H2 as (_ & _ & H2).
    now pose proof (tier_scan_exclusive _ _ _ H1 H2).
  - intros [H | [H | H]]; now apply tier_check_true in H as (_ & ? & _).
Qed.

(** No special group of the list names this channel. *)
Definition channel_in_no_group (L : UserList) (chan : string) : Prop :=
  forall group_name channels,
    mapping_get (special_groups L) group_name = Return channels ->
    chan ∉ channels.

Lemma group_check_elsewhere {A : Type} (s : gset string) (msg : ChatMessage)
    (test otherwise : A) :
  channel msg ∉ s -> group_check s msg test otherwise = otherwise.
Proof.
  intros Hout. unfold group_check. rewrite (mem_false _ _ Hout).
  now destruct (nonempty s).
Qed.

(** X28.  The special groups work per channel: a message from a channel
    that none of the thirteen groups of the list names is admitted by no
    group, whatever its tags and badges, and no group check raises on it
    (the tier checks do not get to read the badges).  Such a message is
    in the list only through the fixed users or the cache. *)
Theorem groups_admit_only_their_channels (L : UserList) (msg : ChatMessage) :
  channel_in_no_group L (channel msg) ->
  is_in_any_subgroup L msg = Return false /\
  (cache_users L && mem (user msg) (known_users L) = false ->
   fst (message_in_list L msg) = Return (mem (user msg) (fixed_users L))).
Proof.
  intros Hno.
  assert (is_in_any_subgroup L msg = Return false) as Hsub.
  { unfold is_in_any_subgroup, subgroup_checks, any_check,
      is_broadcaster, is_mod, is_vip, is_subscribed, is_tier3sub,
      is_tier2sub, is_tier1sub, tier_check, is_partner, is_founder,
      is_staff, is_prime, is_turbo, is_user.
    pose proof (Hno "$broadcaster" _ eq_refl).
    pose proof (Hno "$mods" _ eq_refl).
    pose proof (Hno "$vips" _ eq_refl).
    pose proof (Hno "$subs" _ eq_refl).
    pose proof (Hno "$tier3subs" _ eq_refl).
    pose proof (Hno "$tier2subs" _ eq_refl).
    pose proof (Hno "$tier1subs" _ eq_refl).
    pose proof (Hno "$partners" _ eq_refl).
    pose proof (Hno "$founders" _ eq_refl).
    pose proof (Hno "$staff" _ eq_refl).
    pose proof (Hno "$prime" _ eq_refl).
    pose proof (Hno "$turbo" _ eq_refl).
    pose proof (Hno "$users" _ eq_refl).
    rewrite !group_check_elsewhere by assumption.
    rewrite (mem_false _ (users (special_groups L))) by assumption.
    cbn. now destruct (nonempty (users (special_groups L))). }
  split; [exact Hsub|].
  intros Hc. unfold message_in_list. rewrite Hc, Hsub.
  now destruct (mem (user msg) (fixed_users L)).
Qed.

Lemma groups_admit_only_their_channels_witness :
  is_in_any_subgroup mods_of_chan
    {| msg_id := "3"; msg_type := "pubmsg"; user := "bob";
       channel := "#other"; message := "+left";
       tags := {[ "mod" := "1" ]} |} = Return false /\
  (cache_users mods_of_chan &&
   mem "bob" (known_users mods_of_chan) = false ->
   fst (message_in_list mods_of_chan
          {| msg_id := "3"; msg_type := "pubmsg"; user := "bob";
             channel := "#other"; message := "+left";
             tags := {[ "mod" := "1" ]} |}) =
   Return (mem "bob" (fixed_users mods_of_chan))).
Proof.
  apply (groups_admit_only_their_channels mods_of_chan
           {| msg_id := "3"; msg_type := "pubmsg"; user := "bob";
              channel := "#other"; message := "+left";
              tags := {[ "mod" := "1" ]} |}).
  intros group_name channels H. unfold mapping_get in H.
  repeat (destruct (String.eqb group_name _);
          [injection H as <-; vm_compute; set_solver|]).
  discriminate H.
Defined.

End UserlistProps.

(* ================================================================== *)
(** ** Translation: exceptions and defaults *)
(* ================================================================== *)
Module TranslationProps.
Import Chatmsg HelpersNative BaseMultikey ReFacts HelpersNativeFacts
       BaseMultikeyFacts.



Lemma gamepad_lookup_is_caught key_dict verb_param e :
  Gamepad_translate_verb_parameters_to_key key_dict verb_param = Raise e ->
  caught e = true.
Proof. discriminate. Qed.






End TranslationProps.

(* ================================================================== *)
(** ** The macro table, validation and the gamepad verb table *)
(* ================================================================== *)
Module MacrosProps.
Import Chatmsg HelpersNative BaseMultikey Macros HelpersNativeFacts.

Lemma prefix_append (p s : string) : String.prefix p (p +:+ s) = true.
Proof.
  induction p as [|c p IH]; simpl; [now destruct s|].
  destruct (Ascii.ascii_dec c c); [exact IH | congruence].
Qed.

#[local] Instance append_inj (p : string) :
  Inj (=) (=) (fun key => p +:+ key).
Proof.
  intros a b. induction p as [|c p IH]; simpl; [auto|].
  intros H. injection H as H. auto.
Qed.

(** The prefixed copies that [set_macro_dict] adds. *)
Definition prefixed_copies (self : MultiKey_BaseActionset)
    (new_macros : gmap string (list VerbParamDict))
  : gmap string (list VerbParamDict) :=
  kmap (fun key => action_prefix self +:+ key) new_macros.

Lemma lookup_set_macro_dict self new_macros name :
  macro_dict (set_macro_dict self new_macros) !! name =
  match prefixed_copies self new_macros !! name with
  | Some macro => Some macro
  | None => new_macros !! name
  end.
Proof.
  unfold set_macro_dict, set_macro_table, prefixed_copies. cbn [macro_dict].
  rewrite lookup_union.
  destruct (kmap _ new_macros !! name), (new_macros !! name); reflexivity.
Qed.

Lemma lookup_prefixed_none self new_macros name :
  PyStr.startswith name (action_prefix self) = false ->
  prefixed_copies self new_macros !! name = None.
Proof.
  intros Hname. unfold prefixed_copies. apply lookup_kmap_None; [apply _|].
  intros key ->. unfold PyStr.startswith in Hname.
  now rewrite prefix_append in Hname.
Qed.

Lemma get_set_filter self new_macros :
  get_macro_dict (set_macro_dict self new_macros) =
  filter (fun kv => PyStr.startswith kv.1 (action_prefix self) = false)
         new_macros.
Proof.
  unfold get_macro_dict. apply map_eq. intros name.
  rewrite !map_lookup_filter.
  change (action_prefix (set_macro_dict self new_macros))
    with (action_prefix self).
  rewrite lookup_set_macro_dict.
  destruct (PyStr.startswith name (action_prefix self)) eqn:Hname.
  - destruct (prefixed_copies self new_macros !! name),
      (new_macros !! name); unfold PyStr.startswith in *; cbn;
      repeat (case_guard; cbn in *; try congruence); reflexivity.
  - now rewrite lookup_prefixed_none.
Qed.

(** X10.  What [set_macro_dict] stores and [get_macro_dict] gives back:
    every macro is reachable under its prefixed name, a name that does
    not start with the action prefix reads as in the dictionary handed
    in, and [get_macro_dict] afterwards returns exactly the entries of
    that dictionary whose name does not start with the prefix.  Nothing
    else of the actionset changes. *)
Theorem get_after_set_macro_dict
    (self : MultiKey_BaseActionset)
    (new_macros : gmap string (list VerbParamDict)) :
  let self' := set_macro_dict self new_macros in
  (forall name macro,
     new_macros !! name = Some macro ->
     macro_dict self' !! (action_prefix self +:+ name) = Some macro) /\
  (forall name,
     PyStr.startswith name (action_prefix self) = false ->
     macro_dict self' !! name = new_macros !! name) /\
  get_macro_dict self' =
    filter (fun kv => PyStr.startswith kv.1 (action_prefix self) = false)
           new_macros /\
  verb_dict self' = verb_dict self /\
  action_prefix self' = action_prefix self.
Proof.
  cbn zeta.
  split; [|split; [|split; [|split; reflexivity]]].
  - intros name macro H. rewrite lookup_set_macro_dict.
    unfold prefixed_copies.
    rewrite (lookup_kmap (fun key => action_prefix self +:+ key)).
    now rewrite H.
  - intros name Hname. rewrite lookup_set_macro_dict.
    now rewrite lookup_prefixed_none.
  - apply get_set_filter.
Qed.

(** The dictionary [m] holds no name that starts with [p]. *)
Definition unprefixed (p : string) (m : gmap string (list VerbParamDict))
  : Prop :=
  forall name, is_Some (m !! name) -> PyStr.startswith name p = false.

(** X11.  Macros whose names do not start with the action prefix survive
    the round trip: [get_macro_dict] after [set_macro_dict] returns the
    dictionary that was set, and setting that result again rebuilds the
    same table (what [restore_snapshot] of a [create_snapshot] does). *)
Theorem macro_dict_roundtrip
    (self : MultiKey_BaseActionset)
    (new_macros : gmap string (list VerbParamDict)) :
  unprefixed (action_prefix self) new_macros ->
  get_macro_dict (set_macro_dict self new_macros) = new_macros /\
  set_macro_dict (set_macro_dict self new_macros)
    (get_macro_dict (set_macro_dict self new_macros)) =
  set_macro_dict self new_macros.
Proof.
  intros Hun.
  assert (get_macro_dict (set_macro_dict self new_macros) = new_macros)
    as Hget.
  { rewrite get_set_filter. apply map_filter_id.
    intros name macro H. apply Hun. now exists macro. }
  split; [exact Hget|]. rewrite Hget. reflexivity.
Qed.

Lemma macro_dict_roundtrip_witness :
  get_macro_dict
    (set_macro_dict BaseMultikeyFacts.example_actionset
       {[ "combo" := [BaseMultikeyFacts.example_verb_param "left"] ]}) =
    {[ "combo" := [BaseMultikeyFacts.example_verb_param "left"] ]} /\
  set_macro_dict
    (set_macro_dict BaseMultikeyFacts.example_actionset
       {[ "combo" := [BaseMultikeyFacts.example_verb_param "left"] ]})
    (get_macro_dict
       (set_macro_dict BaseMultikeyFacts.example_actionset
          {[ "combo" := [BaseMultikeyFacts.example_verb_param "left"] ]})) =
  set_macro_dict BaseMultikeyFacts.example_actionset
    {[ "combo" := [BaseMultikeyFacts.example_verb_param "left"] ]}.
Proof.
  apply (macro_dict_roundtrip BaseMultikeyFacts.example_actionset
           {[ "combo" := [BaseMultikeyFacts.example_verb_param "left"] ]}).
  intros name [macro H]. apply lookup_singleton_Some in H as [<- _].
  reflexivity.
Defined.

(** *** Validation *)

Lemma validate_entry {V : Type} (key_dict : gmap string V) self verb l vp :
  validate key_dict self = ReturnTrue ->
  verb_dict self !! verb = Some l ->
  In vp l ->
  is_Some (key_dict !! VerbParam.key vp) /\
  VerbParam.min_time vp <= VerbParam.max_time vp /\
  VerbParam.delay vp + VerbParam.duration vp <= VerbParam.max_time vp.
Proof.
  unfold validate. intros Hv Hl Hin.
  destruct (forallb _ _) eqn:Hall; [|discriminate Hv].
  rewrite forallb_forall in Hall.
  specialize (Hall (verb, l)).
  rewrite forallb_forall in Hall.
  assert (In (verb, l) (map_to_list (verb_dict self))) as Hentry.
  { apply list_elem_of_In, elem_of_map_to_list, Hl. }
  specialize (Hall Hentry vp Hin). unfold verb_param_valid in Hall.
  apply andb_prop in Hall as [Hall H3]. apply andb_prop in Hall as [H1 H2].
  apply bool_decide_eq_true in H1.
  split; [exact H1|]. lia.
Qed.

(** What one entry of a verb becomes when the message gives neither delay
    nor duration and the entry is a key press: its own delay and
    duration. *)
Definition default_args (key : string) (verb_param : VerbParamDict)
  : FuncArgsDict :=
  {| FuncArgs.key := key;
     FuncArgs.delay := VerbParam.delay verb_param;
     FuncArgs.duration := VerbParam.duration verb_param |}.

Lemma function_args_default key inh verb_param :
  VerbParam.input_type verb_param = Constants.PRESS_KEY ->
  0 <= VerbParam.delay verb_param ->
  0 <= VerbParam.duration verb_param ->
  VerbParam.min_time verb_param <= VerbParam.duration verb_param ->
  VerbParam.delay verb_param + VerbParam.duration verb_param
    <= VerbParam.max_time verb_param ->
  function_args_of key 0 0 inh verb_param = default_args key verb_param.
Proof.
  intros Hty Hd Hdur Hmin Hmax. unfold function_args_of, default_args.
  rewrite Hty.
  change (Constants.PRESS_KEY =? Constants.PRESS_KEY) with true.
  change (negb (0 =? 0)) with false. cbn iota.
  rewrite Z.add_0_l.
  rewrite (clamp_id 0 (VerbParam.delay verb_param)) by lia.
  rewrite clamp_id by lia. reflexivity.
Qed.

Lemma translate_list_fully (self : MultiKey_BaseActionset)
    (key_dict : gmap string string) (pd pdur inh : Z)
    (l : list VerbParamDict) :
  translate_verb_parameters_to_key self =
    Gamepad_translate_verb_parameters_to_key key_dict ->
  Forall (fun vp =>
            is_Some (key_dict !! VerbParam.key vp) /\
            VerbParam.delay vp + VerbParam.duration vp
              <= VerbParam.max_time vp) l ->
  exists args_list,
    translate_verb_param_list self pd pdur inh l = (args_list, None) /\
    Forall2 (fun vp args =>
               VerbParam.delay vp + VerbParam.duration vp
                 <= VerbParam.max_time vp /\
               exists key, key_dict !! VerbParam.key vp = Some key /\
                           args = function_args_of key pd pdur inh vp)
            l args_list.
Proof.
  intros Htr.
  induction 1 as [|vp rest [[key Hkey] Hmax] _ (more & Hmore & IH)].
  - exists []. split; [reflexivity | constructor].
  - exists (function_args_of key pd pdur inh vp :: more). cbn.
    rewrite Htr. unfold Gamepad_translate_verb_parameters_to_key.
    rewrite Hkey, Hmore.
    split; [reflexivity|]. constructor; [eauto | exact IH].
Qed.

(** X12.  An actionset that passes [validate] and looks its keys up as
    the gamepad does translates every entry of every verb of its verb
    table: for a verb with entries, whatever delay and duration the
    message asks for, the translation produces one sub-action per entry,
    in order, with the key of [key_dict], and no exception ends the verb
    early.  Without a requested delay or duration a key press whose
    default delay and duration are not negative and whose default
    duration is at least [min_time] keeps exactly its defaults. *)
Theorem validated_verb_translates_fully
    (self : MultiKey_BaseActionset) (key_dict : gmap string string)
    (verb : string) (l : list VerbParamDict) (param_delay param_duration : Z) :
  validate key_dict self = ReturnTrue ->
  translate_verb_parameters_to_key self =
    Gamepad_translate_verb_parameters_to_key key_dict ->
  verb_dict self !! verb = Some l ->
  l <> [] ->
  exists args_list,
    translate_verb self verb param_delay param_duration = (args_list, None) /\
    Forall2
      (fun vp args =>
         key_dict !! VerbParam.key vp = Some (FuncArgs.key args) /\
         (param_delay = 0 -> param_duration = 0 ->
          VerbParam.input_type vp = Constants.PRESS_KEY ->
          0 <= VerbParam.delay vp ->
          0 <= VerbParam.duration vp ->
          VerbParam.min_time vp <= VerbParam.duration vp ->
          args = default_args (FuncArgs.key args) vp))
      l args_list.
Proof.
  intros Hv Htr Hl Hne.
  unfold translate_verb, lookup_verb. rewrite Hl.
  destruct l as [|first rest] eqn:El; [congruence|]. rewrite <- El in *.
  destruct (translate_list_fully self key_dict param_delay param_duration
              (VerbParam.duration first) l Htr) as (args_list & Hargs & Hall).
  { apply Forall_forall. intros vp Hin.
    destruct (validate_entry key_dict self verb l vp Hv Hl)
      as (Hkey & _ & Hmax); [now apply list_elem_of_In | auto]. }
  exists args_list. split; [exact Hargs|].
  eapply Forall2_impl; [exact Hall|].
  intros vp args (Hmax & key & Hkey & ->).
  split; [exact Hkey|]. intros -> -> Hty Hd Hdur Hmin.
  cbn [FuncArgs.key function_args_of].
  now apply function_args_default.
Qed.

(** A gamepad with one button, built as [Gamepad_Actionset.__init__]
    builds it. *)
Definition example_gamepad : MultiKey_BaseActionset :=
  {| input_handler := BasicGamepadHandler;
     action_prefix := "+";
     player_index := 0;
     verb_dict := Gamepad_verb_dict "+" ["a"];
     macro_dict := ∅;
     translate_verb_parameters_to_key :=
       Gamepad_translate_verb_parameters_to_key
         {[ "a" := "XUSB_GAMEPAD_A" ]} |}.

Lemma validated_verb_translates_fully_witness :
  exists args_list,
    translate_verb example_gamepad "+a" 0 0 = (args_list, None) /\
    Forall2
      (fun vp args =>
         ({[ "a" := "XUSB_GAMEPAD_A" ]} : gmap string string)
           !! VerbParam.key vp = Some (FuncArgs.key args) /\
         (0 = 0 -> 0 = 0 ->
          VerbParam.input_type vp = Constants.PRESS_KEY ->
          0 <= VerbParam.delay vp ->
          0 <= VerbParam.duration vp ->
          VerbParam.min_time vp <= VerbParam.duration vp ->
          args = default_args (FuncArgs.key args) vp))
      [create_verb_params "a" 150 0 1 1000 Constants.PRESS_KEY] args_list.
Proof.
  apply (validated_verb_translates_fully example_gamepad
           {[ "a" := "XUSB_GAMEPAD_A" ]} "+a"
           [create_verb_params "a" 150 0 1 1000 Constants.PRESS_KEY] 0 0).
  - vm_compute. reflexivity.
  - reflexivity.
  - vm_compute. reflexivity.
  - discriminate.
Defined.

(** *** The verb table of a gamepad *)

Definition gamepad_verb_params (k : string) : list VerbParamDict :=
  [create_verb_params k 150 0 1 1000 Constants.PRESS_KEY].

(** One round of the loop that adds the prefixed names. *)
Definition add_prefixed (action_prefix : string)
    (verb_dict : gmap string (list VerbParamDict)) (key : string)
  : gmap string (list VerbParamDict) :=
  match verb_dict !! key with
  | Some verb_param_list =>
      <[action_prefix +:+ key := verb_param_list]> verb_dict
  | None => verb_dict
  end.

(** Every entry of the table is the key press of one of [keys], and each
    of [keys] is a verb. *)
Definition gamepad_table (keys : list string)
    (verb_dict : gmap string (list VerbParamDict)) : Prop :=
  (forall k, In k keys -> is_Some (verb_dict !! k)) /\
  (forall verb l, verb_dict !! verb = Some l ->
                  exists k, In k keys /\ l = gamepad_verb_params k).

Lemma gamepad_table_base (keys : list string) :
  gamepad_table keys
    (list_to_map (map (fun k => (k, gamepad_verb_params k)) keys)).
Proof.
  split.
  - intros k Hk.
    destruct (list_to_map (M := gmap string (list VerbParamDict))
                (map (fun k => (k, gamepad_verb_params k)) keys) !! k)
      eqn:Hl; [eauto|].
    apply not_elem_of_list_to_map in Hl. exfalso. apply Hl.
    rewrite list_elem_of_fmap. exists (k, gamepad_verb_params k).
    split; [reflexivity|]. apply list_elem_of_In, in_map_iff. eauto.
  - intros verb l Hl. apply elem_of_list_to_map_2 in Hl.
    apply list_elem_of_In, in_map_iff in Hl as (k & Heq & Hk).
    injection Heq as <- <-. eauto.
Qed.

Lemma add_prefixed_table p keys vd key :
  gamepad_table keys vd -> In key keys ->
  gamepad_table keys (add_prefixed p vd key) /\
  is_Some (add_prefixed p vd key !! (p +:+ key)).
Proof.
  intros [Hkeys Hall] Hkey. unfold add_prefixed.
  destruct (Hkeys key Hkey) as [l Hl]. rewrite Hl.
  split; [split|].
  - intros k Hk. destruct (decide (p +:+ key = k)) as [<-|Hne].
    + rewrite lookup_insert_eq. eauto.
    + rewrite lookup_insert_ne by assumption. auto.
  - intros verb l' Hl'. destruct (decide (p +:+ key = verb)) as [<-|Hne].
    + rewrite lookup_insert_eq in Hl'. injection Hl' as <-. eauto.
    + rewrite lookup_insert_ne in Hl' by assumption. eauto.
  - rewrite lookup_insert_eq. eauto.
Qed.

Lemma add_prefixed_keeps p vd key name :
  is_Some (vd !! name) -> is_Some (add_prefixed p vd key !! name).
Proof.
  intros Hname. unfold add_prefixed. destruct (vd !! key); [|exact Hname].
  destruct (decide (p +:+ key = name)) as [<-|Hne].
  - rewrite lookup_insert_eq. eauto.
  - now rewrite lookup_insert_ne.
Qed.

Lemma foldl_add_prefixed p keys ks :
  forall vd,
    gamepad_table keys vd ->
    (forall k, In k ks -> In k keys) ->
    gamepad_table keys (foldl (add_prefixed p) vd ks) /\
    (forall name, is_Some (vd !! name) ->
                  is_Some (foldl (add_prefixed p) vd ks !! name)) /\
    (forall k, In k ks ->
               is_Some (foldl (add_prefixed p) vd ks !! (p +:+ k))).
Proof.
  induction ks as [|key ks IH]; intros vd Hvd Hks; cbn [foldl].
  - split; [exact Hvd|]. split; [auto|]. intros k [].
  - destruct (add_prefixed_table p keys vd key Hvd) as [Hvd' Hnew];
      [apply Hks; now left|].
    destruct (IH (add_prefixed p vd key) Hvd') as (Htab & Hkeep & Hpre);
      [intros k Hk; apply Hks; now right|].
    split; [exact Htab|]. split.
    + intros name Hname. apply Hkeep. now apply add_prefixed_keeps.
    + intros k [<- | Hk]; [apply Hkeep, Hnew | now apply Hpre].
Qed.

(** X13.  The verb table that a gamepad actionset builds from its
    [key_dict] knows every key both under its bare and under its prefixed
    name, every verb of the table is a single 150 ms key press of one of
    the keys, and the table always passes the tests of [validate] against
    that [key_dict]. *)
Theorem gamepad_verb_table_is_valid
    (action_prefix : string) (key_dict : list (string * string)) :
  let keys := map fst key_dict in
  let table := Gamepad_verb_dict action_prefix keys in
  (forall k, In k keys ->
     is_Some (table !! k) /\ is_Some (table !! (action_prefix +:+ k))) /\
  (forall verb l, table !! verb = Some l ->
     exists k, In k keys /\
       l = [create_verb_params k 150 0 1 1000 Constants.PRESS_KEY]) /\
  (forall self : MultiKey_BaseActionset,
     verb_dict self = table ->
     validate (list_to_map key_dict : gmap string string) self = ReturnTrue).
Proof.
  cbn zeta. set (keys := map fst key_dict).
  destruct (foldl_add_prefixed action_prefix keys keys _
              (gamepad_table_base keys) (fun k H => H))
    as ([Hkeys Hall] & Hkeep & Hpre).
  change (foldl _ _ keys) with (Gamepad_verb_dict action_prefix keys) in *.
  split; [|split].
  - intros k Hk. split; [apply Hkeys | apply Hpre]; exact Hk.
  - exact Hall.
  - intros self Hself. unfold validate. rewrite Hself.
    rewrite (proj2 (forallb_forall _ _)); [reflexivity|].
    intros [verb l] Hentry.
    apply list_elem_of_In, elem_of_map_to_list in Hentry.
    destruct (Hall verb l Hentry) as (k & Hk & ->).
    unfold gamepad_verb_params, verb_param_valid, create_verb_params. cbn.
    rewrite !andb_true_r. apply bool_decide_eq_true.
    destruct (list_to_map (M := gmap string string) key_dict !! k) eqn:Hl;
      [eauto|].
    apply not_elem_of_list_to_map in Hl. exfalso. apply Hl.
    apply list_elem_of_In. exact Hk.
Qed.

End MacrosProps.

(* ================================================================== *)
(** ** Teams: the execute step, joining and leaving, the class chain *)
(* ================================================================== *)
Module TeamProps.
Import Chatmsg Enums Teams QueueFacts RouterFacts.

(** X14.  The execute step always leaves the action queue empty and never
    touches the message queue or the members.  With actions queued it
    runs the newest one and nothing else: the older actions are dropped
    unexecuted and no random action is drawn.  [keep_running] is switched
    off exactly when the input server refuses the connection; it is never
    switched on. *)
Theorem execute_step_runs_newest_only
    (g : GlobalData) (self : Team) (random_command : string)
    (refused : bool) :
  let '(r, self', trace) :=
    _execute_queued_action g self random_command refused in
  action_queue self' = [] /\
  message_queue self' = message_queue self /\
  members self' = members self /\
  keep_running self' =
    match r with
    | Return _ => if refused then false else keep_running self
    | Raise _ => keep_running self
    end /\
  (forall older msg func,
     action_queue self = older ++ [(msg, func)] ->
     r = Return tt /\
     trace = [Acquire action_queue_lock; Log msg; Release action_queue_lock;
              Execute func]) /\
  (action_queue self = [] ->
   forall func, In (Execute func) trace ->
     empty_queue_action g self random_command = Return func).
Proof.
  unfold _execute_queued_action.
  destruct (action_queue self) as [|a q _] eqn:Hq using rev_ind.
  - rewrite deque_pop_nil.
    destruct (empty_queue_action g self random_command) as [func|e].
    + split; [now destruct refused|]. split; [now destruct refused|].
      split; [now destruct refused|]. split; [now destruct refused|].
      split; [intros [|] ? ? ?; discriminate|].
      intros _ func' Hin. cbn in Hin.
      destruct Hin as [H|[H|[H|[]]]]; now inversion H.
    + split; [assumption|]. do 3 (split; [reflexivity|]).
      split; [intros [|] ? ? ?; discriminate|].
      intros _ func' Hin. cbn in Hin.
      destruct Hin as [H|[H|[]]]; inversion H.
  - rewrite deque_pop_snoc. destruct a as [msg func].
    split; [now destruct refused|]. split; [now destruct refused|].
    split; [now destruct refused|]. split; [now destruct refused|].
    split.
    + intros older msg' func' H. apply app_inj_tail in H as [_ H].
      injection H as <- <-. split; reflexivity.
    + intros H. now destruct q.
Qed.

(** *** Joining and leaving *)

Lemma set_members_back (self : Team) (m : gset string) :
  set_members (set_members self m) (members self) = self.
Proof. now destruct self. Qed.

(** X15.  Joining and then leaving is a round trip: for a team that can
    be joined and left and is exclusive, and a user who is neither a
    member nor registered anywhere, [join_team] answers [True] and makes
    the user a registered member, and [leave_team] then answers [True]
    and gives back exactly the state from before the join. *)
Theorem join_then_leave_restores
    (g : GlobalData) (i : nat) (self : Team) (u : string) :
  Teams g !! i = Some self ->
  joinable self = true -> exclusive self = true -> leavable self = true ->
  u ∉ members self ->
  Users g !! u = None ->
  exists g1 self1,
    join_team i u g = (Return true, g1) /\
    Teams g1 !! i = Some self1 /\
    u ∈ members self1 /\
    Users g1 !! u = Some i /\
    leave_team i u g1 = (Return true, g).
Proof.
  intros Hi Hj Hex Hl Hout Hreg.
  unfold join_team. rewrite (run_team_at _ _ _ _ Hi), Hj, Hex. cbn [andb].
  rewrite run_bind. cbn [modify]. rewrite run_ret.
  set (self1 := set_members self ({[u]} ∪ members self)).
  assert (Teams (Users_add (update_team g i self1) u i) !! i = Some self1)
    as Hi1.
  { cbn. apply list_lookup_insert_eq. eapply lookup_lt_Some; eauto. }
  exists (Users_add (update_team g i self1) u i), self1.
  split; [reflexivity|]. split; [exact Hi1|].
  split; [cbn; set_solver|].
  split; [cbn; apply lookup_insert_eq|].
  unfold leave_team. rewrite (run_team_at _ _ _ _ Hi1).
  change (leavable self1) with (leavable self). rewrite Hl.
  unfold Userlist.mem. rewrite bool_decide_eq_true_2 by (cbn; set_solver).
  rewrite run_bind. cbn [modify]. rewrite run_ret. f_equal.
  unfold Users_discard, Users_add, update_team, set_Users, set_Teams.
  cbn [Teams Users action_prefixes state_accept_input state_random_action].
  rewrite list_insert_insert_eq, delete_insert_id by assumption.
  assert (members self1 ∖ {[u]} = members self) as -> by (cbn; set_solver).
  unfold self1. rewrite set_members_back.
  rewrite list_insert_id by assumption. now destruct g.
Qed.

Lemma join_then_leave_restores_witness :
  exists g1 self1,
    join_team 0 "bob" example_globals = (Return true, g1) /\
    Teams g1 !! 0%nat = Some self1 /\
    "bob" ∈ members self1 /\
    Users g1 !! "bob" = Some 0%nat /\
    leave_team 0 "bob" g1 = (Return true, example_globals).
Proof.
  apply (join_then_leave_restores example_globals 0
           (example_team [Default_Team] "Red" []) "bob");
    try reflexivity.
  cbn. set_solver.
Defined.

(** *** Who belongs: the chain of classes *)

Lemma run_in_user_whitelist g i self msg :
  Teams g !! i = Some self ->
  in_user_whitelist i msg g =
  (fst (Userlist.message_in_list (user_whitelist self) msg),
   update_team g i
     (set_user_whitelist self
        (snd (Userlist.message_in_list (user_whitelist self) msg)))).
Proof.
  intros Hi. unfold in_user_whitelist. rewrite (run_team_at _ _ _ _ Hi).
  destruct (Userlist.message_in_list (user_whitelist self) msg) as [r l].
  rewrite run_bind. cbn. now destruct r.
Qed.

Lemma run_in_user_blacklist g i self msg :
  Teams g !! i = Some self ->
  in_user_blacklist i msg g =
  (fst (Userlist.message_in_list (user_blacklist self) msg),
   update_team g i
     (set_user_blacklist self
        (snd (Userlist.message_in_list (user_blacklist self) msg)))).
Proof.
  intros Hi. unfold in_user_blacklist. rewrite (run_team_at _ _ _ _ Hi).
  destruct (Userlist.message_in_list (user_blacklist self) msg) as [r l].
  rewrite run_bind. cbn. now destruct r.
Qed.

(** The base rule: a member belongs, and so does a whitelisted user;
    nobody else is certain. *)
Lemma run_Team__belongs_to_team g i self msg :
  Teams g !! i = Some self ->
  Team__belongs_to_team i msg g =
  if Userlist.mem (user msg) (members self)
  then (Return AbsolutelyTrue, g)
  else
    (match fst (Userlist.message_in_list (user_whitelist self) msg) with
     | Return true => Return AbsolutelyTrue
     | Return false => Return MaybeFalse
     | Raise e => Raise e
     end,
     update_team g i
       (set_user_whitelist self
          (snd (Userlist.message_in_list (user_whitelist self) msg)))).
Proof.
  intros Hi. unfold Team__belongs_to_team. rewrite (run_team_at _ _ _ _ Hi).
  destruct (Userlist.mem (user msg) (members self)); [reflexivity|].
  rewrite run_bind, (run_in_user_whitelist _ _ _ _ Hi).
  destruct (fst (Userlist.message_in_list (user_whitelist self) msg))
    as [[]|]; reflexivity.
Qed.

(** A certain yes of the base rule goes through every class unchanged. *)
Lemma chain_keeps_base_yes cs i msg g g' :
  Team__belongs_to_team i msg g = (Return AbsolutelyTrue, g') ->
  _belongs_to_team_chain cs i msg g = (Return AbsolutelyTrue, g').
Proof.
  intros Hbase. induction cs as [|c cs IH]; cbn; [exact Hbase|].
  destruct (own_belongs_rule c i msg) as [rule|]; [|exact IH].
  rewrite run_bind, IH. cbn [is_certain]. reflexivity.
Qed.

(** X16.  Members and whitelisted users belong to a team whatever its
    class or combination of classes: for a member [belongs_to_team]
    answers [True] and changes nothing; for a user whom the whitelist
    admits it answers [True] and only the whitelist's cache is updated.
    No class rule (not even [None_Team] or a prediction team with the
    wrong badge) is consulted. *)
Theorem members_and_whitelisted_belong
    (g : GlobalData) (i : nat) (self : Team) (msg : ChatMessage) :
  Teams g !! i = Some self ->
  (user msg ∈ members self -> belongs_to_team i msg g = (Return true, g)) /\
  (forall l,
     user msg ∉ members self ->
     Userlist.message_in_list (user_whitelist self) msg = (Return true, l) ->
     belongs_to_team i msg g =
       (Return true, update_team g i (set_user_whitelist self l))).
Proof.
  intros Hi. unfold belongs_to_team, _belongs_to_team.
  split.
  - intros Hin. rewrite run_bind, (run_team_at _ _ _ _ Hi).
    rewrite (chain_keeps_base_yes _ _ _ g g); [reflexivity|].
    rewrite (run_Team__belongs_to_team _ _ _ _ Hi).
    unfold Userlist.mem. now rewrite bool_decide_eq_true_2.
  - intros l Hout Hl. rewrite run_bind, (run_team_at _ _ _ _ Hi).
    rewrite (chain_keeps_base_yes _ _ _ g
               (update_team g i (set_user_whitelist self l)));
      [reflexivity|].
    rewrite (run_Team__belongs_to_team _ _ _ _ Hi).
    unfold Userlist.mem. rewrite bool_decide_eq_false_2 by assumption.
    now rewrite Hl.
Qed.

Lemma members_and_whitelisted_belong_witness :
  let g := snd (join_team 0 "bob" example_globals) in
  let self := set_members (example_team [Default_Team] "Red" []) {[ "bob" ]} in
  ("bob" ∈ members self ->
   belongs_to_team 0 (plus_left "bob") g = (Return true, g)) /\
  (forall l,
     "bob" ∉ members self ->
     Userlist.message_in_list (user_whitelist self) (plus_left "bob") =
       (Return true, l) ->
     belongs_to_team 0 (plus_left "bob") g =
       (Return true, update_team g 0 (set_user_whitelist self l))).
Proof.
  apply (members_and_whitelisted_belong
           (snd (join_team 0 "bob" example_globals)) 0
           (set_members (example_team [Default_Team] "Red" []) {[ "bob" ]})
           (plus_left "bob")).
  vm_compute. reflexivity.
Defined.

(** The verdicts a class rule can add: never a certain yes. *)
Lemma own_belongs_rule_values c i msg rule g q g' :
  own_belongs_rule c i msg = Some rule ->
  rule g = (Return q, g') ->
  q = MaybeTrue \/ q = AbsolutelyFalse.
Proof.
  intros Hrule Hrun.
  destruct c; cbn in Hrule; inversion Hrule; subst rule; clear Hrule;
    repeat first
      [ rewrite run_ret in Hrun
      | rewrite run_bind in Hrun
      | match type of Hrun with
        | (Return _, _) = (Return _, _) => injection Hrun as <- <-; auto
        | (Raise _, _) = (Return _, _) => discriminate Hrun
        | context [team_at ?j ?h] =>
            unfold team_at in Hrun; destruct (Teams h !! j)
        | context [get ?h] => unfold get in Hrun
        | context [lift ?r ?h] => unfold lift in Hrun; destruct r
        | context [if ?b then _ else _] => destruct b
        | context [match ?x with _ => _ end] => destruct x
        end ].
Qed.

Lemma Team__belongs_to_team_values i msg g q g' :
  Team__belongs_to_team i msg g = (Return q, g') ->
  q = AbsolutelyTrue \/ q = MaybeFalse.
Proof.
  destruct (Teams g !! i) as [self|] eqn:Hi.
  - rewrite (run_Team__belongs_to_team _ _ _ _ Hi).
    destruct (Userlist.mem (user msg) (members self)).
    + intros H. injection H as <- <-. auto.
    + destruct (fst (Userlist.message_in_list (user_whitelist self) msg))
        as [[]|]; intros H; inversion H; auto.
  - unfold Team__belongs_to_team. rewrite (run_team_at_none _ _ _ Hi).
    discriminate.
Qed.

(** How the answer of a chain of classes depends on the base rule: a
    certain yes can only come from the base, and below a [None_Team] in
    the chain everything else is a certain no. *)
Lemma chain_and_base cs i msg :
  forall g q g',
    _belongs_to_team_chain cs i msg g = (Return q, g') ->
    exists q0 g0,
      Team__belongs_to_team i msg g = (Return q0, g0) /\
      (q = AbsolutelyTrue -> q0 = AbsolutelyTrue) /\
      (In None_Team cs -> q0 <> AbsolutelyTrue -> q = AbsolutelyFalse).
Proof.
  induction cs as [|c cs IH]; intros g q g' H; cbn in H.
  - exists q, g'. split; [exact H|]. split; [auto|]. intros [].
  - destruct (own_belongs_rule c i msg) as [rule|] eqn:Hrule.
    + rewrite run_bind in H.
      destruct (_belongs_to_team_chain cs i msg g) as [[s|e] g2] eqn:Hs;
        [|discriminate H].
      destruct (IH g s g2 Hs) as (q0 & g0 & Hbase & Hyes & Hnone).
      exists q0, g0. split; [exact Hbase|].
      destruct (is_certain s) eqn:Hcert.
      * rewrite run_ret in H. injection H as <- <-.
        split; [exact Hyes|]. intros [-> | Hin] Hq0; [|auto].
        destruct s; try discriminate Hcert; [|reflexivity].
        exfalso. apply Hq0. now apply Hyes.
      * destruct (own_belongs_rule_values _ _ _ _ _ _ _ Hrule H) as [-> | ->].
        -- split; [discriminate|]. intros [-> | Hin] Hq0.
           ++ cbn in Hrule. injection Hrule as <-.
              rewrite run_ret in H. discriminate H.
           ++ rewrite (Hnone Hin Hq0) in Hcert. discriminate Hcert.
        -- split; [discriminate | reflexivity].
    + destruct (IH g q g' H) as (q0 & g0 & Hbase & Hyes & Hnone).
      exists q0, g0. split; [exact Hbase|]. split; [exact Hyes|].
      intros [-> | Hin]; [discriminate Hrule | auto].
Qed.

(** X17.  A team with [None_Team] among its classes takes exactly its
    members and the users its whitelist admits: [belongs_to_team] answers
    [True] if and only if the user of the message is a member or
    [message_in_list] of the whitelist says [True] for the message. *)
Theorem none_team_admits_only_listed
    (g : GlobalData) (i : nat) (self : Team) (msg : ChatMessage) :
  Teams g !! i = Some self ->
  In None_Team (classes self) ->
  fst (belongs_to_team i msg g) = Return true <->
  user msg ∈ members self \/
  fst (Userlist.message_in_list (user_whitelist self) msg) = Return true.
Proof.
  intros Hi Hnone. split.
  - unfold belongs_to_team, _belongs_to_team.
    rewrite run_bind, (run_team_at _ _ _ _ Hi).
    destruct (_belongs_to_team_chain (classes self) i msg g)
      as [[q|e] g'] eqn:Hq; [|discriminate].
    rewrite run_ret. cbn [fst]. intros Hb.
    destruct (chain_and_base _ _ _ _ _ _ Hq) as (q0 & g0 & Hbase & _ & Hno).
    rewrite (run_Team__belongs_to_team _ _ _ _ Hi) in Hbase.
    unfold Userlist.mem in Hbase.
    destruct (bool_decide_reflect (user msg ∈ members self)) as [Hin|Hout];
      [now left|].
    right.
    destruct (fst (Userlist.message_in_list (user_whitelist self) msg))
      as [[]|]; [reflexivity | | discriminate Hbase].
    injection Hbase as <- <-.
    rewrite (Hno Hnone) in Hb by discriminate. discriminate Hb.
  - intros [Hin | Hwl].
    + assert (belongs_to_team i msg g = (Return true, g)) as ->; [|reflexivity].
      unfold belongs_to_team, _belongs_to_team.
      rewrite run_bind, (run_team_at _ _ _ _ Hi).
      rewrite (chain_keeps_base_yes _ _ _ g g); [reflexivity|].
      rewrite (run_Team__belongs_to_team _ _ _ _ Hi).
      unfold Userlist.mem. now rewrite bool_decide_eq_true_2.
    + unfold belongs_to_team, _belongs_to_team.
      rewrite run_bind, (run_team_at _ _ _ _ Hi).
      pose proof (run_Team__belongs_to_team g i self msg Hi) as Hbase.
      destruct (Userlist.mem (user msg) (members self)).
      * now rewrite (chain_keeps_base_yes _ _ _ _ _ Hbase).
      * rewrite Hwl in Hbase.
        now rewrite (chain_keeps_base_yes _ _ _ _ _ Hbase).
Qed.

(** A team that lets nobody in by itself. *)
Definition closed_globals : GlobalData :=
  {| Teams := [ example_team [None_Team] "Closed" [] ];
     Users := ∅;
     action_prefixes := {[ "+" ]};
     state_accept_input := true;
     state_random_action := false |}.

Lemma none_team_admits_only_listed_witness :
  fst (belongs_to_team 0 (plus_left "bob") closed_globals) = Return true <->
  "bob" ∈ members (example_team [None_Team] "Closed" []) \/
  fst (Userlist.message_in_list
         (user_whitelist (example_team [None_Team] "Closed" []))
         (plus_left "bob")) = Return true.
Proof.
  apply (none_team_admits_only_listed closed_globals 0
           (example_team [None_Team] "Closed" []) (plus_left "bob")).
  - reflexivity.
  - cbn. auto.
Defined.

(** *** Who is blocked *)

(** The user is on record as no member of team [i]. *)
Definition not_member (g : GlobalData) (i : nat) (u : string) : Prop :=
  exists t, Teams g !! i = Some t /\ u ∉ members t.

Lemma run_kick_out_if_member g i self msg :
  Teams g !! i = Some self ->
  kick_out_if_member i msg g =
  (Return tt,
   if Userlist.mem (user msg) (members self)
   then Users_discard
          (update_team g i
             (set_members self (members self ∖ {[user msg]}))) (user msg)
   else g).
Proof.
  intros Hi. unfold kick_out_if_member. rewrite (run_team_at _ _ _ _ Hi).
  destruct (Userlist.mem (user msg) (members self)); [|reflexivity].
  unfold evict. now rewrite (run_team_at _ _ _ _ Hi).
Qed.

Lemma kick_out_then_not_member g i msg g' :
  (kick_out_if_member i msg ≫= λ _, mret true) g = (Return true, g') ->
  not_member g' i (user msg) /\
  forall self, Teams g !! i = Some self -> user msg ∈ members self ->
               Users g' !! user msg = None.
Proof.
  rewrite run_bind.
  destruct (Teams g !! i) as [self|] eqn:Hi.
  - rewrite (run_kick_out_if_member _ _ _ _ Hi), run_ret.
    intros H. injection H as <-. unfold Userlist.mem.
    destruct (bool_decide_reflect (user msg ∈ members self)) as [Hin|Hout].
    + split.
      * eexists. split.
        { cbn. apply list_lookup_insert_eq. eapply lookup_lt_Some; eauto. }
        cbn. set_solver.
      * intros _ _ _. cbn. apply lookup_delete_eq.
    + split; [now exists self|].
      intros self' Hself'. congruence.
  - unfold kick_out_if_member. rewrite (run_team_at_none _ _ _ Hi).
    discriminate.
Qed.

Lemma Team_blocked_from_team_true g i msg g' :
  Team_blocked_from_team i msg g = (Return true, g') ->
  not_member g' i (user msg).
Proof.
  unfold Team_blocked_from_team.
  destruct (Teams g !! i) as [self|] eqn:Hi;
    [|rewrite (run_team_at_none _ _ _ Hi); discriminate].
  rewrite (run_team_at _ _ _ _ Hi), run_bind.
  rewrite (run_in_user_blacklist _ _ _ _ Hi).
  destruct (fst (Userlist.message_in_list (user_blacklist self) msg))
    as [b|e]; [|discriminate].
  rewrite run_bind. cbn [get].
  destruct (b || _).
  - intros H. now apply kick_out_then_not_member in H.
  - rewrite run_ret. discriminate.
Qed.

Lemma own_blocked_rule_true c i msg rule g g' :
  own_blocked_rule c i msg = Some rule ->
  rule g = (Return true, g') ->
  not_member g' i (user msg).
Proof.
  intros Hrule Hrun.
  destruct c; unfold own_blocked_rule in Hrule; try discriminate Hrule;
    injection Hrule as <-.
  - (* Whitelist_Team *)
    destruct (Teams g !! i) as [self|] eqn:Hi;
      [|rewrite (run_team_at_none _ _ _ Hi) in Hrun; discriminate].
    rewrite (run_team_at _ _ _ _ Hi) in Hrun. unfold Userlist.mem in Hrun.
    destruct (bool_decide_reflect (user msg ∈ members self)) as [Hin|Hout].
    { rewrite run_ret in Hrun. discriminate. }
    rewrite run_bind, (run_in_user_whitelist _ _ _ _ Hi) in Hrun.
    destruct (fst (Userlist.message_in_list (user_whitelist self) msg))
      as [w|e]; [|discriminate].
    rewrite run_ret in Hrun. injection Hrun as _ <-.
    eexists. split.
    + cbn. apply list_lookup_insert_eq. eapply lookup_lt_Some; eauto.
    + exact Hout.
  - rewrite run_bind in Hrun. unfold lift in Hrun.
    destruct (tags_item msg "badges"); [|discriminate].
    destruct (PyStr.contains _ _);
      [now apply kick_out_then_not_member in Hrun
      |rewrite run_ret in Hrun; discriminate].
  - rewrite run_bind in Hrun. unfold lift in Hrun.
    destruct (tags_item msg "badges"); [|discriminate].
    destruct (PyStr.contains _ _);
      [now apply kick_out_then_not_member in Hrun
      |rewrite run_ret in Hrun; discriminate].
  - rewrite run_bind in Hrun. unfold lift in Hrun.
    destruct (tags_item msg "badges"); [|discriminate].
    destruct (_ || _);
      [now apply kick_out_then_not_member in Hrun
      |rewrite run_ret in Hrun; discriminate].
  - rewrite run_bind in Hrun. unfold lift in Hrun.
    destruct (tags_item msg "badges"); [|discriminate].
    destruct (PyStr.contains _ _);
      [|rewrite run_ret in Hrun; discriminate].
    destruct (Re.match_ _ _);
      [|rewrite run_ret in Hrun; discriminate].
    destruct (negb _);
      [now apply kick_out_then_not_member in Hrun
      |rewrite run_ret in Hrun; discriminate].
Qed.

Lemma blocked_from_team_chain_true cs i msg :
  forall g g',
    blocked_from_team_chain cs i msg g = (Return true, g') ->
    not_member g' i (user msg).
Proof.
  induction cs as [|c cs IH]; intros g g' H; cbn in H.
  - now apply Team_blocked_from_team_true in H.
  - destruct (own_blocked_rule c i msg) as [rule|] eqn:Hrule;
      [|now apply IH in H].
    rewrite run_bind in H.
    destruct (blocked_from_team_chain cs i msg g) as [[[]|e] g1] eqn:Hc;
      [| |discriminate].
    + rewrite run_ret in H. injection H as <-. now apply IH in Hc.
    + eapply own_blocked_rule_true; eauto.
Qed.

(** X18.  Whoever [blocked_from_team] blocks is no member afterwards: when
    the answer is [True], for a team of any class or combination of
    classes, the user of the message is not in the members of that team
    in the state that the call leaves behind. *)
Theorem blocked_user_is_no_member
    (g g' : GlobalData) (i : nat) (msg : ChatMessage) :
  blocked_from_team i msg g = (Return true, g') ->
  exists t', Teams g' !! i = Some t' /\ user msg ∉ members t'.
Proof.
  unfold blocked_from_team.
  destruct (Teams g !! i) as [self|] eqn:Hi;
    [|rewrite (run_team_at_none _ _ _ Hi); discriminate].
  rewrite (run_team_at _ _ _ _ Hi).
  apply blocked_from_team_chain_true.
Qed.

Lemma blocked_user_is_no_member_witness :
  exists t',
    Teams (snd (blocked_from_team 0 bob_again bob_blacklisted)) !! 0%nat
      = Some t' /\
    user bob_again ∉ members t'.
Proof.
  apply (blocked_user_is_no_member bob_blacklisted _ 0 bob_again).
  vm_compute. reflexivity.
Defined.

(** A block of the base rule stands, whatever classes come on top. *)
Lemma chain_keeps_base_block cs i msg g g' :
  Team_blocked_from_team i msg g = (Return true, g') ->
  blocked_from_team_chain cs i msg g = (Return true, g').
Proof.
  intros Hbase. induction cs as [|c cs IH]; cbn; [exact Hbase|].
  destruct (own_blocked_rule c i msg) as [rule|]; [|exact IH].
  now rewrite run_bind, IH.
Qed.

(** X19.  The blacklist overrides everything: when the blacklist of a
    team says [True] for a message, then for a team of any class
    [blocked_from_team] answers [True], the user is no member of the team
    afterwards and, if a member before, is also gone from the user
    registry; and [__add_message_to_team] refuses the message. *)
Theorem blacklisted_user_is_blocked
    (g : GlobalData) (i : nat) (self : Team) (msg : ChatMessage) :
  Teams g !! i = Some self ->
  fst (Userlist.message_in_list (user_blacklist self) msg) = Return true ->
  (exists g' t',
     blocked_from_team i msg g = (Return true, g') /\
     Teams g' !! i = Some t' /\
     (user msg ∉ members t') /\
     (user msg ∈ members self -> Users g' !! user msg = None)) /\
  fst (__add_message_to_team msg i g) = Return false.
Proof.
  intros Hi Hbl.
  assert (exists g',
            Team_blocked_from_team i msg g = (Return true, g') /\
            (user msg ∈ members self -> Users g' !! user msg = None))
    as (g' & Hbase & Hreg).
  { unfold Team_blocked_from_team.
    rewrite (run_team_at _ _ _ _ Hi), run_bind.
    rewrite (run_in_user_blacklist _ _ _ _ Hi), Hbl.
    rewrite run_bind. cbn [get orb].
    destruct ((kick_out_if_member i msg ≫= λ _, mret true)
                (update_team g i
                   (set_user_blacklist self
                      (snd (Userlist.message_in_list (user_blacklist self)
                                                     msg)))))
      as [r g'] eqn:Hk.
    assert (r = Return true) as ->.
    { rewrite run_bind in Hk.
      erewrite run_kick_out_if_member in Hk
        by (eapply lookup_update_team; eauto).
      rewrite run_ret in Hk. now injection Hk as <-. }
    exists g'. split; [reflexivity|].
    intros Hin. apply kick_out_then_not_member in Hk as [_ Hk].
    eapply Hk; [eapply lookup_update_team; eauto | exact Hin]. }
  assert (blocked_from_team i msg g = (Return true, g')) as Hblocked.
  { unfold blocked_from_team. rewrite (run_team_at _ _ _ _ Hi).
    now apply chain_keeps_base_block. }
  split.
  - apply Team_blocked_from_team_true in Hbase as (t' & Ht' & Hout).
    exists g', t'. auto.
  - unfold __add_message_to_team. rewrite (run_team_at _ _ _ _ Hi).
    destruct (_ && _); [|reflexivity].
    now rewrite run_bind, Hblocked.
Qed.

(** The first team of the example state in which [bob] is a member and
    on the blacklist. *)
Definition blacklisted_red : Team :=
  default (example_team [Default_Team] "Red" [])
          (Teams bob_blacklisted !! 0%nat).

Lemma blacklisted_user_is_blocked_witness :
  (exists g' t',
     blocked_from_team 0 bob_again bob_blacklisted = (Return true, g') /\
     Teams g' !! 0%nat = Some t' /\
     (user bob_again ∉ members t') /\
     (user bob_again ∈ members blacklisted_red ->
      Users g' !! user bob_again = None)) /\
  fst (__add_message_to_team bob_again 0 bob_blacklisted) = Return false.
Proof.
  apply (blacklisted_user_is_blocked bob_blacklisted 0 blacklisted_red
           bob_again);
    vm_compute; reflexivity.
Defined.

(** *** The queues under the router *)

(** What a run of the router can do to the queues: the action queues and
    the bounds stay, and the message queue of the one team [o], if any,
    gets [msg] appended. *)
Definition queues_after (msg : ChatMessage) (o : option nat)
    (g g' : GlobalData) : Prop :=
  length (Teams g') = length (Teams g) /\
  forall i t,
    Teams g !! i = Some t ->
    exists t',
      Teams g' !! i = Some t' /\
      action_queue t' = action_queue t /\
      queue_length t' = queue_length t /\
      (message_queue t' = message_queue t \/
       (o = Some i /\
        message_queue t' =
          deque_append (queue_length t) (message_queue t) msg)).

Lemma erase_queue_length t t' :
  erase t = erase t' -> queue_length t = queue_length t'.
Proof. intros H. now apply (f_equal queue_length) in H. Qed.

Lemma shrinks_queues_after u msg g g' :
  shrinks u g g' -> queues_after msg None g g'.
Proof.
  intros S. split; [apply (shr_length _ _ _ S)|].
  intros i t Hi.
  destruct (shrinks_lookup _ _ _ _ _ S Hi) as (t' & Hi' & E & _).
  exists t'. split; [exact Hi'|].
  destruct (erase_queues _ _ E) as [Hm Ha].
  rewrite <- Hm, <- Ha, <- (erase_queue_length _ _ E). auto.
Qed.

Lemma queues_after_then msg o g g1 g2 :
  queues_after msg None g g1 -> queues_after msg o g1 g2 ->
  queues_after msg o g g2.
Proof.
  intros [L1 H1] [L2 H2]. split; [congruence|].
  intros i t Hi.
  destruct (H1 i t Hi) as (t1 & Hi1 & Ha1 & Hl1 & Hq1).
  destruct (H2 i t1 Hi1) as (t2 & Hi2 & Ha2 & Hl2 & Hq2).
  exists t2. split; [exact Hi2|].
  assert (message_queue t1 = message_queue t) as Hm
    by (destruct Hq1 as [?|[? _]]; [assumption | discriminate]).
  rewrite Ha2, Hl2, Ha1, Hl1. do 2 (split; [reflexivity|]).
  rewrite <- Hm, <- Hl1. exact Hq2.
Qed.

Lemma add_message_queues_after msg i g :
  queues_after msg (Some i) g (snd (add_message i msg g)).
Proof.
  unfold add_message.
  destruct (Teams g !! i) as [self|] eqn:Hi.
  2:{ rewrite (run_team_at_none _ _ _ Hi). split; [reflexivity|].
      intros j t Hj. exists t. auto. }
  rewrite (run_team_at _ _ _ _ Hi).
  destruct (spam_protection self && existsb _ (message_queue self)).
  { split; [reflexivity|]. intros j t Hj. exists t. auto. }
  rewrite run_bind. cbn [modify].
  assert (forall new_members,
            queues_after msg (Some i) g
              (update_team g i
                 (set_members
                    (set_message_queue self
                       (deque_append (queue_length self)
                                     (message_queue self) msg))
                    new_members))) as Hupd.
  { intros new_members. split; [cbn; apply length_insert|].
    intros j t Hj. destruct (decide (j = i)) as [->|Hne].
    - eexists. split.
      { cbn. apply list_lookup_insert_eq. eapply lookup_lt_Some; eauto. }
      assert (t = self) as -> by congruence. cbn. auto.
    - exists t. split; [|auto].
      cbn. now rewrite list_lookup_insert_ne by auto. }
  destruct (exclusive self && negb (Userlist.mem (user msg) (members self))).
  - cbn. specialize (Hupd ({[user msg]} ∪ members self)).
    destruct Hupd as [L H]. split.
    + cbn in *. now rewrite !length_insert in *.
    + intros j t Hj. destruct (H j t Hj) as (t' & Hj' & Hrest).
      exists t'. split; [|exact Hrest].
      cbn in *. now rewrite list_insert_insert_eq.
  - cbn. specialize (Hupd (members self)).
    destruct Hupd as [L H]. split; [exact L|].
    intros j t Hj. destruct (H j t Hj) as (t' & Hj' & Ha & Hl & Hq).
    destruct (decide (j = i)) as [->|Hne].
    + eexists. split.
      { cbn. apply list_lookup_insert_eq. eapply lookup_lt_Some; eauto. }
      assert (t = self) as -> by congruence. cbn. auto.
    + exists t. split; [|auto].
      cbn. now rewrite list_lookup_insert_ne by auto.
Qed.

Lemma attempt_queues_after msg team g r g' :
  __add_message_to_team msg team g = (r, g') ->
  queues_after msg (if answer_dec r true then Some team else None) g g'.
Proof.
  intros H. destruct (answer_dec r true) as [->|Hr].
  - destruct (add_message_to_team_accepted _ _ _ _ H)
      as (self & g2 & _ & _ & _ & S & _ & ->).
    eapply queues_after_then; [eapply shrinks_queues_after, S|].
    apply add_message_queues_after.
  - eapply shrinks_queues_after, add_message_to_team_rejected; eauto.
Qed.

Lemma look_for_queues_after msg teams :
  forall g, exists o,
    queues_after msg o g (snd (look_for_a_fitting_team msg teams g)).
Proof.
  induction teams as [|team rest IH]; intros g.
  - exists None. split; [reflexivity|]. intros i t Hi. exists t. auto.
  - cbn. rewrite run_bind.
    destruct (__add_message_to_team msg team g) as [r g1] eqn:H.
    pose proof (attempt_queues_after _ _ _ _ _ H) as Hq.
    destruct r as [[]|e].
    + destruct (answer_dec (Return true) true); [|congruence].
      now exists (Some team).
    + destruct (answer_dec (Return false) true); [discriminate|].
      destruct (IH g1) as [o Ho]. exists o.
      eapply queues_after_then; eauto.
    + destruct (answer_dec (Raise e) true); [discriminate|].
      now exists None.
Qed.

Lemma router_queues_after msg g :
  exists o,
    queues_after msg o g (snd (add_message_to_assigned_team msg g)).
Proof.
  destruct (state_accept_input g && message_is_action g msg) eqn:Hgate.
  - rewrite (router_is_scan _ _ Hgate).
    destruct (Users_get_team g (user msg)) as [team|] eqn:Hu;
      unfold attempts; rewrite Hu; apply look_for_queues_after.
  - unfold add_message_to_assigned_team. rewrite run_bind. cbn [get].
    rewrite Hgate. exists None. split; [reflexivity|].
    intros i t Hi. exists t. auto.
Qed.

(** X20.  The router delivers a message to at most one team: after
    [add_message_to_assigned_team], whatever its outcome, no action queue
    and no queue bound has changed, and there is at most one team whose
    message queue differs from before; that queue is the old one with
    the message appended by the bounded [append]. *)
Theorem router_fills_at_most_one_queue (g : GlobalData) (msg : ChatMessage) :
  let g' := snd (add_message_to_assigned_team msg g) in
  length (Teams g') = length (Teams g) /\
  (forall i t,
     Teams g !! i = Some t ->
     exists t',
       Teams g' !! i = Some t' /\
       action_queue t' = action_queue t /\
       queue_length t' = queue_length t /\
       (message_queue t' = message_queue t \/
        message_queue t' =
          deque_append (queue_length t) (message_queue t) msg)) /\
  (forall i j ti ti' tj tj',
     Teams g !! i = Some ti -> Teams g' !! i = Some ti' ->
     Teams g !! j = Some tj -> Teams g' !! j = Some tj' ->
     message_queue ti' <> message_queue ti ->
     message_queue tj' <> message_queue tj ->
     i = j).
Proof.
  cbn zeta. destruct (router_queues_after msg g) as (o & L & H).
  split; [exact L|]. split.
  - intros i t Hi. destruct (H i t Hi) as (t' & Hi' & Ha & Hl & Hq).
    exists t'. split; [exact Hi'|]. do 2 (split; [assumption|]).
    destruct Hq as [?|[_ ?]]; auto.
  - intros i j ti ti' tj tj' Hi Hi' Hj Hj' Hdi Hdj.
    destruct (H i ti Hi) as (t1 & Ht1 & _ & _ & Hq1).
    destruct (H j tj Hj) as (t2 & Ht2 & _ & _ & Hq2).
    assert (t1 = ti') as -> by congruence.
    assert (t2 = tj') as -> by congruence.
    destruct Hq1 as [?|[Ho1 _]]; [contradiction|].
    destruct Hq2 as [?|[Ho2 _]]; [contradiction|].
    congruence.
Qed.

(** Both queues of a team are within [queue_length]. *)
Definition bounded_team (t : Team) : Prop :=
  (length (message_queue t) <= queue_length t)%nat /\
  (length (action_queue t) <= queue_length t)%nat.

Definition bounded (g : GlobalData) : Prop :=
  forall i t, Teams g !! i = Some t -> bounded_team t.

(** X21.  The queues stay within their bound: when in every team both
    queues hold at most [queue_length] items, this is still so after the
    router has handled a message, and for every team after its translate
    step and after its execute step. *)
Theorem queues_stay_bounded (g : GlobalData) (msg : ChatMessage) :
  bounded g ->
  bounded (snd (add_message_to_assigned_team msg g)) /\
  (forall i self,
     Teams g !! i = Some self ->
     bounded_team (snd (fst (_translate_queued_message self))) /\
     forall random_command refused,
       bounded_team
         (snd (fst (_execute_queued_action g self random_command refused)))).
Proof.
  intros Hb. split; [|intros i self Hi; split].
  - destruct (router_queues_after msg g) as (o & L & H).
    intros i t' Hi'.
    destruct (Teams g !! i) as [t|] eqn:Hi.
    2:{ apply lookup_ge_None in Hi. apply lookup_lt_Some in Hi'. lia. }
    destruct (H i t Hi) as (t1 & Ht1 & Ha & Hl & Hq).
    assert (t1 = t') as -> by congruence.
    destruct (Hb i t Hi) as [Hm Hact].
    split; [|now rewrite Ha, Hl].
    rewrite Hl. destruct Hq as [-> | [_ ->]]; [exact Hm|].
    now apply deque_append_length.
  - destruct (Hb i self Hi) as [Hm Hact].
    unfold _translate_queued_message.
    destruct (message_queue self) as [|m q _] eqn:Hq using rev_ind.
    + rewrite deque_pop_nil. unfold bounded_team. cbn.
      split; [now rewrite Hq | exact Hact].
    + rewrite deque_pop_snoc. rewrite length_app in Hm. cbn in Hm.
      destruct (translate_user_message_to_action (actionset self) m)
        as [[func|]|[]]; unfold bounded_team; cbn; (split; [lia|]);
        try exact Hact.
      now apply deque_append_length.
  - intros random_command refused. destruct (Hb i self Hi) as [Hm Hact].
    unfold _execute_queued_action.
    destruct (action_queue self) as [|[m func] q _] eqn:Hq using rev_ind.
    + rewrite deque_pop_nil.
      destruct (empty_queue_action g self random_command) as [func|e];
        [destruct refused|]; unfold bounded_team; cbn; rewrite Hq;
        split; auto.
    + rewrite deque_pop_snoc.
      destruct refused; unfold bounded_team; cbn; split; auto; lia.
Qed.

Lemma queues_stay_bounded_witness :
  bounded (snd (add_message_to_assigned_team (plus_left "bob")
                                             example_globals)) /\
  (forall i self,
     Teams example_globals !! i = Some self ->
     bounded_team (snd (fst (_translate_queued_message self))) /\
     forall random_command refused,
       bounded_team
         (snd (fst (_execute_queued_action example_globals self
                      random_command refused)))).
Proof.
  apply (queues_stay_bounded example_globals (plus_left "bob")).
  intros [|[|i]] t Hi; cbn in Hi; inversion Hi; subst t;
    unfold bounded_team; cbn; lia.
Defined.

Lemma deque_append_snoc {A : Type} (maxlen : nat) (q : list A) (x : A) :
  (0 < maxlen)%nat -> (length q <= maxlen)%nat ->
  exists older, deque_append maxlen q x = older ++ [x].
Proof.
  intros Hpos Hlen. unfold deque_append.
  destruct (Nat.ltb_spec maxlen (length (q ++ [x]))) as [Hlt|Hge];
    [|now exists q].
  destruct q as [|y q]; [cbn in Hlt; lia|]. now exists q.
Qed.

(** X22.  The newest message is served first.  When [add_message] queues
    a message (spam protection off, or no queued message with the same
    user and text) in a team with room for at least one message, the next
    translate step of that team translates exactly this message; if it
    translates into an action, that action is appended to the action
    queue and every older pending message is dropped untranslated. *)
Theorem newest_message_is_translated_first
    (g : GlobalData) (i : nat) (self : Team) (msg : ChatMessage) :
  Teams g !! i = Some self ->
  (0 < queue_length self)%nat ->
  (length (message_queue self) <= queue_length self)%nat ->
  spam_protection self = false \/ ~ duplicate_queued self msg ->
  exists self1 r self2 trace,
    Teams (snd (add_message i msg g)) !! i = Some self1 /\
    _translate_queued_message self1 = (r, self2, trace) /\
    In (Translate msg) trace /\
    (forall m, In (Translate m) trace -> m = msg) /\
    (forall func,
       translate_user_message_to_action (actionset self) msg =
         Return (Some func) ->
       r = Return tt /\
       message_queue self2 = [] /\
       action_queue self2 =
         deque_append (queue_length self) (action_queue self) (msg, func)).
Proof.
  intros Hi Hpos Hlen Hnew.
  assert (spam_protection self &&
          existsb (fun existing_message =>
                     String.eqb (user msg) (user existing_message) &&
                     String.eqb (message msg) (message existing_message))
                  (message_queue self) = false) as Hspam.
  { destruct Hnew as [-> | Hnd]; [reflexivity|].
    apply andb_false_iff. right. apply not_true_is_false.
    intros Hex. now apply Hnd, duplicate_queued_spec. }
  destruct (deque_append_snoc (queue_length self) (message_queue self) msg
              Hpos Hlen) as [older Holder].
  assert (exists self1,
            Teams (snd (add_message i msg g)) !! i = Some self1 /\
            message_queue self1 = older ++ [msg] /\
            actionset self1 = actionset self /\
            action_queue self1 = action_queue self /\
            queue_length self1 = queue_length self)
    as (self1 & Hi1 & Hq1 & Has & Haq & Hql).
  { unfold add_message. rewrite (run_team_at _ _ _ _ Hi), Hspam.
    rewrite run_bind. cbn [modify].
    destruct (exclusive self &&
              negb (Userlist.mem (user msg) (members self))); cbn.
    - eexists. split.
      { apply list_lookup_insert_eq. rewrite length_insert.
        eapply lookup_lt_Some; eauto. }
      cbn. auto.
    - eexists. split.
      { apply list_lookup_insert_eq. eapply lookup_lt_Some; eauto. }
      cbn. auto. }
  exists self1. unfold _translate_queued_message.
  rewrite Hq1, deque_pop_snoc, Has.
  destruct (translate_user_message_to_action (actionset self) msg)
    as [[func|]|e] eqn:Htr.
  - do 3 eexists. split; [exact Hi1|]. split; [reflexivity|].
    split; [cbn; auto|]. split.
    + intros m Hin. cbn in Hin.
      destruct Hin as [H|[H|[H|[H|[H|[]]]]]]; now inversion H.
    + intros func' Hf. injection Hf as <-. cbn. rewrite Haq, Hql. auto.
  - do 3 eexists. split; [exact Hi1|]. split; [reflexivity|].
    split; [cbn; auto|]. split.
    + intros m Hin. cbn in Hin.
      destruct Hin as [H|[H|[H|[]]]]; now inversion H.
    + discriminate.
  - destruct e; do 3 eexists; (split; [exact Hi1|]);
      (split; [reflexivity|]); (split; [cbn; auto|]);
      (split; [|discriminate]);
      intros m Hin; cbn in Hin;
      repeat (destruct Hin as [Hin|Hin]; [now inversion Hin|]);
      destruct Hin.
Qed.

Lemma newest_message_is_translated_first_witness :
  exists self1 r self2 trace,
    Teams (snd (add_message 0 (plus_left "bob")
                  (snd (add_message 0 (plus_left "ann") example_globals))))
      !! 0%nat = Some self1 /\
    _translate_queued_message self1 = (r, self2, trace) /\
    In (Translate (plus_left "bob")) trace /\
    (forall m, In (Translate m) trace -> m = plus_left "bob") /\
    (forall func,
       translate_user_message_to_action
         (actionset
            (default (example_team [Default_Team] "Red" [])
               (Teams (snd (add_message 0 (plus_left "ann") example_globals))
                  !! 0%nat)))
         (plus_left "bob") = Return (Some func) ->
       r = Return tt /\
       message_queue self2 = [] /\
       action_queue self2 =
         deque_append
           (queue_length
              (default (example_team [Default_Team] "Red" [])
                 (Teams (snd (add_message 0 (plus_left "ann")
                                example_globals)) !! 0%nat)))
           (action_queue
              (default (example_team [Default_Team] "Red" [])
                 (Teams (snd (add_message 0 (plus_left "ann")
                                example_globals)) !! 0%nat)))
           (plus_left "bob", func)).
Proof.
  apply (newest_message_is_translated_first
           (snd (add_message 0 (plus_left "ann") example_globals)) 0
           (default (example_team [Default_Team] "Red" [])
              (Teams (snd (add_message 0 (plus_left "ann") example_globals))
                 !! 0%nat))
           (plus_left "bob")).
  - vm_compute. reflexivity.
  - vm_compute. lia.
  - vm_compute. lia.
  - right. intros (m & Hin & Hu & _). cbn in Hin.
    destruct Hin as [<- | []]. discriminate Hu.
Defined.

(** *** Clearing the teams *)

Lemma set_members_empty (t : Team) :
  (if (0 <? size (members t))%nat then set_members t ∅ else t)
  = set_members t ∅.
Proof.
  destruct (Nat.ltb_spec 0 (size (members t))) as [|Hz]; [reflexivity|].
  assert (members t = ∅) as Hm
    by (apply leibniz_equiv, size_empty_inv; lia).
  destruct t. cbn in *. now subst.
Qed.

Lemma run_clear_team_members (g : GlobalData) :
  snd (clear_team_members g) =
    set_Teams g (map (fun t => set_members t ∅) (Teams g)) /\
  (fst (clear_team_members g) = Return false <->
   existsb (fun team => (0 <? size (members team))%nat) (Teams g) = false).
Proof.
  unfold clear_team_members. rewrite run_bind. cbn [get].
  rewrite run_bind. cbn [modify].
  rewrite (map_ext _ (fun t => set_members t ∅) set_members_empty).
  destruct (existsb _ (Teams g)) eqn:Hhad.
  - unfold team_at, mbind, M_bind.
    destruct (Teams (set_Teams g _) !! 0%nat) as [team|]; cbn.
    + destruct (bot team); cbn; split; try reflexivity;
        split; discriminate.
    + split; [reflexivity|]. split; discriminate.
  - rewrite run_ret. cbn. split; [reflexivity|]. split; reflexivity.
Qed.

(** X23.  [clear_team_members] empties the members set of every team and
    changes nothing else: the user registry in particular keeps all its
    entries, so that after clearing a registry that named some user's
    team the registry no longer agrees with the members sets.  The
    result is [False] exactly when every team was empty already. *)
Theorem clear_team_members_keeps_the_registry (g : GlobalData) :
  let g' := snd (clear_team_members g) in
  Teams g' = map (fun t => set_members t ∅) (Teams g) /\
  Users g' = Users g /\
  action_prefixes g' = action_prefixes g /\
  (fst (clear_team_members g) = Return false <->
   forall i t, Teams g !! i = Some t -> members t = ∅) /\
  (forall u i, Users g !! u = Some i -> ~ registry_consistent g').
Proof.
  cbn zeta. destruct (run_clear_team_members g) as [-> Hres].
  split; [reflexivity|]. split; [reflexivity|]. split; [reflexivity|].
  split.
  - rewrite Hres. split.
    + intros Hnone i t Hi.
      destruct (0 <? size (members t))%nat eqn:Hsz.
      * exfalso. apply not_true_iff_false in Hnone. apply Hnone.
        apply existsb_exists. exists t. split; [|exact Hsz].
        apply list_elem_of_In. eapply list_elem_of_lookup_2, Hi.
      * apply leibniz_equiv, size_empty_inv. apply Nat.ltb_ge in Hsz. lia.
    + intros Hall. apply not_true_iff_false. intros Hex.
      apply existsb_exists in Hex as (t & Hin & Hsz).
      apply list_elem_of_In, list_elem_of_lookup_1 in Hin as [i Hi].
      rewrite (Hall i t Hi) in Hsz. discriminate Hsz.
  - intros u i Hu [_ Hreg].
    destruct (Hreg u i Hu) as (t' & Ht' & Hin & _).
    cbn in Ht'. rewrite list_lookup_fmap in Ht'.
    destruct (Teams g !! i) as [t|]; [|discriminate Ht'].
    injection Ht' as <-. cbn in Hin. set_solver.
Qed.

(** *** Random actions *)

(** The team asks its actionset for a random action when its action
    queue is empty: a [RandomOnly_Team] while input or random input is
    accepted, any other team when it uses random inputs and random input
    is on. *)
Definition draws_random_action (g : GlobalData) (self : Team) : bool :=
  if existsb is_RandomOnly_Team (classes self)
  then state_accept_input g || state_random_action g
  else use_random_inputs self && state_random_action g.

(** X30.  A random action runs on the delayed input handler and is never
    empty.  When a keyboard or gamepad team with an empty action queue
    draws a random command, the execute step hands the input server the
    sub-actions that the command translates to, with the delayed variant
    of the team's handler; when the command translates to no sub-action
    at all, the step raises [ValueError] instead and executes nothing. *)
Theorem random_action_is_delayed_or_fails
    (g : GlobalData) (self : Team)
    (m : BaseMultikey.MultiKey_BaseActionset) (random_command : string) :
  actionset self = MultiKey m ->
  action_queue self = [] ->
  draws_random_action g self = true ->
  (forall args_list,
     BaseMultikey.translate_message_contents_to_args_list m random_command
       = Return args_list ->
     args_list <> [] ->
     _execute_queued_action g self random_command false =
     (Return tt, self,
      [Acquire action_queue_lock; Release action_queue_lock;
       Execute (press_multiple_Keys
                  (delayed_variant (BaseMultikey.input_handler m))
                  (BaseMultikey.player_index m) args_list)])) /\
  (forall refused,
     BaseMultikey.translate_message_contents_to_args_list m random_command
       = Return [] ->
     _execute_queued_action g self random_command refused =
     (Raise ValueError, self,
      [Acquire action_queue_lock; Release action_queue_lock])).
Proof.
  intros Ha Hq Hdraw.
  assert (empty_queue_action g self random_command =
          random_action (MultiKey m) random_command) as Hempty.
  { unfold empty_queue_action, draws_random_action in *. rewrite Ha.
    destruct (existsb is_RandomOnly_Team (classes self)); now rewrite Hdraw. }
  unfold _execute_queued_action. rewrite Hq, deque_pop_nil, Hempty.
  unfold random_action, BaseMultikey.build_partial.
  split.
  - intros args_list Htr Hne. rewrite Htr. cbn.
    destruct args_list as [|a l]; [congruence|]. reflexivity.
  - intros refused Htr. rewrite Htr. reflexivity.
Qed.

(** A team that plays random inputs while random input is on. *)
Definition random_globals : GlobalData :=
  {| Teams := [];
     Users := ∅;
     action_prefixes := {[ "+" ]};
     state_accept_input := false;
     state_random_action := true |}.

Definition random_team : Team :=
  {| classes := [RandomOnly_Team]; name := "Random";
     channels := {[ "#chan" ]};
     actionset := MultiKey BaseMultikeyFacts.example_actionset;
     hidden := true; queue_length := 10; use_random_inputs := false;
     joinable := false; leavable := false; exclusive := true;
     spam_protection := true;
     user_whitelist := Userlist.__init__ true;
     user_blacklist := Userlist.__init__ true;
     members := ∅; keep_running := true; bot := None;
     message_queue := []; action_queue := [] |}.

Lemma random_action_is_delayed_or_fails_witness :
  (forall args_list,
     BaseMultikey.translate_message_contents_to_args_list
       BaseMultikeyFacts.example_actionset "+left" = Return args_list ->
     args_list <> [] ->
     _execute_queued_action random_globals random_team "+left" false =
     (Return tt, random_team,
      [Acquire action_queue_lock; Release action_queue_lock;
       Execute (press_multiple_Keys
                  (delayed_variant
                     (BaseMultikey.input_handler
                        BaseMultikeyFacts.example_actionset))
                  (BaseMultikey.player_index
                     BaseMultikeyFacts.example_actionset) args_list)])) /\
  (forall refused,
     BaseMultikey.translate_message_contents_to_args_list
       BaseMultikeyFacts.example_actionset "+left" = Return [] ->
     _execute_queued_action random_globals random_team "+left" refused =
     (Raise ValueError, random_team,
      [Acquire action_queue_lock; Release action_queue_lock])).
Proof.
  apply (random_action_is_delayed_or_fails random_globals random_team
           BaseMultikeyFacts.example_actionset "+left");
    reflexivity.
Defined.

End TeamProps.

(* ================================================================== *)
(** ** The registry of teams *)
(* ================================================================== *)
Module RegistryProps.
Import Chatmsg Teams Registry QueueFacts.

Lemma name_is_taken (g : GlobalData) (n : string) :
  existsb (String.eqb n) (get_all_lowercase_names g) = true <->
  In n (get_all_lowercase_names g).
Proof.
  rewrite existsb_exists. split.
  - intros (x & Hin & Hx). apply String.eqb_eq in Hx. now subst.
  - intros Hin. exists n. split; [exact Hin | apply String.eqb_refl].
Qed.

Lemma get_by_name_Some (g : GlobalData) (n : string) (i : nat) :
  get_by_name g n = Some i <->
  exists t, Teams g !! i = Some t /\
            PyStr.lower (name t) = PyStr.lower n /\
            forall j y, Teams g !! j = Some y -> (j < i)%nat ->
                        PyStr.lower (name y) <> PyStr.lower n.
Proof.
  unfold get_by_name. rewrite fmap_Some. split.
  - intros ([j t] & Hfind & ->). apply list_find_Some in Hfind. eauto.
  - intros (t & H). exists (i, t). split; [|reflexivity].
    now apply list_find_Some.
Qed.

(** X24.  Team names stay unique without regard to case.  When the
    lower-cased names of the registered teams are pairwise different,
    [GlobalData.Teams.add] keeps them so; it raises (a [KeyError]) and
    changes nothing exactly when a registered team has the same name up
    to case; and after a successful [add], [get_by_name] finds the new
    team under every spelling of its name, while every name that was
    found before is still found at the same team. *)
Theorem add_keeps_team_names_unique (g : GlobalData) (team : Team) :
  NoDup (get_all_lowercase_names g) ->
  NoDup (get_all_lowercase_names (snd (add team g))) /\
  (fst (add team g) = Raise KeyError <->
   exists i t, Teams g !! i = Some t /\
               PyStr.lower (name t) = PyStr.lower (name team)) /\
  (fst (add team g) = Raise KeyError -> snd (add team g) = g) /\
  (fst (add team g) = Return tt ->
   Teams (snd (add team g)) = Teams g ++ [team] /\
   (forall n, PyStr.lower n = PyStr.lower (name team) ->
              get_by_name (snd (add team g)) n = Some (length (Teams g))) /\
   (forall n i, get_by_name g n = Some i ->
                get_by_name (snd (add team g)) n = Some i)).
Proof.
  intros Hnodup. unfold add.
  pose proof (name_is_taken g (PyStr.lower (name team))) as Htaken.
  assert (In (PyStr.lower (name team)) (get_all_lowercase_names g) <->
          exists i t, Teams g !! i = Some t /\
                      PyStr.lower (name t) = PyStr.lower (name team))
    as Hin.
  { unfold get_all_lowercase_names. rewrite in_map_iff. split.
    - intros (t & Hn & Ht).
      apply list_elem_of_In, list_elem_of_lookup_1 in Ht as [i Hi]. eauto.
    - intros (i & t & Hi & Hn). exists t. split; [exact Hn|].
      eapply list_elem_of_In, list_elem_of_lookup_2, Hi. }
  destruct (existsb _ (get_all_lowercase_names g)) eqn:Hex; cbn [fst snd].
  - split; [exact Hnodup|]. split.
    + split; [intros _; apply Hin, Htaken; reflexivity | reflexivity].
    + split; [reflexivity | discriminate].
  - assert (~ In (PyStr.lower (name team)) (get_all_lowercase_names g))
      as Hfree.
    { intros H. apply Htaken in H. discriminate H. }
    split; [|split; [|split; [discriminate|]]].
    + unfold get_all_lowercase_names. cbn. rewrite map_app. cbn.
      apply NoDup_app. split; [exact Hnodup|]. split.
      * intros n Hn Hn'. apply list_elem_of_In in Hn'.
        destruct Hn' as [Heq|[]]. subst n. apply Hfree.
        now apply list_elem_of_In.
      * apply NoDup_singleton.
    + split; [discriminate|]. intros H. exfalso. now apply Hfree, Hin.
    + intros _. split; [reflexivity|]. split.
      * intros n Hn. apply get_by_name_Some. exists team.
        cbn [Teams set_Teams].
        split; [now rewrite lookup_app_r, Nat.sub_diag by lia|].
        split; [congruence|].
        intros j y Hj Hlt Hy. rewrite lookup_app_l in Hj by lia.
        apply Hfree, Hin. exists j, y. split; [exact Hj | congruence].
      * intros n i (t & Hi & Hn & Hleast)%get_by_name_Some.
        apply get_by_name_Some. exists t. cbn [Teams set_Teams].
        split; [now apply lookup_app_l_Some|]. split; [exact Hn|].
        intros j y Hj Hlt. apply (Hleast j y); [|exact Hlt].
        rewrite lookup_app_l in Hj; [exact Hj|].
        apply lookup_lt_Some in Hi. lia.
Qed.

Lemma add_keeps_team_names_unique_witness :
  NoDup (get_all_lowercase_names
           (snd (add (example_team [Default_Team] "GREEN" [])
                     example_globals))) /\
  (fst (add (example_team [Default_Team] "GREEN" []) example_globals)
     = Raise KeyError <->
   exists i t, Teams example_globals !! i = Some t /\
               PyStr.lower (name t) =
               PyStr.lower (name (example_team [Default_Team] "GREEN" []))) /\
  (fst (add (example_team [Default_Team] "GREEN" []) example_globals)
     = Raise KeyError ->
   snd (add (example_team [Default_Team] "GREEN" []) example_globals)
     = example_globals) /\
  (fst (add (example_team [Default_Team] "GREEN" []) example_globals)
     = Return tt ->
   Teams (snd (add (example_team [Default_Team] "GREEN" []) example_globals))
     = Teams example_globals ++ [example_team [Default_Team] "GREEN" []] /\
   (forall n,
      PyStr.lower n =
      PyStr.lower (name (example_team [Default_Team] "GREEN" [])) ->
      get_by_name
        (snd (add (example_team [Default_Team] "GREEN" []) example_globals)) n
      = Some (length (Teams example_globals))) /\
   (forall n i,
      get_by_name example_globals n = Some i ->
      get_by_name
        (snd (add (example_team [Default_Team] "GREEN" []) example_globals)) n
      = Some i)).
Proof.
  apply (add_keeps_team_names_unique example_globals
           (example_team [Default_Team] "GREEN" [])).
  apply (bool_decide_unpack _). vm_compute. exact I.
Defined.

(** A second team called [red] is refused, whatever the case. *)
Example duplicate_team_name_is_refused :
  add (example_team [Default_Team] "rED" []) example_globals =
  (Raise KeyError, example_globals).
Proof. reflexivity. Qed.

End RegistryProps.

(* ================================================================== *)
(** ** Snapshots *)
(* ================================================================== *)
Module SnapshotProps.
Import Chatmsg Userlist Teams Registry Snapshot UserlistFacts QueueFacts
       RouterFacts.

(** The channels of both containers, group by group. *)
Definition groups_union (a b : SpecialGroupsContainer)
  : SpecialGroupsContainer :=
  {| broadcaster := broadcaster a ∪ broadcaster b;
     mods := mods a ∪ mods b;
     vips := vips a ∪ vips b;
     subs := subs a ∪ subs b;
     tier3subs := tier3subs a ∪ tier3subs b;
     tier2subs := tier2subs a ∪ tier2subs b;
     tier1subs := tier1subs a ∪ tier1subs b;
     partners := partners a ∪ partners b;
     founders := founders a ∪ founders b;
     staff := staff a ∪ staff b;
     prime := prime a ∪ prime b;
     turbo := turbo a ∪ turbo b;
     users := users a ∪ users b |}.

Lemma add_elements (s acc : gset string) :
  foldl (fun acc x => {[x]} ∪ acc) acc (elements s) = s ∪ acc.
Proof. now rewrite add_all, list_to_set_elements_L. Qed.

(** Importing an export into any list never raises: it merges the fixed
    users and the groups into the list and empties its cache of known
    users. *)
Lemma import_export_into (L0 L : UserList) :
  import_dict L0 (export_dict L) =
  (Return tt,
   {| cache_users := cache_users L0; known_users := ∅;
      included_users := included_users L0;
      fixed_users := fixed_users L ∪ fixed_users L0;
      special_groups :=
        groups_union (special_groups L) (special_groups L0) |}).
Proof.
  destruct L0 as [c0 k0 i0 f0 [a0 b0 c1 d0 e3 e2 e1 p0 fo0 st0 pr0 tu0 us0]].
  unfold import_dict, export_dict. cbn -[elements foldl].
  rewrite !add_elements. reflexivity.
Qed.

(** X25.  Restoring a snapshot never fails on a snapshot that
    [create_snapshot] made, for whatever team it is restored into: the
    members become those of the snapshot, the fixed users and the group
    channels of the snapshot are merged into the team's own whitelist and
    blacklist (nothing that was on them is taken off), both caches of
    known users are emptied, the macros are set from the snapshot, and
    the queues and the settings of the team stay as they are. *)
Theorem restore_snapshot_merges (self source : Team) :
  exists self',
    restore_snapshot self (create_snapshot source) = (Return tt, self') /\
    members self' = members source /\
    fixed_users (user_whitelist self') =
      fixed_users (user_whitelist source) ∪ fixed_users (user_whitelist self) /\
    special_groups (user_whitelist self') =
      groups_union (special_groups (user_whitelist source))
                   (special_groups (user_whitelist self)) /\
    fixed_users (user_blacklist self') =
      fixed_users (user_blacklist source) ∪ fixed_users (user_blacklist self) /\
    special_groups (user_blacklist self') =
      groups_union (special_groups (user_blacklist source))
                   (special_groups (user_blacklist self)) /\
    known_users (user_whitelist self') = ∅ /\
    known_users (user_blacklist self') = ∅ /\
    actionset self' =
      set_macro_dict (actionset self) (get_macro_dict (actionset source)) /\
    message_queue self' = message_queue self /\
    action_queue self' = action_queue self /\
    name self' = name self /\ classes self' = classes self /\
    queue_length self' = queue_length self.
Proof.
  unfold restore_snapshot, create_snapshot.
  cbn [snapshot_members snapshot_whitelist snapshot_blacklist
       snapshot_macros user_whitelist user_blacklist set_members
       set_user_whitelist].
  rewrite !import_export_into.
  eexists. split; [reflexivity|].
  cbn. rewrite list_to_set_elements_L. repeat split.
Qed.

(** The macro table is one that [set_macro_dict] builds: every macro
    under a name without the action prefix, and once more under the
    prefixed name. *)
Definition canonical_macros (a : Actionset) : Prop :=
  match a with
  | MultiKey m =>
      exists macros,
        MacrosProps.unprefixed (BaseMultikey.action_prefix m) macros /\
        BaseMultikey.macro_dict m =
          BaseMultikey.macro_dict (Macros.set_macro_dict m macros)
  | Typewrite_Actionset _ | Default_Actionset _ | None_Actionset _ => True
  end.

Lemma set_get_macro_dict (a : Actionset) :
  canonical_macros a -> set_macro_dict a (get_macro_dict a) = a.
Proof.
  destruct a as [m| | |]; cbn; [|reflexivity..].
  intros (macros & Hun & Hm). f_equal.
  assert (Macros.get_macro_dict m = macros) as ->.
  { transitivity (Macros.get_macro_dict (Macros.set_macro_dict m macros)).
    - unfold Macros.get_macro_dict. rewrite Hm. reflexivity.
    - rewrite MacrosProps.get_set_filter. apply map_filter_id.
      intros name macro H. apply Hun. now exists macro. }
  destruct m. unfold Macros.set_macro_dict, Macros.set_macro_table.
  cbn in *. now rewrite <- Hm.
Qed.

Lemma groups_union_idemp (g : SpecialGroupsContainer) : groups_union g g = g.
Proof.
  destruct g. unfold groups_union. cbn. now rewrite !union_idemp_L.
Qed.

(** What [restore_snapshot] of its own snapshot makes of a team. *)
Definition reloaded (self : Team) : Team :=
  snd (restore_snapshot self (create_snapshot self)).

Lemma restore_created (self : Team) :
  restore_snapshot self (create_snapshot self) = (Return tt, reloaded self) /\
  name (reloaded self) = name self.
Proof.
  unfold reloaded, restore_snapshot, create_snapshot.
  cbn [snapshot_members snapshot_whitelist snapshot_blacklist
       snapshot_macros user_whitelist user_blacklist set_members
       set_user_whitelist].
  rewrite !import_export_into. split; reflexivity.
Qed.

(** The team with the caches of known users of both lists emptied. *)
Definition forget_known_users (self : Team) : Team :=
  set_user_blacklist
    (set_user_whitelist self (set_known (user_whitelist self) ∅))
    (set_known (user_blacklist self) ∅).

Lemma reloaded_canonical (self : Team) :
  canonical_macros (actionset self) -> reloaded self = forget_known_users self.
Proof.
  intros Hmacros. unfold reloaded, restore_snapshot, create_snapshot.
  cbn [snapshot_members snapshot_whitelist snapshot_blacklist
       snapshot_macros user_whitelist user_blacklist set_members
       set_user_whitelist].
  rewrite !import_export_into.
  cbn [snd actionset set_user_blacklist set_user_whitelist set_members].
  rewrite (set_get_macro_dict _ Hmacros).
  rewrite list_to_set_elements_L, !groups_union_idemp, !union_idemp_L.
  unfold forget_known_users, set_actionset, set_user_blacklist,
    set_user_whitelist, set_known.
  destruct self. reflexivity.
Qed.

(** X26.  Restoring a team's own snapshot changes nothing but the caches:
    for a team whose macro table is one that [set_macro_dict] builds,
    [restore_snapshot] of [create_snapshot] succeeds and leaves the team
    exactly as it was, except that the known users of its whitelist and
    of its blacklist are forgotten. *)
Theorem restore_own_snapshot (self : Team) :
  canonical_macros (actionset self) ->
  restore_snapshot self (create_snapshot self) =
  (Return tt, forget_known_users self).
Proof.
  intros Hmacros. rewrite (proj1 (restore_created self)).
  now rewrite (reloaded_canonical self Hmacros).
Qed.

Lemma restore_own_snapshot_witness :
  restore_snapshot (example_team [Default_Team] "Red" [plus_left "ann"])
    (create_snapshot (example_team [Default_Team] "Red" [plus_left "ann"])) =
  (Return tt,
   forget_known_users (example_team [Default_Team] "Red" [plus_left "ann"])).
Proof.
  apply (restore_own_snapshot
           (example_team [Default_Team] "Red" [plus_left "ann"])).
  exists ∅. split.
  - intros name [macro H]. rewrite lookup_empty in H. discriminate H.
  - vm_compute. reflexivity.
Defined.

(** *** Saving and loading all teams *)

Lemma lower_char_idemp (c : ascii) :
  PyStr.lower_char (PyStr.lower_char c) = PyStr.lower_char c.
Proof. destruct c as [[] [] [] [] [] [] [] []]; reflexivity. Qed.

Lemma lower_idemp (s : string) : PyStr.lower (PyStr.lower s) = PyStr.lower s.
Proof.
  induction s as [|c s IH]; cbn; [reflexivity|].
  now rewrite lower_char_idemp, IH.
Qed.

Lemma restore_teams_step (done todo : list Team) :
  forall g,
    Teams g = map reloaded done ++ todo ->
    NoDup (map (fun t => PyStr.lower (name t)) (done ++ todo)) ->
    restore_teams
      (map (fun team => (PyStr.lower (name team), create_snapshot team)) todo)
      g =
    (Return tt, set_Teams g (map reloaded (done ++ todo))).
Proof.
  revert done. induction todo as [|t todo IH]; intros done g Hg Hnodup.
  - cbn. rewrite run_ret. f_equal. rewrite app_nil_r in *.
    rewrite <- Hg. now destruct g.
  - cbn [map restore_teams]. rewrite run_bind. cbn [get].
    assert (Teams g !! length done = Some t) as Hi.
    { rewrite Hg, lookup_app_r by (rewrite length_map; lia).
      now rewrite length_map, Nat.sub_diag. }
    assert (get_by_name g (PyStr.lower (name t)) = Some (length done))
      as ->.
    { apply RegistryProps.get_by_name_Some. exists t.
      split; [exact Hi|]. split; [now rewrite lower_idemp|].
      intros j y Hj Hlt Hy. rewrite lower_idemp in Hy.
      rewrite Hg, lookup_app_l in Hj by (rewrite length_map; lia).
      rewrite list_lookup_fmap in Hj.
      destruct (done !! j) as [d|] eqn:Hd; [|discriminate Hj].
      injection Hj as <-.
      rewrite (proj2 (restore_created d)) in Hy.
      rewrite map_app in Hnodup. apply NoDup_app in Hnodup as (_ & Hdis & _).
      apply (Hdis (PyStr.lower (name d))).
      - apply list_elem_of_fmap. exists d. split; [reflexivity|].
        eapply list_elem_of_lookup_2, Hd.
      - rewrite Hy. cbn. left. }
    rewrite (run_team_at _ _ _ _ Hi).
    rewrite (proj1 (restore_created t)).
    rewrite run_bind. cbn [modify]. rewrite run_bind. cbn [lift].
    rewrite (IH (done ++ [t])).
    + f_equal. rewrite <- app_assoc. cbn. now destruct g.
    + cbn. rewrite Hg. rewrite insert_app_r_alt by (rewrite length_map; lia).
      rewrite length_map, Nat.sub_diag. cbn.
      rewrite map_app, <- app_assoc. reflexivity.
    + now rewrite <- app_assoc.
Qed.

(** X27.  Loading the snapshot that was just saved touches nothing but
    the caches.  When the teams have pairwise different names up to case
    and their macro tables are ones that [set_macro_dict] builds, then
    restoring the snapshots of all teams, as [load_snapshot] does with
    what [save_snapshot] wrote, succeeds and leaves every team as it was
    except that the known users of its two lists are forgotten; the user
    registry is unchanged. *)
Theorem load_of_saved_snapshot (g : GlobalData) :
  NoDup (get_all_lowercase_names g) ->
  (forall i t, Teams g !! i = Some t -> canonical_macros (actionset t)) ->
  restore_teams (snapshot_teams g) g =
  (Return tt, set_Teams g (map forget_known_users (Teams g))).
Proof.
  intros Hnodup Hmacros. unfold snapshot_teams.
  rewrite (restore_teams_step [] (Teams g) g eq_refl Hnodup).
  f_equal. f_equal. cbn [app].
  apply map_ext_in. intros t Hin.
  apply list_elem_of_In, list_elem_of_lookup_1 in Hin as [i Hi].
  apply reloaded_canonical. eapply Hmacros, Hi.
Qed.

Lemma load_of_saved_snapshot_witness :
  restore_teams (snapshot_teams example_globals) example_globals =
  (Return tt,
   set_Teams example_globals
     (map forget_known_users (Teams example_globals))).
Proof.
  apply (load_of_saved_snapshot example_globals).
  - apply (bool_decide_unpack _). vm_compute. exact I.
  - intros i t Hi.
    assert (t = example_team [Default_Team] "Red" [] \/
            t = example_team [Default_Team] "Blue" []) as Ht.
    { destruct i as [|[|i]]; cbn in Hi; inversion Hi; auto. }
    destruct Ht as [-> | ->]; exists ∅; (split;
      [intros name [macro H]; rewrite lookup_empty in H; discriminate H
      |vm_compute; reflexivity]).
Defined.

End SnapshotProps.

(* ================================================================== *)
(** ** A new team *)
(* ================================================================== *)
Module ConstructionProps.
Import Chatmsg Userlist Teams Construction UserlistProps QueueFacts.

Lemma add_to_list_keeps (L : UserList) (entry : string)
    (chans : gset string) (x : string) :
  x ∈ fixed_users L -> x ∈ included_users L ->
  x ∈ fixed_users (snd (add_to_list L entry chans)) /\
  x ∈ included_users (snd (add_to_list L entry chans)).
Proof.
  intros Hf Hi. unfold add_to_list.
  destruct (Re.findall REGEX (PyStr.lower entry)) as [|regex_result rest].
  - cbn. set_solver.
  - destruct (change_group _ _ _ _ _); cbn; auto.
Qed.

Lemma add_to_list_plain (L : UserList) (entry : string)
    (chans : gset string) :
  Re.findall REGEX (PyStr.lower entry) = [] ->
  PyStr.lower entry ∈ fixed_users (snd (add_to_list L entry chans)) /\
  PyStr.lower entry ∈ included_users (snd (add_to_list L entry chans)).
Proof.
  intros Hplain. unfold add_to_list. rewrite Hplain. cbn. set_solver.
Qed.

Lemma add_entries_keeps (entries : list string) (chans : gset string)
    (x : string) :
  forall L,
    x ∈ fixed_users L -> x ∈ included_users L ->
    x ∈ fixed_users (snd (add_entries L entries chans)) /\
    x ∈ included_users (snd (add_entries L entries chans)).
Proof.
  induction entries as [|entry rest IH]; intros L Hf Hi; cbn; [auto|].
  destruct (add_to_list_keeps L entry chans x Hf Hi) as [Hf' Hi'].
  destruct (add_to_list L entry chans) as [[[]|e] L']; cbn in *; auto.
Qed.

Lemma add_entries_has (entries : list string) (chans : gset string)
    (entry : string) :
  forall L L',
    add_entries L entries chans = (Return tt, L') ->
    In entry entries ->
    Re.findall REGEX (PyStr.lower entry) = [] ->
    PyStr.lower entry ∈ fixed_users L' /\
    PyStr.lower entry ∈ included_users L'.
Proof.
  induction entries as [|first rest IH]; intros L L' Hrun Hin Hplain;
    [destruct Hin|].
  cbn in Hrun.
  destruct Hin as [-> | Hin].
  - destruct (add_to_list_plain L entry chans Hplain) as [Hf Hi].
    destruct (add_to_list L entry chans) as [[[]|e] L1]; [|discriminate Hrun].
    cbn in Hf, Hi.
    pose proof (add_entries_keeps rest chans _ L1 Hf Hi) as Hkeep.
    now rewrite Hrun in Hkeep.
  - destruct (add_to_list L first chans) as [[[]|e] L1]; [|discriminate Hrun].
    eapply IH; eauto.
Qed.

Lemma fixed_and_included_is_in_list (L : UserList) (msg : ChatMessage) :
  user msg ∈ fixed_users L -> user msg ∈ included_users L ->
  fst (message_in_list L msg) = Return true.
Proof.
  intros Hf Hi. unfold message_in_list.
  rewrite (mem_true _ _ Hf), (mem_true _ _ Hi).
  now destruct (cache_users L && mem (user msg) (known_users L)).
Qed.

(** X29.  What [Team.__init__] hands back: a team that was constructed
    has a name and at least one channel, no members, two empty queues,
    no bot reference and [keep_running] on; and every entry of the
    [user_whitelist] (of the [user_blacklist]) argument that is not a
    special group token is on the team's whitelist (blacklist): every
    message of that user, lower-cased, is in the list, wherever the entry
    stood among the other entries.  A team is constructed only from a
    name that is not empty, at least one channel and a queue length that
    is not negative. *)
Theorem new_team_is_empty_and_listed
    (cs : list TeamClass) (args : kwargs) (team : Team) :
  __init__ cs args = Return team ->
  name team <> "" /\
  channels team <> ∅ /\
  members team = ∅ /\
  message_queue team = [] /\
  action_queue team = [] /\
  bot team = None /\
  keep_running team = true /\
  classes team = cs /\
  (0 <= arg_queue_length args /\
   queue_length team = Z.to_nat (arg_queue_length args)) /\
  (forall entry msg,
     In entry (arg_user_whitelist args) ->
     Re.findall REGEX (PyStr.lower entry) = [] ->
     user msg = PyStr.lower entry ->
     fst (message_in_list (user_whitelist team) msg) = Return true) /\
  (forall entry msg,
     In entry (arg_user_blacklist args) ->
     Re.findall REGEX (PyStr.lower entry) = [] ->
     user msg = PyStr.lower entry ->
     fst (message_in_list (user_blacklist team) msg) = Return true).
Proof.
  unfold __init__.
  destruct (String.eqb_spec (arg_name args) "") as [|Hname]; [discriminate|].
  destruct (bool_decide_reflect (arg_channels args = ∅)) as [|Hchan];
    [discriminate|].
  destruct (arg_actionset args) as [a|]; [|discriminate].
  destruct (add_entries (Userlist.__init__ true) (arg_user_whitelist args)
                        (arg_channels args)) as [[[]|e] wl] eqn:Hwl;
    [|discriminate].
  destruct (add_entries (Userlist.__init__ true) (arg_user_blacklist args)
                        (arg_channels args)) as [[[]|e] bl] eqn:Hbl;
    [|discriminate].
  destruct (Z.ltb_spec (arg_queue_length args) 0) as [|Hlen];
    [discriminate|].
  intros H. injection H as <-. cbn.
  do 8 (split; [auto|]). split; [auto|]. split.
  - intros entry msg Hin Hplain Hu.
    destruct (add_entries_has _ _ entry _ _ Hwl Hin Hplain) as [Hf Hi].
    apply fixed_and_included_is_in_list; now rewrite Hu.
  - intros entry msg Hin Hplain Hu.
    destruct (add_entries_has _ _ entry _ _ Hbl Hin Hplain) as [Hf Hi].
    apply fixed_and_included_is_in_list; now rewrite Hu.
Qed.

Definition example_kwargs : kwargs :=
  {| arg_name := "Red";
     arg_channels := {[ "#chan" ]};
     arg_actionset := Some (MultiKey BaseMultikeyFacts.example_actionset);
     arg_hidden := false;
     arg_queue_length := 10;
     arg_use_random_inputs := false;
     arg_joinable := true;
     arg_leavable := true;
     arg_exclusive := true;
     arg_user_whitelist := ["Alice"; "$mods"; "BOB"];
     arg_user_blacklist := ["eve"];
     arg_spam_protection := true |}.

Definition example_new_team : Team :=
  match __init__ [Default_Team] example_kwargs with
  | Return team => team
  | Raise _ => example_team [Default_Team] "Red" []
  end.

Lemma new_team_is_empty_and_listed_witness :
  name example_new_team <> "" /\
  channels example_new_team <> ∅ /\
  members example_new_team = ∅ /\
  message_queue example_new_team = [] /\
  action_queue example_new_team = [] /\
  bot example_new_team = None /\
  keep_running example_new_team = true /\
  classes example_new_team = [Default_Team] /\
  (0 <= arg_queue_length example_kwargs /\
   queue_length example_new_team =
     Z.to_nat (arg_queue_length example_kwargs)) /\
  (forall entry msg,
     In entry (arg_user_whitelist example_kwargs) ->
     Re.findall REGEX (PyStr.lower entry) = [] ->
     user msg = PyStr.lower entry ->
     fst (message_in_list (user_whitelist example_new_team) msg)
       = Return true) /\
  (forall entry msg,
     In entry (arg_user_blacklist example_kwargs) ->
     Re.findall REGEX (PyStr.lower entry) = [] ->
     user msg = PyStr.lower entry ->
     fst (message_in_list (user_blacklist example_new_team) msg)
       = Return true).
Proof.
  apply (new_team_is_empty_and_listed [Default_Team] example_kwargs
           example_new_team).
  vm_compute. reflexivity.
Defined.

(** The whitelist of the example: [alice] and [bob] are fixed users, the
    moderators of [#chan] are a group. *)
Example example_new_team_whitelist :
  fixed_users (user_whitelist example_new_team) = {[ "alice"; "bob" ]} /\
  mods (special_groups (user_whitelist example_new_team)) = {[ "#chan" ]}.
Proof. split; apply (bool_decide_unpack _); vm_compute; exact I. Qed.

End ConstructionProps.
